(** * Resume parser: a shallow embedding of [core/information_parser.py]

    The development follows the Python module function by function.
    Text is a list of 8-bit characters (code points 0..255); on that range
    whitespace, case mapping and the word class are the ones Python's [str]
    and [re] use.  The two things the module takes from its environment are
    parameters of the functions that use them: the entity recogniser [nlp]
    and the current date returned by [datetime.now()]. *)

From Stdlib Require Import Ascii String NArith.
From Stdlib Require Import List Arith Lia Bool.
Import ListNotations.
Set Warnings "-abstract-large-number".
Open Scope string_scope.
Open Scope list_scope.
Open Scope nat_scope.

(** ** Python strings *)

Module Py.

Definition str := list ascii.

Definition s2l (s : string) : str := list_ascii_of_string s.

Definition code (c : ascii) : N := N_of_ascii c.

Definition between (lo hi n : N) : bool := (lo <=? n)%N && (n <=? hi)%N.

(** [str.isspace] on one character: TAB..CR, FS..US, SPACE, NEL, NBSP. *)
Definition is_space (c : ascii) : bool :=
  let n := code c in
  between 9 13 n || between 28 32 n || (n =? 133)%N || (n =? 160)%N.

Definition is_digit (c : ascii) : bool := between 48 57 (code c).

Definition is_ascii_upper (c : ascii) : bool := between 65 90 (code c).
Definition is_ascii_lower (c : ascii) : bool := between 97 122 (code c).

(** Upper-case letters of the range: A..Z and the Latin-1 capitals
    (0xC0..0xDE without the multiplication sign 0xD7). *)
Definition is_upper (c : ascii) : bool :=
  let n := code c in
  between 65 90 n || (between 192 222 n && negb (n =? 215)%N).

(** Lower-case letters that have an upper case in the range. *)
Definition is_lower_paired (c : ascii) : bool :=
  let n := code c in
  between 97 122 n || (between 224 254 n && negb (n =? 247)%N).

(** Lower-case letters of the range, paired or not (ª µ º ß ÿ). *)
Definition is_lower (c : ascii) : bool :=
  let n := code c in
  is_lower_paired c || (n =? 170)%N || (n =? 181)%N || (n =? 186)%N
  || (n =? 223)%N || (n =? 255)%N.

Definition is_alpha (c : ascii) : bool := is_upper c || is_lower c.

(** The class [\w] of [re] on [str] patterns: alphanumeric or underscore.
    Superscript digits and vulgar fractions count as numeric. *)
Definition is_word (c : ascii) : bool :=
  let n := code c in
  is_alpha c || is_digit c || (n =? 95)%N
  || (n =? 178)%N || (n =? 179)%N || (n =? 185)%N || between 188 190 n.

Definition lower_char (c : ascii) : ascii :=
  if is_upper c then ascii_of_N (code c + 32) else c.

Definition lower (s : str) : str := map lower_char s.

Definition eqc (a b : ascii) : bool := Ascii.eqb a b.

Fixpoint eqs (a b : str) : bool :=
  match a, b with
  | [], [] => true
  | x :: a', y :: b' => eqc x y && eqs a' b'
  | _, _ => false
  end.

Fixpoint lstrip (s : str) : str :=
  match s with
  | c :: s' => if is_space c then lstrip s' else s
  | [] => []
  end.

Definition rstrip (s : str) : str := rev (lstrip (rev s)).

(** [s.strip()] *)
Definition strip (s : str) : str := rstrip (lstrip s).

Fixpoint startswith (p s : str) : bool :=
  match p, s with
  | [], _ => true
  | x :: p', y :: s' => eqc x y && startswith p' s'
  | _ :: _, [] => false
  end.

(** [sub in s] *)
Fixpoint contains (sub s : str) : bool :=
  startswith sub s ||
  match s with
  | [] => false
  | _ :: s' => contains sub s'
  end.

(** [s.find(sub)], [None] for Python's -1. *)
Fixpoint find_from (sub s : str) (i : nat) : option nat :=
  if startswith sub s then Some i
  else match s with
       | [] => None
       | _ :: s' => find_from sub s' (S i)
       end.

Definition find (sub s : str) : option nat := find_from sub s 0.

(** [s.split(sep)] for a one-character separator. *)
Fixpoint split_acc (sep : ascii) (cur : str) (s : str) : list str :=
  match s with
  | [] => [rev cur]
  | c :: s' => if eqc c sep then rev cur :: split_acc sep [] s'
               else split_acc sep (c :: cur) s'
  end.

Definition split (sep : ascii) (s : str) : list str := split_acc sep [] s.

(** [s.split()]: maximal runs of non-whitespace characters. *)
Fixpoint split_ws_acc (cur : str) (s : str) : list str :=
  match s with
  | [] => match cur with [] => [] | _ => [rev cur] end
  | c :: s' =>
      if is_space c
      then match cur with
           | [] => split_ws_acc [] s'
           | _ => rev cur :: split_ws_acc [] s'
           end
      else split_ws_acc (c :: cur) s'
  end.

Definition split_ws (s : str) : list str := split_ws_acc [] s.

(** [s.replace(old, new)] for a non-empty [old]: occurrences are replaced
    left to right, without overlap. *)
Fixpoint replace_fuel (fuel : nat) (old new s : str) : str :=
  match fuel with
  | 0 => s
  | S fuel' =>
      match s with
      | [] => []
      | c :: s' =>
          if startswith old s
          then new ++ replace_fuel fuel' old new (skipn (length old) s)
          else c :: replace_fuel fuel' old new s'
      end
  end.

Definition replace (old new s : str) : str :=
  replace_fuel (S (length s)) old new s.

(** [sep.join(parts)] *)
Fixpoint join (sep : str) (parts : list str) : str :=
  match parts with
  | [] => []
  | [p] => p
  | p :: rest => p ++ sep ++ join sep rest
  end.

(** [s[a:b]] for [0 <= a], [0 <= b]. *)
Definition slice (a b : nat) (s : str) : str := firstn (b - a) (skipn a s).

Definition NL : ascii := ascii_of_N 10.

End Py.

(** ** Regular expressions as Python's [re] runs them

    [re] is a backtracking matcher: alternatives are tried left to right,
    greedy repetitions take as many iterations as they can before they give
    one back, lazy ones as few.  [rmatch] is that matcher in
    continuation-passing style; the first complete match it reaches is the
    match Python reports. *)

Module Re.
Import Py.

(** One member of a bracketed class.  Members are code points, so that a
    pattern may name a character outside the 8-bit range (it then matches
    no character of a text). *)
Inductive citem : Type :=
| CCh (n : N)                (* a single character *)
| CRg (lo hi : N)            (* a range lo-hi *)
| CSp                        (* \s *)
| CNSp                       (* \S *)
| CDg                        (* \d *)
| CWd.                       (* \w *)

Inductive regex : Type :=
| Eps
| Lit (c : ascii)                                  (* a literal character *)
| Cls (neg : bool) (items : list citem)            (* [...] and [^...] *)
| Dot                                              (* . *)
| Seq (a b : regex)
| Alt (a b : regex)                                (* a|b *)
| Rep (greedy : bool) (lo : nat) (hi : option nat) (r : regex)
| Grp (n : nat) (r : regex)                        (* capturing group n *)
| Ahead (r : regex)                                (* (?=r) *)
| Bol                                              (* ^ *)
| Eol                                              (* $ *)
| EndZ                                             (* \Z *)
| WordB.                                           (* \b *)

Record flags : Type := { IGNORECASE : bool; MULTILINE : bool; DOTALL : bool }.

Definition no_flags : flags :=
  {| IGNORECASE := false; MULTILINE := false; DOTALL := false |}.
Definition I_ : flags :=
  {| IGNORECASE := true; MULTILINE := false; DOTALL := false |}.
Definition S_I : flags :=
  {| IGNORECASE := true; MULTILINE := false; DOTALL := true |}.
Definition M_I : flags :=
  {| IGNORECASE := true; MULTILINE := true; DOTALL := false |}.

(** Lower case of a pattern code point; code points above the 8-bit range
    are taken as caseless (the only one the patterns use is the bullet). *)
Definition lowerN (n : N) : N :=
  if (n <? 256)%N then code (lower_char (ascii_of_N n)) else n.

(** A literal under IGNORECASE matches the characters with its lower case. *)
Definition lit_ok (fl : flags) (p c : ascii) : bool :=
  if IGNORECASE fl then eqc (lower_char p) (lower_char c) else eqc p c.

(** The code points lo, lo+1, ..., lo+len-1. *)
Fixpoint N_seq (lo : N) (len : nat) : list N :=
  match len with
  | 0 => []
  | S len' => lo :: N_seq (N.succ lo) len'
  end.

(** A class under IGNORECASE is the set of the lower cases of its members,
    and a character is tested by its lower case. *)
Definition item_ok (fl : flags) (c : ascii) (it : citem) : bool :=
  let x := if IGNORECASE fl then lower_char c else c in
  match it with
  | CCh n => if IGNORECASE fl then (lowerN n =? code x)%N else (n =? code x)%N
  | CRg lo hi =>
      if IGNORECASE fl
      then existsb (fun m => (lowerN m =? code x)%N)
                   (N_seq lo (N.to_nat (N.succ hi - lo)))
      else between lo hi (code x)
  | CSp => is_space x
  | CNSp => negb (is_space x)
  | CDg => is_digit x
  | CWd => is_word x
  end.

Definition cls_ok (fl : flags) (neg : bool) (items : list citem) (c : ascii)
  : bool :=
  xorb neg (existsb (item_ok fl c) items).

Definition dot_ok (fl : flags) (c : ascii) : bool :=
  DOTALL fl || negb (eqc c NL).

(** Matcher state: the position in the text and the spans of the groups
    that have matched so far (the most recent first). *)
Record mstate : Type := { pos : nat; caps : list (nat * (nat * nat)) }.

Definition advance (st : mstate) : mstate :=
  {| pos := S (pos st); caps := caps st |}.

Definition set_cap (n a b : nat) (st : mstate) : mstate :=
  {| pos := pos st; caps := (n, (a, b)) :: caps st |}.

Fixpoint get_cap (n : nat) (cs : list (nat * (nat * nat)))
  : option (nat * nat) :=
  match cs with
  | [] => None
  | (m, ab) :: cs' => if n =? m then Some ab else get_cap n cs'
  end.

Definition char_at (text : str) (i : nat) : option ascii := nth_error text i.

Definition prev_char (text : str) (i : nat) : option ascii :=
  match i with 0 => None | S j => nth_error text j end.

Definition is_word_opt (c : option ascii) : bool :=
  match c with Some x => is_word x | None => false end.

Definition at_bol (fl : flags) (text : str) (i : nat) : bool :=
  match prev_char text i with
  | None => true
  | Some c => MULTILINE fl && eqc c NL
  end.

Definition at_end (text : str) (i : nat) : bool := length text <=? i.

Definition at_eol (fl : flags) (text : str) (i : nat) : bool :=
  at_end text i
  || match char_at text i with
     | Some c => eqc c NL && (MULTILINE fl || at_end text (S i))
     | None => false
     end.

Definition at_wordb (text : str) (i : nat) : bool :=
  xorb (is_word_opt (prev_char text i)) (is_word_opt (char_at text i)).

Definition under (hi : option nat) (i : nat) : bool :=
  match hi with None => true | Some h => i <? h end.

Section Matcher.

Variable fl : flags.
Variable text : str.

Definition step_if (ok : ascii -> bool) (k : mstate -> option mstate)
  (st : mstate) : option mstate :=
  match char_at text (pos st) with
  | Some c => if ok c then k (advance st) else None
  | None => None
  end.

Definition guard (b : bool) (k : mstate -> option mstate) (st : mstate)
  : option mstate :=
  if b then k st else None.

(** The repetition loop of [r{lo,hi}], [i] iterations done, for the
    matcher [body] of [r]: a greedy loop tries one more iteration before it
    stops, a lazy one stops before it tries more.  An iteration past the
    mandatory ones must consume a character. *)
Fixpoint rep_loop (body : (mstate -> option mstate) -> mstate -> option mstate)
  (greedy : bool) (lo : nat) (hi : option nat) (k : mstate -> option mstate)
  (fuel i : nat) (st : mstate) {struct fuel} : option mstate :=
  match fuel with
  | 0 => None
  | S fuel' =>
      let more (_ : unit) :=
        if under hi i
        then body (fun st' =>
                     if (pos st <? pos st') || (i <? lo)
                     then rep_loop body greedy lo hi k fuel' (S i) st'
                     else None) st
        else None in
      let stop (_ : unit) := if lo <=? i then k st else None in
      if greedy
      then match more tt with Some res => Some res | None => stop tt end
      else match stop tt with Some res => Some res | None => more tt end
  end.

Fixpoint rmatch (r : regex) (k : mstate -> option mstate) (st : mstate)
  {struct r} : option mstate :=
  match r with
  | Eps => k st
  | Lit p => step_if (lit_ok fl p) k st
  | Cls neg items => step_if (cls_ok fl neg items) k st
  | Dot => step_if (dot_ok fl) k st
  | Seq a b => rmatch a (rmatch b k) st
  | Alt a b =>
      match rmatch a k st with
      | Some res => Some res
      | None => rmatch b k st
      end
  | Rep greedy lo hi r' =>
      rep_loop (rmatch r') greedy lo hi k
        (S (length text - pos st) + lo) 0 st
  | Grp n r' => rmatch r' (fun st' => k (set_cap n (pos st) (pos st') st')) st
  | Ahead r' =>
      match rmatch r' Some st with
      | Some st' => k {| pos := pos st; caps := caps st' |}
      | None => None
      end
  | Bol => guard (at_bol fl text (pos st)) k st
  | Eol => guard (at_eol fl text (pos st)) k st
  | EndZ => guard (at_end text (pos st)) k st
  | WordB => guard (at_wordb text (pos st)) k st
  end.

(** A match object: the span of the whole match and the group spans. *)
Record rmatch_obj : Type :=
  { m_start : nat; m_end : nat; m_caps : list (nat * (nat * nat)) }.

Definition match_at (r : regex) (start : nat) : option rmatch_obj :=
  match rmatch r Some {| pos := start; caps := [] |} with
  | Some st => Some {| m_start := start; m_end := pos st; m_caps := caps st |}
  | None => None
  end.

(** Try the start positions [start], [start+1], ... in turn, [n] of them. *)
Fixpoint search_from (r : regex) (n start : nat) : option rmatch_obj :=
  match n with
  | 0 => None
  | S n' =>
      match match_at r start with
      | Some m => Some m
      | None => search_from r n' (S start)
      end
  end.

(** The leftmost match starting at or after [start]. *)
Definition search_at (r : regex) (start : nat) : option rmatch_obj :=
  search_from r (S (length text) - start) start.

(** [m.group(0)] *)
Definition group0 (m : rmatch_obj) : str := slice (m_start m) (m_end m) text.

(** [m.group(n)], [None] when the group took no part in the match. *)
Definition group_opt (n : nat) (m : rmatch_obj) : option str :=
  match get_cap n (m_caps m) with
  | Some (a, b) => Some (slice a b text)
  | None => None
  end.

(** The group as [re.findall] reports it: empty when it took no part. *)
Definition group (n : nat) (m : rmatch_obj) : str :=
  match group_opt n m with Some s => s | None => [] end.

(** The successive non-overlapping matches, left to right.  After an
    empty match the scan resumes one character further. *)
Fixpoint finditer_from (r : regex) (fuel start : nat) : list rmatch_obj :=
  match fuel with
  | 0 => []
  | S fuel' =>
      match search_at r start with
      | None => []
      | Some m =>
          m :: finditer_from r fuel'
                 (if m_end m =? m_start m then S (m_end m) else m_end m)
      end
  end.

End Matcher.

(** [re.search(r, text, flags)] *)
Definition search (fl : flags) (r : regex) (text : str) : option rmatch_obj :=
  search_at fl text r 0.

(** [re.finditer(r, text, flags)] *)
Definition finditer (fl : flags) (r : regex) (text : str) : list rmatch_obj :=
  finditer_from fl text r (S (length text)) 0.

(** [re.split(r, text, flags=...)] for a pattern without groups: the pieces
    of the text between the successive matches. *)
Fixpoint pieces (text : str) (from : nat) (ms : list rmatch_obj) : list str :=
  match ms with
  | [] => [skipn from text]
  | m :: ms' => slice from (m_start m) text :: pieces text (m_end m) ms'
  end.

Definition re_split (fl : flags) (r : regex) (text : str) : list str :=
  pieces text 0 (finditer fl r text).

(** [re.sub(r, repl, text)] for a replacement without group references. *)
Fixpoint subst (text repl : str) (from : nat) (ms : list rmatch_obj) : str :=
  match ms with
  | [] => skipn from text
  | m :: ms' =>
      slice from (m_start m) text ++ repl ++ subst text repl (m_end m) ms'
  end.

Definition sub (fl : flags) (r : regex) (repl text : str) : str :=
  subst text repl 0 (finditer fl r text).

(** *** What a match is

    The matcher's answers are matches in the following sense: [sem fl text
    r st st'] says that [r] can take the matcher from the state [st] to the
    state [st'] on [text].  The relation forgets the order in which the
    alternatives are tried. *)

(** The iterations of a repetition, from the [i]-th on. *)
Inductive iter (R : mstate -> mstate -> Prop) (lo : nat) (hi : option nat)
  : nat -> mstate -> mstate -> Prop :=
| iter_stop (i : nat) (st : mstate) :
    lo <= i -> iter R lo hi i st st
| iter_more (i : nat) (st st1 st2 : mstate) :
    under hi i = true ->
    R st st1 ->
    pos st < pos st1 \/ i < lo ->
    iter R lo hi (S i) st1 st2 ->
    iter R lo hi i st st2.

Definition takes (text : str) (ok : ascii -> bool) (st st' : mstate) : Prop :=
  exists c, char_at text (pos st) = Some c /\ ok c = true /\ st' = advance st.

Definition holds (b : bool) (st st' : mstate) : Prop := b = true /\ st' = st.

Fixpoint sem (fl : flags) (text : str) (r : regex) (st st' : mstate) : Prop :=
  match r with
  | Eps => st' = st
  | Lit p => takes text (lit_ok fl p) st st'
  | Cls neg items => takes text (cls_ok fl neg items) st st'
  | Dot => takes text (dot_ok fl) st st'
  | Seq a b => exists st1, sem fl text a st st1 /\ sem fl text b st1 st'
  | Alt a b => sem fl text a st st' \/ sem fl text b st st'
  | Rep _ lo hi r' => iter (sem fl text r') lo hi 0 st st'
  | Grp n r' =>
      exists st1, sem fl text r' st st1
                  /\ st' = set_cap n (pos st) (pos st1) st1
  | Ahead r' =>
      exists st1, sem fl text r' st st1
                  /\ st' = {| pos := pos st; caps := caps st1 |}
  | Bol => holds (at_bol fl text (pos st)) st st'
  | Eol => holds (at_eol fl text (pos st)) st st'
  | EndZ => holds (at_end text (pos st)) st st'
  | WordB => holds (at_wordb text (pos st)) st st'
  end.

(** [r] matches [text] from [a] to [b] with the group spans [cs]. *)
Definition matches (fl : flags) (text : str) (r : regex) (a b : nat)
  (cs : list (nat * (nat * nat))) : Prop :=
  sem fl text r {| pos := a; caps := [] |} {| pos := b; caps := cs |}.

(** A step of a match goes forward and stays within the text. *)
Definition forward (text : str) (st st' : mstate) : Prop :=
  pos st <= pos st' /\ (pos st <= length text -> pos st' <= length text).

(** A matcher in continuation-passing style answers only through steps
    of the relation [R]. *)
Definition sound_body
  (body : (mstate -> option mstate) -> mstate -> option mstate)
  (R : mstate -> mstate -> Prop) : Prop :=
  forall k st res, body k st = Some res ->
                   exists st', R st st' /\ k st' = Some res.

(** The character at position [i] is not white space. *)
Definition nonspace_at (text : str) (i : nat) : Prop :=
  exists x, char_at text i = Some x /\ is_space x = false.

(** The matcher with [extra] units of fuel added to every repetition
    loop: a loop that gives up in [rmatch] for want of fuel would go on
    here. *)
Fixpoint rmatch_more (fl : flags) (text : str) (extra : nat) (r : regex)
  (k : mstate -> option mstate) (st : mstate) {struct r} : option mstate :=
  match r with
  | Eps => k st
  | Lit p => step_if text (lit_ok fl p) k st
  | Cls neg items => step_if text (cls_ok fl neg items) k st
  | Dot => step_if text (dot_ok fl) k st
  | Seq a b => rmatch_more fl text extra a (rmatch_more fl text extra b k) st
  | Alt a b =>
      match rmatch_more fl text extra a k st with
      | Some res => Some res
      | None => rmatch_more fl text extra b k st
      end
  | Rep greedy lo hi r' =>
      rep_loop (rmatch_more fl text extra r') greedy lo hi k
        (S (length text - pos st) + lo + extra) 0 st
  | Grp n r' =>
      rmatch_more fl text extra r'
        (fun st' => k (set_cap n (pos st) (pos st') st')) st
  | Ahead r' =>
      match rmatch_more fl text extra r' Some st with
      | Some st' => k {| pos := pos st; caps := caps st' |}
      | None => None
      end
  | Bol => guard (at_bol fl text (pos st)) k st
  | Eol => guard (at_eol fl text (pos st)) k st
  | EndZ => guard (at_end text (pos st)) k st
  | WordB => guard (at_wordb text (pos st)) k st
  end.

(** The states a matcher started in [st] can hand to its continuation:
    not before [st], and within the text unless [st] itself is outside. *)
Definition reach (text : str) (st st' : mstate) : Prop :=
  pos st <= pos st' /\ pos st' <= Nat.max (pos st) (length text).

(** Two continuations agree on the states within reach of [st]. *)
Definition agree (text : str) (st : mstate)
  (ka kb : mstate -> option mstate) : Prop :=
  forall st', reach text st st' -> ka st' = kb st'.

(** The pattern has no capturing group. *)
Fixpoint nocap (r : regex) : bool :=
  match r with
  | Seq a b | Alt a b => nocap a && nocap b
  | Rep _ _ _ r' | Ahead r' => nocap r'
  | Grp _ _ => false
  | _ => true
  end.

(** *** Pattern syntax *)

(** A run of literal characters. *)
Fixpoint lits (s : str) : regex :=
  match s with
  | [] => Eps
  | [c] => Lit c
  | c :: s' => Seq (Lit c) (lits s')
  end.

Definition word (s : string) : regex := lits (s2l s).

Fixpoint seqs (rs : list regex) : regex :=
  match rs with
  | [] => Eps
  | [r] => r
  | r :: rs' => Seq r (seqs rs')
  end.

Fixpoint alts (rs : list regex) : regex :=
  match rs with
  | [] => Cls false []
  | [r] => r
  | r :: rs' => Alt r (alts rs')
  end.

Definition star (r : regex) : regex := Rep true 0 None r.       (* r*  *)
Definition plus (r : regex) : regex := Rep true 1 None r.       (* r+  *)
Definition opt (r : regex) : regex := Rep true 0 (Some 1) r.    (* r?  *)
Definition lazy_star (r : regex) : regex := Rep false 0 None r. (* r*? *)
Definition times (lo hi : nat) (r : regex) : regex :=
  Rep true lo (Some hi) r.                                      (* r{lo,hi} *)
Definition at_least (lo : nat) (r : regex) : regex :=
  Rep true lo None r.                                           (* r{lo,} *)

Definition ch (s : string) : N :=
  match s with
  | String c _ => code c
  | EmptyString => 0%N
  end.

Definition rg (a b : string) : citem := CRg (ch a) (ch b).
Definition one (a : string) : citem := CCh (ch a).

Definition space : regex := Cls false [CSp].                     (* \s *)
Definition nonspace : regex := Cls false [CNSp].                  (* \S *)
Definition digit : regex := Cls false [CDg].                     (* \d *)
Definition wordc : regex := Cls false [CWd].                     (* \w *)
Definition newline : regex := Lit NL.                            (* \n *)

(** *** Patterns as they are written

    [parse_re] reads the text of a pattern, as it stands between the quotes
    of a raw string literal, in the syntax of [re]: alternation, groups
    (capturing ones are numbered by their opening parenthesis, "(?:" groups
    are not, "(?=" is a lookahead), bracketed classes, the escapes for the
    classes, the newline, the word boundary and the end of the string, and
    the quantifiers with their lazy forms.  A character outside the ASCII
    range is read from its UTF-8 bytes. *)

Definition byte (c : ascii) : N := code c.

(** The next character of the pattern as a code point. *)
Definition take_char (inp : str) : option (N * str) :=
  match inp with
  | [] => None
  | c :: rest =>
      if (byte c <? 128)%N then Some (byte c, rest)
      else if (byte c <? 224)%N then
        match rest with
        | c2 :: rest' =>
            Some ((byte c - 192) * 64 + (byte c2 - 128), rest')%N
        | _ => None
        end
      else
        match rest with
        | c2 :: c3 :: rest' =>
            Some ((byte c - 224) * 4096 + (byte c2 - 128) * 64
                  + (byte c3 - 128), rest')%N
        | _ => None
        end
  end.

(** A literal character of a pattern. *)
Definition lit_of (n : N) : regex :=
  if (n <? 256)%N then Lit (ascii_of_N n) else Cls false [CCh n].

(** The item of a class that an escape stands for. *)
Definition escape_item (n : N) : citem :=
  if (n =? ch "s")%N then CSp
  else if (n =? ch "S")%N then CNSp
  else if (n =? ch "d")%N then CDg
  else if (n =? ch "w")%N then CWd
  else if (n =? ch "n")%N then CCh 10
  else CCh n.

(** The pattern that an escape stands for outside a class. *)
Definition escape_atom (n : N) : regex :=
  if (n =? ch "b")%N then WordB
  else if (n =? ch "Z")%N then EndZ
  else if (n =? ch "n")%N then Lit NL
  else match escape_item n with
       | CCh m => lit_of m
       | it => Cls false [it]
       end.

(** The items of a class, up to the closing bracket. *)
Fixpoint class_items (fuel : nat) (inp : str) : option (list citem * str) :=
  match fuel with
  | 0 => None
  | S fuel' =>
      match inp with
      | [] => None
      | c :: rest =>
          if eqc c "]" then Some ([], rest)
          else
            let first :=
              if eqc c "\" then
                match take_char rest with
                | Some (n, rest') => Some (escape_item n, rest')
                | None => None
                end
              else
                match take_char inp with
                | Some (n, rest') => Some (CCh n, rest')
                | None => None
                end in
            match first with
            | None => None
            | Some (it, rest') =>
                (* a range, when a hyphen and a character other than the
                   closing bracket follow a plain character *)
                let ranged :=
                  match it, rest' with
                  | CCh lo, h :: (c2 :: _) as after =>
                      if eqc h "-" && negb (eqc c2 "]") then
                        match take_char after with
                        | Some (hi, rest2) => Some (CRg lo hi, rest2)
                        | None => None
                        end
                      else None
                  | _, _ => None
                  end in
                let (it', rest2) :=
                  match ranged with
                  | Some p => p
                  | None => (it, rest')
                  end in
                match class_items fuel' rest2 with
                | Some (its, rest3) => Some (it' :: its, rest3)
                | None => None
                end
            end
      end
  end.

(** A decimal number at the head of the input. *)
Fixpoint number (acc : nat) (seen : bool) (inp : str) : option (nat * str) :=
  match inp with
  | c :: rest =>
      if is_digit c
      then number (10 * acc + (nat_of_ascii c - 48)) true rest
      else if seen then Some (acc, inp) else None
  | [] => if seen then Some (acc, inp) else None
  end.

(** The bounds of a quantifier at the head of the input, if there is one. *)
Definition bounds (inp : str) : option (nat * option nat * str) :=
  match inp with
  | c :: rest =>
      if eqc c "*" then Some (0, None, rest)
      else if eqc c "+" then Some (1, None, rest)
      else if eqc c "?" then Some (0, Some 1, rest)
      else if eqc c "{" then
        match number 0 false rest with
        | Some (lo, c2 :: rest2) =>
            if eqc c2 "}" then Some (lo, Some lo, rest2)
            else if eqc c2 "," then
              match rest2 with
              | c3 :: rest3 =>
                  if eqc c3 "}" then Some (lo, None, rest3)
                  else match number 0 false rest2 with
                       | Some (hi, c4 :: rest4) =>
                           if eqc c4 "}" then Some (lo, Some hi, rest4)
                           else None
                       | _ => None
                       end
              | [] => None
              end
            else None
        | _ => None
        end
      else None
  | [] => None
  end.

(** An atom with the quantifier that follows it, if any; a question mark
    after the quantifier makes it lazy. *)
Definition quantified (a : regex) (inp : str) : regex * str :=
  match bounds inp with
  | Some (lo, hi, rest) =>
      match rest with
      | c :: rest' =>
          if eqc c "?" then (Rep false lo hi a, rest')
          else (Rep true lo hi a, rest)
      | [] => (Rep true lo hi a, rest)
      end
  | None => (a, inp)
  end.

Definition mkseq (a r : regex) : regex :=
  match r with Eps => a | _ => Seq a r end.

(** The parser: alternatives, sequences, atoms.  [g] is the number of
    capturing groups opened so far. *)
Fixpoint parse_alt (fuel : nat) (inp : str) (g : nat)
  : option (regex * str * nat) :=
  match fuel with
  | 0 => None
  | S fuel' =>
      match parse_seq fuel' inp g with
      | Some (r, rest, g') =>
          match rest with
          | c :: rest' =>
              if eqc c "|" then
                match parse_alt fuel' rest' g' with
                | Some (r2, rest2, g2) => Some (Alt r r2, rest2, g2)
                | None => None
                end
              else Some (r, rest, g')
          | [] => Some (r, rest, g')
          end
      | None => None
      end
  end
with parse_seq (fuel : nat) (inp : str) (g : nat)
  : option (regex * str * nat) :=
  match fuel with
  | 0 => None
  | S fuel' =>
      match inp with
      | [] => Some (Eps, inp, g)
      | c :: _ =>
          if eqc c ")" || eqc c "|" then Some (Eps, inp, g)
          else
            match parse_atom fuel' inp g with
            | Some (a, rest, g') =>
                let (a', rest') := quantified a rest in
                match parse_seq fuel' rest' g' with
                | Some (r, rest2, g2) => Some (mkseq a' r, rest2, g2)
                | None => None
                end
            | None => None
            end
      end
  end
with parse_atom (fuel : nat) (inp : str) (g : nat)
  : option (regex * str * nat) :=
  match fuel with
  | 0 => None
  | S fuel' =>
      let closed (wrap : regex -> regex) (body : str) (g0 : nat) :=
        match parse_alt fuel' body g0 with
        | Some (r, c :: rest, g') =>
            if eqc c ")" then Some (wrap r, rest, g') else None
        | _ => None
        end in
      match inp with
      | [] => None
      | c :: rest =>
          if eqc c "(" then
            match rest with
            | q :: k :: body =>
                if eqc q "?" && eqc k ":" then closed (fun r => r) body g
                else if eqc q "?" && eqc k "=" then closed Ahead body g
                else closed (Grp (S g)) rest (S g)
            | _ => closed (Grp (S g)) rest (S g)
            end
          else if eqc c "[" then
            match rest with
            | n :: rest' =>
                if eqc n "^" then
                  match class_items (S (length rest')) rest' with
                  | Some (its, rest2) => Some (Cls true its, rest2, g)
                  | None => None
                  end
                else
                  match class_items (S (length rest)) rest with
                  | Some (its, rest2) => Some (Cls false its, rest2, g)
                  | None => None
                  end
            | [] => None
            end
          else if eqc c "\" then
            match take_char rest with
            | Some (n, rest') => Some (escape_atom n, rest', g)
            | None => None
            end
          else if eqc c "." then Some (Dot, rest, g)
          else if eqc c "^" then Some (Bol, rest, g)
          else if eqc c "$" then Some (Eol, rest, g)
          else
            match take_char inp with
            | Some (n, rest') => Some (lit_of n, rest', g)
            | None => None
            end
      end
  end.

(** The pattern of a source text, when the whole text is one. *)
Definition parse_re (src : string) : option regex :=
  match parse_alt (4 * String.length src + 4) (s2l src) 0 with
  | Some (r, [], _) => Some r
  | _ => None
  end.

(** Sequences nested to the right: the form in which the parser gives
    them. *)
Fixpoint app_seq (a b : regex) : regex :=
  match a with
  | Seq x y => Seq x (app_seq y b)
  | Eps => b
  | _ => Seq a b
  end.

Fixpoint flat (r : regex) : regex :=
  match r with
  | Seq a b => app_seq (flat a) (flat b)
  | Alt a b => Alt (flat a) (flat b)
  | Rep greedy lo hi r' => Rep greedy lo hi (flat r')
  | Grp n r' => Grp n (flat r')
  | Ahead r' => Ahead (flat r')
  | _ => r
  end.

(** [r] is the pattern written [src], up to the nesting of sequences. *)
Definition written (src : string) (r : regex) : Prop :=
  option_map flat (parse_re src) = Some (flat r).

End Re.

(** ** The module [core/information_parser.py] *)

Import Py Re.

(** *** Patterns for contact information *)

(** r"[a-zA-Z0-9._%+-]+@[a-zA-Z0-9.-]+\.[a-zA-Z]{2,}" *)
Definition EMAIL_REGEX : regex :=
  seqs [ plus (Cls false [rg "a" "z"; rg "A" "Z"; rg "0" "9"; one ".";
                          one "_"; one "%"; one "+"; one "-"]);
         word "@";
         plus (Cls false [rg "a" "z"; rg "A" "Z"; rg "0" "9"; one ".";
                          one "-"]);
         word ".";
         at_least 2 (Cls false [rg "a" "z"; rg "A" "Z"]) ].

(** r"(\(?\d{3}\)?[-\s]?\d{3}[-\s]?\d{4})" *)
Definition PHONE_REGEX : regex :=
  Grp 1 (seqs [ opt (word "("); times 3 3 digit; opt (word ")");
                opt (Cls false [one "-"; CSp]); times 3 3 digit;
                opt (Cls false [one "-"; CSp]); times 4 4 digit ]).

(** r"(linkedin\.com/in/[a-zA-Z0-9_-]+)" *)
Definition LINKEDIN_REGEX : regex :=
  Grp 1 (seqs [ word "linkedin.com/in/";
                plus (Cls false [rg "a" "z"; rg "A" "Z"; rg "0" "9";
                                 one "_"; one "-"]) ]).

(** r"(github\.com/[a-zA-Z0-9_-]+)" *)
Definition GITHUB_REGEX : regex :=
  Grp 1 (seqs [ word "github.com/";
                plus (Cls false [rg "a" "z"; rg "A" "Z"; rg "0" "9";
                                 one "_"; one "-"]) ]).

(** The parts of WEBSITE_REGEX: "https?://", a label "[a-zA-Z0-9-]+\.",
    the final "[a-zA-Z]{2,6}" and the optional path, a slash and r"\S*". *)
Definition URL_SCHEME : regex := seqs [word "http"; opt (word "s"); word "://"].

Definition URL_LABEL : regex :=
  seqs [ plus (Cls false [rg "a" "z"; rg "A" "Z"; rg "0" "9"; one "-"]);
         word "." ].

Definition URL_TLD : regex := times 2 6 (Cls false [rg "a" "z"; rg "A" "Z"]).

Definition URL_PATH : regex := opt (seqs [word "/"; star nonspace]).

(** WEBSITE_REGEX: the optional scheme is group 1, the optional "www\."
    group 2, and the label, one or more times, group 3. *)
Definition WEBSITE_REGEX : regex :=
  seqs [ opt (Grp 1 URL_SCHEME); opt (Grp 2 (word "www."));
         plus (Grp 3 URL_LABEL); URL_TLD; URL_PATH ].

(** The [contact] dictionary: keys in insertion order, one value per key. *)
Definition dict (V : Type) : Type := list (string * V).

Fixpoint dict_get {V : Type} (k : string) (d : dict V) : option V :=
  match d with
  | [] => None
  | (k', v) :: d' => if String.eqb k k' then Some v else dict_get k d'
  end.

(** [d[k] = v]: an existing key keeps its place, a new key goes last. *)
Fixpoint dict_set {V : Type} (k : string) (v : V) (d : dict V) : dict V :=
  match d with
  | [] => [(k, v)]
  | (k', v') :: d' =>
      if String.eqb k k' then (k, v) :: d' else (k', v') :: dict_set k v d'
  end.

(** The loop over [website_matches]: the first candidate that passes the
    exclusions becomes the Website and ends the loop. *)
Fixpoint website_loop (website_matches : list (str * str * str))
  (contact : dict str) : dict str :=
  match website_matches with
  | [] => contact
  | (g1, g2, g3) :: rest =>
      let full_url := strip (g1 ++ g2 ++ g3) in
      if negb (eqs full_url [])
         && negb (contains (s2l "linkedin.com") (lower full_url))
         && negb (contains (s2l "github.com") (lower full_url))
         && negb (contains (s2l "@gmail.com") (lower full_url))
         && negb (contains (s2l "@email.com") (lower full_url))
      then dict_set "Website" full_url contact
      else website_loop rest contact
  end.

Definition extract_contact_info (text : str) : dict str :=
  let contact := [] in
  let emails := map (group0 text) (finditer no_flags EMAIL_REGEX text) in
  let contact :=
    match emails with
    | e :: _ => dict_set "Email" (strip e) contact
    | [] => contact
    end in
  let phones := map (group text 1) (finditer no_flags PHONE_REGEX text) in
  let contact :=
    match phones with
    | p :: _ => dict_set "Mobile" (strip p) contact
    | [] => contact
    end in
  let contact :=
    match search I_ LINKEDIN_REGEX text with
    | Some m => dict_set "LinkedIn" (strip (group0 text m)) contact
    | None => contact
    end in
  let contact :=
    match search I_ GITHUB_REGEX text with
    | Some m => dict_set "GitHub" (strip (group0 text m)) contact
    | None => contact
    end in
  let website_matches :=
    map (fun m => (group text 1 m, group text 2 m, group text 3 m))
        (finditer I_ WEBSITE_REGEX text) in
  website_loop website_matches contact.


(** *** Dates: [datetime.strptime] and [strftime] *)

Record datetime : Type := { year : N; month : N; day : N }.

Definition is_leap (y : N) : bool :=
  (((y mod 4 =? 0) && negb (y mod 100 =? 0)) || (y mod 400 =? 0))%N.

Definition days_in_month (y m : N) : N :=
  match m with
  | 2 => if is_leap y then 29 else 28
  | 4 | 6 | 9 | 11 => 30
  | _ => 31
  end%N.

(** The check the [datetime] constructor makes (ValueError otherwise). *)
Definition valid_date (d : datetime) : bool :=
  ((1 <=? year d) && (year d <=? 9999)
   && (1 <=? month d) && (month d <=? 12)
   && (1 <=? day d) && (day d <=? days_in_month (year d) (month d)))%N.

Definition digit_char (n : N) : ascii := ascii_of_N (48 + n mod 10).

Definition digits2 (n : N) : str := [digit_char (n / 10); digit_char n].

Definition digits4 (n : N) : str :=
  [digit_char (n / 1000); digit_char (n / 100); digit_char (n / 10);
   digit_char n].

(** [dt.strftime("%Y")]: the year in four digits (a C library may leave
    out the leading zeros of a year below 1000; no statement below is about
    such a year). *)
Definition strftime_Y (d : datetime) : str := digits4 (year d).

(** [dt.strftime("%Y-%m-%d")] *)
Definition strftime_Ymd (d : datetime) : str :=
  digits4 (year d) ++ s2l "-" ++ digits2 (month d) ++ s2l "-"
  ++ digits2 (day d).

(** [int(s)] for a string of decimal digits. *)
Definition int_of (s : str) : N :=
  fold_left (fun acc c => 10 * acc + (code c - 48))%N s 0%N.

(** The directives of the formats [parse_date_range] uses. *)
Inductive directive : Type :=
| D_B            (* %B, full month name *)
| D_b            (* %b, abbreviated month name *)
| D_Y            (* %Y *)
| D_m            (* %m *)
| D_d            (* %d *)
| D_space        (* white space in the format *)
| D_lit (c : string).

Definition month_names : list string :=
  ["january"; "february"; "march"; "april"; "may"; "june"; "july";
   "august"; "september"; "october"; "november"; "december"].

Definition month_abbrs : list string :=
  ["jan"; "feb"; "mar"; "apr"; "may"; "jun"; "jul"; "aug"; "sep"; "oct";
   "nov"; "dec"].

(** [strptime] turns a format into a regular expression, one group per
    directive (B: 1, b: 2, Y: 3, m: 4, d: 5); the names of a month
    alternation are ordered longest first. *)
Definition directive_regex (d : directive) : regex :=
  match d with
  | D_B => Grp 1 (alts (map word
             ["september"; "february"; "november"; "december"; "january";
              "october"; "august"; "march"; "april"; "june"; "july"; "may"]))
  | D_b => Grp 2 (alts (map word month_abbrs))
  | D_Y => Grp 3 (seqs [digit; digit; digit; digit])
  | D_m => Grp 4 (alts [ Seq (word "1") (Cls false [rg "0" "2"]);
                         Seq (word "0") (Cls false [rg "1" "9"]);
                         Cls false [rg "1" "9"] ])
  | D_d => Grp 5 (alts [ Seq (word "3") (Cls false [rg "0" "1"]);
                         Seq (Cls false [rg "1" "2"]) digit;
                         Seq (word "0") (Cls false [rg "1" "9"]);
                         Cls false [rg "1" "9"];
                         Seq (word " ") (Cls false [rg "1" "9"]) ])
  | D_space => plus space
  | D_lit c => word c
  end.

Definition format_regex (fmt : list directive) : regex :=
  seqs (map directive_regex fmt).

Fixpoint index_of (s : str) (names : list string) (i : N) : option N :=
  match names with
  | [] => None
  | n :: names' => if eqs s (s2l n) then Some i else index_of s names' (N.succ i)
  end.

(** [datetime.strptime(d_str, fmt)]; [None] stands for ValueError: the
    format does not match at the start of the string, or data remains
    after the match, or the fields do not make a date. *)
Definition strptime (d_str : str) (fmt : list directive) : option datetime :=
  match match_at I_ d_str (format_regex fmt) 0 with
  | None => None
  | Some m =>
      if negb (m_end m =? length d_str) then None
      else
        let y := match group_opt d_str 3 m with
                 | Some s => int_of s
                 | None => 1900%N
                 end in
        let mo :=
          match group_opt d_str 1 m, group_opt d_str 2 m,
                group_opt d_str 4 m with
          | Some s, _, _ =>
              match index_of (lower s) month_names 1 with
              | Some i => i | None => 1%N end
          | None, Some s, _ =>
              match index_of (lower s) month_abbrs 1 with
              | Some i => i | None => 1%N end
          | None, None, Some s => int_of (strip s)
          | None, None, None => 1%N
          end in
        let d := match group_opt d_str 5 m with
                 | Some s => int_of (strip s)
                 | None => 1%N
                 end in
        let dt := {| year := y; month := mo; day := d |} in
        if valid_date dt then Some dt else None
  end.

(** *** Date parsing helper *)

(** ["%B %Y", "%b %Y", "%Y-%m-%d", "%Y/%m/%d", "%m/%d/%Y", "%Y"] *)
Definition patterns : list (list directive) :=
  [ [D_B; D_space; D_Y];
    [D_b; D_space; D_Y];
    [D_Y; D_lit "-"; D_m; D_lit "-"; D_d];
    [D_Y; D_lit "/"; D_m; D_lit "/"; D_d];
    [D_m; D_lit "/"; D_d; D_lit "/"; D_Y];
    [D_Y] ].

(** The loop of [_parse_single_date] over the remaining patterns. *)
Fixpoint parse_single_loop (d_str : str) (ps : list (list directive)) : str :=
  match ps with
  | [] => d_str
  | pattern :: ps' =>
      match strptime d_str pattern with
      | Some dt_obj =>
          if length d_str =? 4 then strftime_Y dt_obj
          else strftime_Ymd dt_obj
      | None => parse_single_loop d_str ps'
      end
  end.

Definition _parse_single_date (d_str : str) : str :=
  parse_single_loop d_str patterns.

(** A character of the string [parse_date_range] is given: one of the
    8-bit characters, or the en dash U+2013 that its first line replaces,
    which lies beyond them. *)
Inductive date_char : Type :=
| DChar (c : ascii)
| EnDash.

(** A date string of 8-bit characters. *)
Definition dstr (s : string) : list date_char := map DChar (s2l s).

(** [date_str.replace(en dash, '-')] *)
Definition replace_en_dash (date_str : list date_char) : str :=
  map (fun d => match d with DChar c => c | EnDash => "-"%char end) date_str.

(** [parse_date_range]; [now] is the value of [datetime.now()]. *)
Definition parse_date_range (now : datetime) (date_str : list date_char)
  : str * str :=
  let date_str := strip (replace_en_dash date_str) in
  let current_date_formatted := strftime_Ymd now in
  let date_str :=
    if contains (s2l "Present") date_str
    then replace (s2l "Present") current_date_formatted date_str
    else date_str in
  let parts := split "-" date_str in
  let start_date := strip (nth 0 parts []) in
  let end_date :=
    if 1 <? length parts then strip (nth 1 parts [])
    else current_date_formatted in
  (_parse_single_date start_date, _parse_single_date end_date).

(** A year written in four digits comes back from [_parse_single_date]
    as it is. *)
Definition year_parses (y : N) : bool :=
  eqs (_parse_single_date (digits4 y)) (digits4 y).

(** *** Skill categories *)

Definition SKILL_CATEGORIES : dict (list str) :=
  [ ("Web Technologies", []);
    ("Web Frameworks", []);
    ("Databases", []);
    ("Version Control System", []);
    ("Project Management and Issue Tracking Tool", []);
    ("Testing Tools", []);
    ("Web Services", []);
    ("Web Servers", []);
    ("Other Technologies", []);
    ("DevOps Practices", []) ].

Definition keys {V : Type} (d : dict V) : list string := map fst d.

(** [[line.strip() for line in text.split('\n') if line.strip()]] *)
Definition stripped_lines (text : str) : list str :=
  map strip (filter (fun line => negb (eqs (strip line) [])) (split NL text)).

(** The inner [for ... break] of [parse_skills]: the first category whose
    name equals the line, case-insensitively. *)
Fixpoint find_category (line : str) (names : list string) : option string :=
  match names with
  | [] => None
  | category_name :: names' =>
      if eqs (lower line) (lower (s2l category_name))
      then Some category_name
      else find_category line names'
  end.

(** r"[,\;]+" *)
Definition SKILL_DELIMS : regex := plus (Cls false [one ","; one ";"]).

(** [categorized_skills[current_category].append(skill)]; the key is
    there whenever the cursor is set. *)
Definition dict_append (k : string) (v : str) (d : dict (list str))
  : dict (list str) :=
  match dict_get k d with
  | Some l => dict_set k (l ++ [v]) d
  | None => d
  end.

(** The loop over the skills of one line.  Both branches of the source's
    test on "Angular 8 10 12" append the cleaned skill itself. *)
Fixpoint skills_loop (current_category : string) (skills_on_line : list str)
  (categorized_skills : dict (list str)) : dict (list str) :=
  match skills_on_line with
  | [] => categorized_skills
  | skill :: rest =>
      let skill_cleaned := strip skill in
      if negb (eqs skill_cleaned [])
      then skills_loop current_category rest
             (if eqs skill_cleaned (s2l "Angular 8 10 12")
              then dict_append current_category (s2l "Angular 8 10 12")
                     categorized_skills
              else dict_append current_category skill_cleaned
                     categorized_skills)
      else skills_loop current_category rest categorized_skills
  end.

(** One turn of the loop over the lines; the state is the dictionary and
    the category cursor. *)
Definition skills_step (state : dict (list str) * option string) (line : str)
  : dict (list str) * option string :=
  let (categorized_skills, current_category) := state in
  match find_category line (keys SKILL_CATEGORIES) with
  | Some category_name =>
      (dict_set category_name [] categorized_skills, Some category_name)
  | None =>
      match current_category with
      | Some c =>
          (skills_loop c (re_split no_flags SKILL_DELIMS line)
             categorized_skills, current_category)
      | None => state
      end
  end.

Definition parse_skills_lines (lines : list str)
  (state : dict (list str) * option string) : dict (list str) * option string :=
  fold_left skills_step lines state.

Definition parse_skills (skills_text : str) : dict (list str) :=
  fst (parse_skills_lines (stripped_lines skills_text) ([], None)).

(** *** Experience *)

(** The values of an entry dictionary: a string or a list of strings. *)
Inductive value : Type :=
| VStr (s : str)
| VList (l : list str).

(** r"\nClient\n" *)
Definition JOB_SPLIT : regex := seqs [newline; word "Client"; newline].

(** r"Client\s*\n\s*(.*?)\nTitle\s*\n\s*(.*?)\nDuration\s*\n\s*(.*?)\n" *)
Definition CLIENT_REGEX : regex :=
  seqs [ word "Client"; star space; newline; star space;
         Grp 1 (lazy_star Dot); newline;
         word "Title"; star space; newline; star space;
         Grp 2 (lazy_star Dot); newline;
         word "Duration"; star space; newline; star space;
         Grp 3 (lazy_star Dot); newline ].

(** r"([A-Za-z\s,]+(?:TX|WI|IL|MA|WA|MD|CA)\b)" *)
Definition CITY_STATE : regex :=
  Grp 1 (seqs [ plus (Cls false [rg "A" "Z"; rg "a" "z"; CSp; one ","]);
                alts (map word ["TX"; "WI"; "IL"; "MA"; "WA"; "MD"; "CA"]);
                WordB ]).

(** r",\s*" followed by the city and state group *)
Definition LOCATION_REGEX : regex := seqs [word ","; star space; CITY_STATE].

(** The fallback pattern: the Description line of one employer (its final
    full stop is an unescaped dot), the Responsibilities marker, then
    lazily up to "Environment:" and on to a comma, city and state. *)
Definition LOCATION_FALLBACK_REGEX : regex :=
  seqs [ newline; word "Description:"; star space;
         word "The Charles Schwab Corporation is an American multinational financial services company";
         Dot; newline; star space; word "Responsibilities:"; newline;
         lazy_star (Cls false [CSp; CNSp]); word "Environment:";
         lazy_star (Cls false [CSp; CNSp]); word ","; star space;
         CITY_STATE ].

(** r"Responsibilities:\s*\n(.*?)(?=\nEnvironment:|\Z)" *)
Definition RESPONSIBILITIES_REGEX : regex :=
  seqs [ word "Responsibilities:"; star space; newline;
         Grp 1 (lazy_star Dot);
         Ahead (alts [seqs [newline; word "Environment:"]; EndZ]) ].

(** The bullet pattern: start of string, white space, one of the bullet
    U+2022, the asterisk and the hyphen, white space. *)
Definition BULLET_REGEX : regex :=
  seqs [ Bol; star space; Cls false [CCh 8226; one "*"; one "-"];
         star space ].

(** The list comprehension over the lines of the responsibilities. *)
Definition responsibilities_of (resp_text : str) : list str :=
  map (fun line => strip (sub no_flags BULLET_REGEX [] line))
      (filter (fun line =>
                 negb (eqs (strip (sub no_flags BULLET_REGEX [] line)) []))
              (split NL resp_text)).

(** The body of the loop over the job blocks, for a stripped, non-empty
    block: the dictionary [current_job] it builds. *)
Definition job_of_block (block : str) : dict value :=
  let current_job := [] in
  let current_job :=
    match search S_I CLIENT_REGEX block with
    | Some client_match =>
        let g1 := group block 1 client_match in
        let current_job :=
          dict_set "Client" (VStr (strip (nth 0 (split "," g1) [])))
            current_job in
        let current_job :=
          dict_set "Title" (VStr (strip (group block 2 client_match)))
            current_job in
        let current_job :=
          dict_set "Duration" (VStr (strip (group block 3 client_match)))
            current_job in
        match search no_flags LOCATION_REGEX g1 with
        | Some location_match =>
            dict_set "Location" (VStr (strip (group g1 1 location_match)))
              current_job
        | None =>
            match search I_ LOCATION_FALLBACK_REGEX block with
            | Some location_fallback_match =>
                dict_set "Location"
                  (VStr (strip (group block 1 location_fallback_match)))
                  current_job
            | None => current_job
            end
        end
    | None => current_job
    end in
  match search S_I RESPONSIBILITIES_REGEX block with
  | Some responsibilities_match =>
      let resp_text := strip (group block 1 responsibilities_match) in
      dict_set "Responsibilities" (VList (responsibilities_of resp_text))
        current_job
  | None => current_job
  end.

(** One turn of the loop over [job_blocks]. *)
Definition experience_step (experiences : list (dict value)) (block : str)
  : list (dict value) :=
  let block := strip block in
  if eqs block [] then experiences
  else
    let current_job := job_of_block block in
    match current_job with
    | [] => experiences
    | _ => experiences ++ [current_job]
    end.

Definition parse_experience (experience_text : str) : list (dict value) :=
  let job_blocks := re_split I_ JOB_SPLIT experience_text in
  fold_left experience_step job_blocks [].

(** *** Section segmentation *)

Definition SECTION_HEADERS : dict (list string) :=
  [ ("professional_summary",
      ["professional summary"; "summary"; "profile"; "about me"; "objective"]);
    ("areas_of_expertise",
      ["areas of expertise"; "skills"; "technical skills"; "abilities";
       "expertise"]);
    ("educational", ["educational"; "education"; "academic background"]);
    ("professional_experience",
      ["professional experience"; "experience"; "work experience"]);
    ("projects", ["projects"; "personal projects"; "portfolio"]);
    ("awards", ["awards"; "honors"; "achievements"]);
    ("certifications", ["certifications"; "licenses"]);
    ("publications", ["publications"]);
    ("volunteer", ["volunteer experience"; "volunteering"]) ].

(** A header pattern: the header's words and colon, then r"\s*". *)
Definition header_pattern (words : string) : regex :=
  seqs [word words; star space].

(** The section names of [header_patterns] with the words of their
    patterns. *)
Definition header_words : dict string :=
  [ ("professional_summary", "Professional Summary:");
    ("areas_of_expertise", "AREAS OF EXPERTISE:");
    ("educational", "Educational:");
    ("professional_experience", "Professional Experience:");
    ("educational_details_bottom", "Educational Details:") ].

Definition header_patterns : dict regex :=
  map (fun entry : string * string =>
         (fst entry, header_pattern (snd entry)))
      header_words.

(** The tuple (match.start(), match.end(), section_name, match.group(0)). *)
Record header : Type :=
  { h_start : nat; h_end : nat; h_name : string; h_text : str }.

(** The inner loop that fills [header_matches]: the tuples of one
    pattern's matches. *)
Definition pattern_headers (text : str) (section_name : string)
  (pattern_str : regex) : list header :=
  map (fun m => {| h_start := m_start m; h_end := m_end m;
                   h_name := section_name; h_text := group0 text m |})
      (finditer I_ pattern_str text).

(** The outer loop, over the patterns. *)
Definition collect_headers (text : str) : list header :=
  flat_map (fun entry : string * regex =>
              pattern_headers text (fst entry) (snd entry))
           header_patterns.

(** The order of Python tuples: by the components, left to right. *)
Definition header_lt (a b : header) : bool :=
  (h_start a <? h_start b)
  || ((h_start a =? h_start b)
      && ((h_end a <? h_end b)
          || ((h_end a =? h_end b)
              && (String.ltb (h_name a) (h_name b)
                  || (String.eqb (h_name a) (h_name b)
                      && String.ltb (string_of_list_ascii (h_text a))
                                    (string_of_list_ascii (h_text b))))))).

(** [list.sort()]: a stable sort. *)
Fixpoint insert_header (x : header) (l : list header) : list header :=
  match l with
  | [] => [x]
  | y :: l' => if header_lt x y then x :: l else y :: insert_header x l'
  end.

Definition sort_headers (l : list header) : list header :=
  fold_left (fun acc x => insert_header x acc) l [].

Definition header_matches (text : str) : list header :=
  sort_headers (collect_headers text).

Definition is_empty (s : str) : bool := eqs s [].

(** The start of the header that follows, the end of the text after the
    last one: the value of [next_start_idx]. *)
Definition next_start (text : str) (rest : list header) : nat :=
  match rest with
  | h' :: _ => h_start h'
  | [] => length text
  end.

(** The stripped text between a header's end and the next header's start
    (the end of the text for the last header). *)
Definition content_of (text : str) (h : header) (rest : list header) : str :=
  strip (slice (h_end h) (next_start text rest) text).

(** The assignment at the end of the loop body: a match of the bottom
    "Educational Details:" header fills the educational block only while
    that block is empty; any other match sets the block of its section. *)
Definition assign_content (section_name : string) (content : str)
  (segmented_data : dict str) : dict str :=
  if String.eqb section_name "educational_details_bottom"
  then match dict_get "educational" segmented_data with
       | Some old =>
           if is_empty old
           then dict_set "educational" content segmented_data
           else segmented_data
       | None => segmented_data
       end
  else dict_set section_name content segmented_data.

(** The loop over the sorted matches. *)
Fixpoint assign_sections (text : str) (hs : list header)
  (segmented_data : dict str) : dict str :=
  match hs with
  | [] => segmented_data
  | h :: rest =>
      let content := content_of text h rest in
      assign_sections text rest
        (assign_content (h_name h) content segmented_data)
  end.

(** "Professional Summary:", r"\s*(.*?)" and a lookahead for "Email:",
    "Mobile:", two newlines or the end. *)
Definition SUMMARY_REGEX : regex :=
  seqs [ word "Professional Summary:"; star space; Grp 1 (lazy_star Dot);
         Ahead (alts [ word "Email:"; word "Mobile:";
                       seqs [newline; newline]; EndZ ]) ].

Definition is_some {A : Type} (o : option A) : bool :=
  match o with Some _ => true | None => false end.

(** [any(re.search(pat, line, re.IGNORECASE) for pat in [...])] *)
Definition has_contact (line : str) : bool :=
  existsb (fun pat => is_some (search I_ pat line))
          [EMAIL_REGEX; PHONE_REGEX; LINKEDIN_REGEX].

(** The loop that collects lines up to the first contact line. *)
Fixpoint summary_lines (lines : list str) : list str :=
  match lines with
  | [] => []
  | line :: rest =>
      if negb (has_contact line) then line :: summary_lines rest else []
  end.

(** The treatment of the text before the first header. *)
Definition intro_summary (text : str) (hs : list header)
  (segmented_data : dict str) : dict str :=
  match hs with
  | [] => segmented_data
  | h :: _ =>
      let first_header_start := h_start h in
      let intro_text := strip (slice 0 first_header_start text) in
      match search S_I SUMMARY_REGEX intro_text with
      | Some summary_match =>
          dict_set "professional_summary"
            (strip (group intro_text 1 summary_match)) segmented_data
      | None =>
          let lines := split NL intro_text in
          let potential_summary_lines := summary_lines lines in
          let summary_candidate :=
            strip (join [NL] potential_summary_lines) in
          if 10 <? length (split_ws summary_candidate)
          then dict_set "professional_summary" summary_candidate
                 segmented_data
          else segmented_data
      end
  end.

(** [{key: "" for key in SECTION_HEADERS.keys()}] *)
Definition empty_sections : dict str :=
  map (fun key => (key, [])) (keys SECTION_HEADERS).

Definition section_text (text : str) : dict str :=
  let segmented_data := empty_sections in
  let hs := header_matches text in
  let segmented_data := assign_sections text hs segmented_data in
  intro_summary text hs segmented_data.

(** *** The layout of the sections in the document *)

(** The region of a header: the text from its end to the next start. *)
Definition region_of (text : str) (h : header) (rest : list header) : str :=
  slice (h_end h) (next_start text rest) text.

(** The sorted headers with their regions, in document order. *)
Fixpoint regions (text : str) (hs : list header) : list (header * str) :=
  match hs with
  | [] => []
  | h :: rest => (h, region_of text h rest) :: regions text rest
  end.

(** The section name and the block of every header, in document order:
    the values the loop of [section_text] assigns in turn. *)
Fixpoint contents (text : str) (hs : list header) : list (string * str) :=
  match hs with
  | [] => []
  | h :: rest => (h_name h, content_of text h rest) :: contents text rest
  end.

(** The blocks in document order. *)
Definition blocks_in_order (text : str) : list str :=
  map snd (contents text (header_matches text)).

(** Headers and regions follow one another without overlap: every header
    ends at or before the start of the next, and the last one within the
    text. *)
Fixpoint laid_out (text : str) (hs : list header) : Prop :=
  match hs with
  | [] => True
  | h :: rest =>
      h_start h < h_end h /\ h_end h <= next_start text rest
      /\ next_start text rest <= length text
      /\ h_text h = slice (h_start h) (h_end h) text
      /\ laid_out text rest
  end.

(** The literal [s] is in the text at position [i]. *)
Fixpoint lit_at (fl : flags) (s : str) (text : str) (i : nat) : bool :=
  match s with
  | [] => true
  | p :: s' =>
      match char_at text i with
      | Some c => lit_ok fl p c && lit_at fl s' text (S i)
      | None => false
      end
  end.

(** The characters of the text from [a] up to [b] are white space. *)
Definition spaces_between (text : str) (a b : nat) : Prop :=
  forall j, a <= j < b ->
            exists c, char_at text j = Some c /\ is_space c = true.

(** What a tuple of [header_matches] records: the words of its section's
    pattern at its start, then white space up to its end. *)
Definition header_fact (text : str) (h : header) : Prop :=
  exists w,
    In (h_name h, w) header_words
    /\ lit_at I_ (s2l w) text (h_start h) = true
    /\ h_start h + length (s2l w) <= h_end h <= length text
    /\ spaces_between text (h_start h + length (s2l w)) (h_end h)
    /\ h_text h = slice (h_start h) (h_end h) text.

(** Two literals cannot both be in a text, the second [d] characters
    after the first, when they differ at a position they share. *)
Definition clash (w1 w2 : str) (d : nat) : bool :=
  existsb
    (fun j =>
       match nth_error w1 (d + j), nth_error w2 j with
       | Some p, Some q => negb (eqc (lower_char p) (lower_char q))
       | _, _ => false
       end)
    (seq 0 (length w2)).

(** The order of the sorted headers, by their starts. *)
Definition by_start (a b : header) : Prop := h_start a <= h_start b.

(** The loop of [section_text] over the names and blocks of the headers. *)
Definition assign_all (cs : list (string * str)) (sd : dict str) : dict str :=
  fold_left (fun sd p => assign_content (fst p) (snd p) sd) cs sd.

(** All the characters of the model. *)
Definition all_chars : list ascii := map ascii_of_nat (seq 0 256).

(** *** Name and title *)

(** An entity of the recogniser's output: [ent.text] and [ent.label_]. *)
Record entity : Type := { ent_text : str; ent_label : str }.

(** Upper case of a character.  The two lower-case letters whose upper
    case leaves the 8-bit range (y with diaeresis, whose upper case is
    U+0178, and the micro sign, whose upper case is U+039C) are left as
    they are: on a string that holds one of them where [str.upper] or
    [str.title] raises it, the functions below differ from Python's, and
    [upper_in_range] tells the other characters. *)
Definition upper_char (c : ascii) : ascii :=
  if is_lower_paired c then ascii_of_N (code c - 32) else c.

(** [c.upper()]: the sharp s becomes "SS". *)
Definition upper_chars (c : ascii) : str :=
  if (code c =? 223)%N then s2l "SS" else [upper_char c].

(** [c.title()]: the sharp s becomes "Ss". *)
Definition title_chars (c : ascii) : str :=
  if (code c =? 223)%N then s2l "Ss" else [upper_char c].

(** [s.upper()] *)
Definition upper (s : str) : str := flat_map upper_chars s.

(** [s.title()]: a cased character that follows a cased one is lowered,
    any other is raised. *)
Fixpoint title_from (previous_is_cased : bool) (s : str) : str :=
  match s with
  | [] => []
  | c :: s' =>
      (if previous_is_cased then [lower_char c] else title_chars c)
      ++ title_from (is_alpha c) s'
  end.

Definition title (s : str) : str := title_from false s.

(** [s.isupper()]: some cased character, and none of them lower case. *)
Definition isupper (s : str) : bool :=
  existsb is_alpha s && negb (existsb is_lower s).

(** The loop over [doc.ents]: the first PERSON of at least two words. *)
Fixpoint person_name (ents : list entity) : str :=
  match ents with
  | [] => []
  | ent :: rest =>
      if eqs (ent_label ent) (s2l "PERSON")
         && (2 <=? length (split_ws (ent_text ent)))
      then title (ent_text ent)
      else person_name rest
  end.

(** The title pattern: a line of letters, white space and . & / - that
    ends in one of six job words, under MULTILINE and IGNORECASE. *)
Definition TITLE_REGEX : regex :=
  seqs [ Bol; star space;
         Grp 1 (seqs [ plus (Cls false [rg "A" "Z"; rg "a" "z"; CSp; one ".";
                                        one "&"; one "/"; one "-"]);
                       alts (map word ["Developer"; "Engineer"; "Manager";
                                       "Analyst"; "Specialist"; "Architect"]);
                       star space ]);
         Eol ].

Definition FRONT_END_REGEX : regex := word "Front End Developer".

(** The fallback loop over the first three lines. *)
Fixpoint upper_line_name (lines : list str) : str :=
  match lines with
  | [] => []
  | line :: rest =>
      if (2 <=? length (split_ws line)) && isupper line
         && negb (contains (s2l "DEVELOPER") (upper line))
         && negb (contains (s2l "EMAIL") (upper line))
      then title line
      else upper_line_name rest
  end.

Section Recogniser.

(** The loaded language model: from a text to its entities. *)
Variable nlp : str -> list entity.

Definition extract_name_and_title (text : str) : str * str :=
  let lines := stripped_lines text in
  let name :=
    match lines with
    | [] => []
    | first :: others =>
        let name := person_name (nlp first) in
        match others with
        | second :: _ =>
            if is_empty name then person_name (nlp second) else name
        | [] => name
        end
    end in
  let title_found :=
    match lines with
    | [] => []
    | _ :: _ =>
        if is_empty name then []
        else
          match find name text with
          | Some name_idx =>
              let after_name_text := skipn (name_idx + length name) text in
              match search M_I TITLE_REGEX after_name_text with
              | Some title_match =>
                  if m_start title_match <? 100
                  then strip (group after_name_text 1 title_match)
                  else []
              | None => []
              end
          | None => []
          end
    end in
  let name :=
    if is_empty name then upper_line_name (firstn 3 lines) else name in
  let title_found :=
    if is_empty title_found
    then match search I_ FRONT_END_REGEX text with
         | Some title_match_direct =>
             if m_start title_match_direct <? 300
             then s2l "Front End Developer" else title_found
         | None => title_found
         end
    else title_found in
  (name, title_found).

End Recogniser.

(** *** Education *)

(** "Bachelor of Technology in (.*?) from (.*?)," then white space and
    a greedy group up to the end of the line. *)
Definition BTECH_REGEX : regex :=
  seqs [ word "Bachelor of Technology in "; Grp 1 (lazy_star Dot);
         word " from "; Grp 2 (lazy_star Dot); word ","; star space;
         Grp 3 (star Dot) ].

(** A month and a year: r"(\w+\s+\d{4})" *)
Definition MONTH_YEAR (n : nat) : regex :=
  Grp n (seqs [plus wordc; plus space; times 4 4 digit]).

(** "Masters from (.*?)," r"\s*(.*?)\.\n\s*\(", a month and year, a
    hyphen between optional white space, a month and year, r"\)" *)
Definition MASTERS_REGEX : regex :=
  seqs [ word "Masters from "; Grp 1 (lazy_star Dot); word ","; star space;
         Grp 2 (lazy_star Dot); word "."; newline; star space; word "(";
         MONTH_YEAR 3; star space; word "-"; star space; MONTH_YEAR 4;
         word ")" ].

Definition parse_education (education_text : str) : list (dict value) :=
  let educations := [] in
  let educations :=
    match search I_ BTECH_REGEX education_text with
    | Some btech_match =>
        educations ++
        [ [ ("Degree", VStr (s2l "B.Tech"));
            ("Field", VStr (strip (group education_text 1 btech_match)));
            ("Institution",
              VStr (strip (group education_text 2 btech_match) ++ s2l ", "
                    ++ strip (group education_text 3 btech_match))) ] ]
    | None => educations
    end in
  match search I_ MASTERS_REGEX education_text with
  | Some masters_match =>
      let start_date_str := group education_text 3 masters_match in
      let end_date_str := group education_text 4 masters_match in
      educations ++
      [ [ ("Degree", VStr (s2l "Masters"));
          ("Institution", VStr (strip (group education_text 1 masters_match)));
          ("Location", VStr (strip (group education_text 2 masters_match)));
          ("Duration", VStr (start_date_str ++ s2l " - " ++ end_date_str)) ] ]
  | None => educations
  end.

(** *** Projects *)

(** "E-commerce Recommendation System", a hyphen between optional white
    space, a lazy description (group 1), an optional "Link:" part (group 2)
    whose lazy target is group 3, and the end of the string. *)
Definition PROJECT_REGEX : regex :=
  seqs [ word "E-commerce Recommendation System"; star space; word "-";
         star space; Grp 1 (lazy_star Dot);
         opt (Grp 2 (seqs [word "Link:"; star space; Grp 3 (lazy_star Dot)]));
         Eol ].

(** The alternation of technology names, as one group. *)
Definition TECH_REGEX : regex :=
  Grp 1 (alts (map word
    ["Python"; "TensorFlow"; "Pandas"; "React.js"; "Node.js"; "Express";
     "MongoDB"; "HTML5"; "CSS3"; "SASS"; "JavaScript"; "TypeScript";
     "Material-UI"; "React Redux"; "Cypress"; "Cyara"; "JSON"; "NPM";
     "Axios"; "Bitbucket"; "Jira"; "AWS"; "Agile/Scrum"])).

Definition mem_str (x : str) (l : list str) : bool := existsb (eqs x) l.

(** [if x not in technologies: technologies.append(x)] over a list. *)
Definition add_new (technologies : list str) (xs : list str) : list str :=
  fold_left (fun acc x => if mem_str x acc then acc else acc ++ [x])
            xs technologies.

(** The keyword loop over [SKILL_CATEGORIES]. *)
Definition keyword_hits (description : str) : list str :=
  add_new []
    (filter (fun kw => contains (lower kw) (lower description))
            (flat_map snd SKILL_CATEGORIES)).

Definition str_lt (a b : str) : bool :=
  String.ltb (string_of_list_ascii a) (string_of_list_ascii b).

Fixpoint insert_str (x : str) (l : list str) : list str :=
  match l with
  | [] => [x]
  | y :: l' => if str_lt x y then x :: l else y :: insert_str x l'
  end.

(** [sorted(list(set(technologies)))]: the distinct elements in order. *)
Definition sorted_set (l : list str) : list str :=
  fold_left (fun acc x => insert_str x acc) (add_new [] l) [].

Definition parse_projects (projects_text : str) : list (dict value) :=
  match search S_I PROJECT_REGEX projects_text with
  | Some project_match =>
      let project_title := s2l "E-commerce Recommendation System" in
      let description := strip (group projects_text 1 project_match) in
      let link :=
        match group_opt projects_text 3 project_match with
        | Some l => if is_empty l then [] else strip l
        | None => []
        end in
      let technologies := keyword_hits description in
      let tech_matches :=
        map (group description 1) (finditer I_ TECH_REGEX description) in
      let technologies := add_new technologies tech_matches in
      [ [ ("title", VStr project_title);
          ("description", VStr description);
          ("technologies", VList (sorted_set technologies));
          ("link", VStr link) ] ]
  | None => []
  end.

(** *** The whole record *)

(** The values of the fields of the output dictionary. *)
Inductive field : Type :=
| FStr (s : str)
| FContact (d : dict str)
| FSkills (d : dict (list str))
| FEntries (l : list (dict value)).

(** [d.get(k, "")] *)
Definition dict_get_default (k : string) (d : dict str) : str :=
  match dict_get k d with Some v => v | None => [] end.

Section Pipeline.

Variable nlp : str -> list entity.

Definition parse_resume (raw_text : str) : dict field :=
  let (name, overall_title) := extract_name_and_title nlp raw_text in
  let contact_info := extract_contact_info raw_text in
  let segmented_text := section_text raw_text in
  let summary :=
    strip (dict_get_default "professional_summary" segmented_text) in
  let experience_data :=
    parse_experience
      (dict_get_default "professional_experience" segmented_text) in
  let education_data :=
    parse_education (dict_get_default "educational" segmented_text) in
  let skills_data :=
    parse_skills (dict_get_default "areas_of_expertise" segmented_text) in
  let projects_data :=
    parse_projects
      (dict_get_default "projects" segmented_text ++ [NL] ++ raw_text) in
  let awards_data := [] in
  let certifications_data := [] in
  [ ("Name", FStr name);
    ("Title", FStr overall_title);
    ("Contact", FContact contact_info);
    ("Summary", FStr summary);
    ("Skills", FSkills skills_data);
    ("Education", FEntries education_data);
    ("Experience", FEntries experience_data);
    ("Projects", FEntries projects_data);
    ("Awards", FEntries awards_data);
    ("Certifications", FEntries certifications_data) ].

End Pipeline.

(** ** Inputs used in the statements *)

(** The lines of a text, joined by newlines. *)
Definition text_of (lines : list string) : str := join [NL] (map s2l lines).

(** The skills section of four lines. *)
Definition skills_sample : str :=
  text_of ["Databases"; "MySQL, PostgreSQL"; "Testing Tools"; "Selenium"].

(** An experience section with two jobs, each introduced by a line that
    reads "Client". *)
Definition two_jobs : str :=
  text_of [ "Client"; "Acme"; "Title"; "Dev"; "Duration"; "2020";
            "Description";
            "Client"; "Beta"; "Title"; "QA"; "Duration"; "2021";
            "Description" ].

(** The same two jobs after a line of introduction, so that both "Client"
    lines are matches of the pattern the blocks are split on. *)
Definition two_jobs_after_intro : str :=
  text_of [ "Recent work"; "Client"; "Acme"; "Title"; "Dev"; "Duration";
            "2020"; "Description";
            "Client"; "Beta"; "Title"; "QA"; "Duration"; "2021";
            "Description" ].

(** The number of job-block markers: the matches of the split pattern. *)
Definition client_markers (experience_text : str) : nat :=
  length (finditer I_ JOB_SPLIT experience_text).

(** The number of lines that read "Client", in any case. *)
Definition client_lines (experience_text : str) : nat :=
  length (filter (fun line => eqs (lower line) (s2l "client"))
                 (split NL experience_text)).

(** Two headers with one block each. *)
Definition two_sections : str :=
  s2l "Educational: a Professional Experience: b".

(** The same header twice. *)
Definition education_twice : str := s2l "Educational: A Educational: B".

(** A job block with responsibilities and nothing else. *)
Definition responsibilities_only : str :=
  text_of ["Responsibilities:"; "- did x"].

(** The record of an empty document. *)
Definition empty_record : dict field :=
  [ ("Name", FStr []); ("Title", FStr []); ("Contact", FContact []);
    ("Summary", FStr []); ("Skills", FSkills []); ("Education", FEntries []);
    ("Experience", FEntries []); ("Projects", FEntries []);
    ("Awards", FEntries []); ("Certifications", FEntries []) ].

(** A text has a line that names a skill category. *)
Definition has_category_line (text : str) : bool :=
  existsb (fun line => is_some (find_category line (keys SKILL_CATEGORIES)))
          (stripped_lines text).

(** ** What a pattern takes *)

(** Every match of the pattern takes at least one character that passes
    [Q]. *)
Fixpoint needs (Q : ascii -> bool) (fl : flags) (r : regex) : bool :=
  match r with
  | Lit p => forallb (fun c => implb (lit_ok fl p c) (Q c)) all_chars
  | Cls neg items =>
      forallb (fun c => implb (cls_ok fl neg items c) (Q c)) all_chars
  | Dot => forallb (fun c => implb (dot_ok fl c) (Q c)) all_chars
  | Seq a b => needs Q fl a || needs Q fl b
  | Alt a b => needs Q fl a && needs Q fl b
  | Rep _ lo _ r' => (1 <=? lo) && needs Q fl r'
  | Grp _ r' => needs Q fl r'
  | _ => false
  end.

(** Every character that a match of the pattern takes passes [P]. *)
Fixpoint only (P : ascii -> bool) (fl : flags) (r : regex) : bool :=
  match r with
  | Lit p => forallb (fun c => implb (lit_ok fl p c) (P c)) all_chars
  | Cls neg items =>
      forallb (fun c => implb (cls_ok fl neg items c) (P c)) all_chars
  | Dot => forallb (fun c => implb (dot_ok fl c) (P c)) all_chars
  | Seq a b | Alt a b => only P fl a && only P fl b
  | Rep _ _ _ r' => only P fl r'
  | Grp _ r' => only P fl r'
  | Ahead r' => only P fl r'
  | _ => true
  end.

(** The characters of every recorded group span pass [P]. *)
Definition caps_pass (P : ascii -> bool) (text : str)
  (cs : list (nat * (nat * nat))) : Prop :=
  forall n a b, In (n, (a, b)) cs ->
  forall j, a <= j < b -> exists c, char_at text j = Some c /\ P c = true.

(** The character is not the at sign. *)
Definition not_at (c : ascii) : bool := negb (eqc c "@").

(** The list [website_matches] of [extract_contact_info]: the three
    groups of every match of the website pattern. *)
Definition website_candidates (text : str) : list (str * str * str) :=
  map (fun m => (group text 1 m, group text 2 m, group text 3 m))
      (finditer I_ WEBSITE_REGEX text).

(** The keys a contact dictionary can have, in the order of the
    assignments. *)
Definition contact_keys : list string :=
  ["Email"; "Mobile"; "LinkedIn"; "GitHub"; "Website"].

(** The literal is somewhere in the text. *)
Definition occurs (fl : flags) (w text : str) : bool :=
  existsb (lit_at fl w text) (seq 0 (length text)).

(** The text has the words of one of the header patterns, in any case. *)
Definition has_header (text : str) : bool :=
  existsb (fun entry : string * string => occurs I_ (s2l (snd entry)) text)
          header_words.

(** ** Names used in the statements about the extractors *)

(** The delimiters of the skills pattern. *)
Definition is_delim (c : ascii) : bool := eqc c "," || eqc c ";".

(** The skills one line gives: the stripped, non-empty pieces between
    the delimiters. *)
Definition skills_of_line (line : str) : list str :=
  filter (fun skill => negb (eqs skill []))
         (map strip (re_split no_flags SKILL_DELIMS line)).

(** The key lists an experience entry can have. *)
Definition entry_key_lists : list (list string) :=
  [ ["Client"; "Title"; "Duration"];
    ["Client"; "Title"; "Duration"; "Location"];
    ["Client"; "Title"; "Duration"; "Responsibilities"];
    ["Client"; "Title"; "Duration"; "Location"; "Responsibilities"];
    ["Responsibilities"] ].





(** An introduction of eleven words, then a summary section. *)
Definition intro_then_summary : str :=
  s2l "I write compilers and I have done so for many long years. Professional Summary: Engineer.".

(** Two jobs, the second with responsibilities. *)
Definition two_jobs_with_duties : str :=
  text_of [ "Client"; "Acme"; "Title"; "Dev"; "Duration"; "2020";
            "Description";
            "Client"; "Beta"; "Title"; "QA"; "Duration"; "2021";
            "Responsibilities:"; "- testing" ].

(** ** Where the blocks lie in the document *)

(** The key that a header's section name fills: the bottom "Educational
    Details:" header fills the educational block, any other header the
    block of its own name. *)
Definition key_of (section_name : string) : string :=
  if String.eqb section_name "educational_details_bottom"
  then "educational" else section_name.

(** The sorted headers with the bounds of their regions: from the end of
    the header to the start of the next one, or to the end of the text. *)
Fixpoint spans (text : str) (hs : list header)
  : list (header * (nat * nat)) :=
  match hs with
  | [] => []
  | h :: rest => (h, (h_end h, next_start text rest)) :: spans text rest
  end.

(** The block [v] of [key] is the stripped region of a header that fills
    [key], and the positions [a] up to [b] lie inside that region. *)
Definition block_of_header (text : str) (hs : list header) (key : string)
  (v : str) (a b : nat) : Prop :=
  exists h x y,
    In (h, (x, y)) (spans text hs)
    /\ In (h, slice x y text) (regions text hs)
    /\ key_of (h_name h) = key
    /\ v = strip (slice x y text)
    /\ x <= a /\ b <= y.

(** The block of the summary comes from the introduction: the positions
    up to [b] lie before the first header. *)
Definition block_of_intro (hs : list header) (key : string) (b : nat)
  : Prop :=
  key = "professional_summary"
  /\ exists h rest, hs = h :: rest /\ b <= h_start h.

(** The block [v] of [key] is the text of the document from [a] up to
    [b], and lies in the region of a header that fills [key] or, for the
    summary, before the first header. *)
Definition block_at (text : str) (hs : list header) (key : string) (v : str)
  (a b : nat) : Prop :=
  a < b <= length text
  /\ v = slice a b text
  /\ (block_of_header text hs key v a b \/ block_of_intro hs key b).

(** The upper case of the character lies within the 8-bit range: the
    character is neither the micro sign nor y with diaeresis. *)
Definition upper_in_range (c : ascii) : bool :=
  negb ((code c =? 181)%N || (code c =? 255)%N).

(** * Properties *)

From Stdlib Require Import Sorting.Sorted Permutation.

(** ** The matcher finds matches *)

Section Soundness.

Variable fl : flags.
Variable text : str.

Lemma step_if_sound (ok : ascii -> bool) :
  sound_body (step_if text ok) (takes text ok).
Proof.
  intros k st res H. unfold step_if in H.
  destruct (char_at text (pos st)) as [c|] eqn:E; [|discriminate].
  destruct (ok c) eqn:O; [|discriminate].
  exists (advance st). split; [|exact H].
  exists c. auto.
Qed.

Lemma guard_sound (b : bool) : sound_body (guard b) (holds b).
Proof.
  intros k st res H. unfold guard in H. destruct b; [|discriminate].
  exists st. split; [split; reflexivity|exact H].
Qed.

Lemma rep_loop_sound body R greedy lo hi k :
  sound_body body R ->
  forall fuel i st res,
    rep_loop body greedy lo hi k fuel i st = Some res ->
    exists st', iter R lo hi i st st' /\ k st' = Some res.
Proof.
  intros HB. induction fuel as [|fuel IH]; intros i st res H;
    [discriminate|].
  cbn [rep_loop] in H.
  assert (More :
    (if under hi i
     then body (fun st' =>
                  if (pos st <? pos st') || (i <? lo)
                  then rep_loop body greedy lo hi k fuel (S i) st'
                  else None) st
     else None) = Some res ->
    exists st', iter R lo hi i st st' /\ k st' = Some res).
  { intros M. destruct (under hi i) eqn:U; [|discriminate].
    apply HB in M. destruct M as [st1 [R1 M]].
    destruct ((pos st <? pos st1) || (i <? lo)) eqn:C; [|discriminate].
    apply IH in M. destruct M as [st' [I K]].
    exists st'. split; [|exact K].
    apply iter_more with (st1 := st1); auto.
    apply orb_prop in C. destruct C as [C|C];
      apply Nat.ltb_lt in C; auto. }
  assert (Stop :
    (if lo <=? i then k st else None) = Some res ->
    exists st', iter R lo hi i st st' /\ k st' = Some res).
  { intros M. destruct (lo <=? i) eqn:L; [|discriminate].
    exists st. split; [|exact M].
    apply iter_stop. apply Nat.leb_le. exact L. }
  set (more := if under hi i then _ else None) in *.
  set (stop := if lo <=? i then k st else None) in *.
  clearbody more stop.
  destruct greedy.
  - destruct more as [res'|]; [apply More|apply Stop]; exact H.
  - destruct stop as [res'|]; [apply Stop|apply More]; exact H.
Qed.

(** Whatever the matcher returns is reached through a match of [r]. *)
Lemma rmatch_sound (r : regex) : sound_body (rmatch fl text r) (sem fl text r).
Proof.
  induction r as [ |p|neg items| |a IHa b IHb|a IHa b IHb
                 |greedy lo hi r IH|n r IH|r IH| | | | ];
    intros k st res H; cbn [rmatch] in H; cbn [sem].
  - exists st. auto.
  - apply step_if_sound. exact H.
  - apply step_if_sound. exact H.
  - apply step_if_sound. exact H.
  - apply IHa in H. destruct H as [st1 [A H]].
    apply IHb in H. destruct H as [st2 [B H]].
    exists st2. split; [exists st1; auto|exact H].
  - destruct (rmatch fl text a k st) as [res'|] eqn:A.
    + inversion H; subst res'. apply IHa in A. destruct A as [st' [A K]].
      exists st'. auto.
    + apply IHb in H. destruct H as [st' [B K]]. exists st'. auto.
  - apply (rep_loop_sound _ _ _ _ _ _ IH) in H. exact H.
  - apply IH in H. destruct H as [st1 [A K]].
    exists (set_cap n (pos st) (pos st1) st1). split; [|exact K].
    exists st1. auto.
  - destruct (rmatch fl text r Some st) as [st1|] eqn:A; [|discriminate].
    apply IH in A. destruct A as [st1' [A K]]. inversion K; subst st1'.
    exists {| pos := pos st; caps := caps st1 |}. split; [|exact H].
    exists st1. auto.
  - apply guard_sound. exact H.
  - apply guard_sound. exact H.
  - apply guard_sound. exact H.
  - apply guard_sound. exact H.
Qed.

(** A match object stands for a match of the pattern over its span. *)
Lemma match_at_sound (r : regex) (start : nat) (m : rmatch_obj) :
  match_at fl text r start = Some m ->
  m_start m = start /\ matches fl text r start (m_end m) (m_caps m).
Proof.
  unfold match_at. intros H.
  destruct (rmatch fl text r Some _) as [st|] eqn:A; [|discriminate].
  inversion H; subst m; clear H. cbn. split; [reflexivity|].
  apply rmatch_sound in A. destruct A as [st' [A K]].
  inversion K; subst st'. unfold matches. destruct st. exact A.
Qed.

Lemma search_from_sound (r : regex) (n start : nat) (m : rmatch_obj) :
  search_from fl text r n start = Some m ->
  start <= m_start m < start + n /\ match_at fl text r (m_start m) = Some m.
Proof.
  revert start. induction n as [|n IH]; intros start H; [discriminate|].
  cbn [search_from] in H.
  destruct (match_at fl text r start) as [m'|] eqn:A.
  - inversion H; subst m'. destruct (match_at_sound _ _ _ A) as [S _].
    rewrite S. split; [lia|exact A].
  - apply IH in H. destruct H as [B M]. split; [lia|exact M].
Qed.

Lemma search_at_sound (r : regex) (start : nat) (m : rmatch_obj) :
  search_at fl text r start = Some m ->
  start <= m_start m <= length text
  /\ match_at fl text r (m_start m) = Some m.
Proof.
  unfold search_at. intros H. apply search_from_sound in H.
  destruct H as [B M]. split; [lia|exact M].
Qed.

End Soundness.

(** ** Positions and spans of matches *)

Lemma char_at_lt (text : str) (i : nat) (c : ascii) :
  char_at text i = Some c -> i < length text.
Proof.
  unfold char_at. intros H. apply nth_error_Some. rewrite H. discriminate.
Qed.

Section Spans.

Variable fl : flags.
Variable text : str.

Lemma takes_forward (ok : ascii -> bool) (st st' : mstate) :
  takes text ok st st' -> forward text st st'.
Proof.
  intros [c [C [_ E]]]. subst st'. apply char_at_lt in C.
  unfold forward, advance. cbn. lia.
Qed.

Lemma holds_forward (b : bool) (st st' : mstate) :
  holds b st st' -> forward text st st'.
Proof. intros [_ E]. subst st'. unfold forward. lia. Qed.

Lemma iter_forward (R : mstate -> mstate -> Prop) lo hi i st st' :
  (forall a b, R a b -> forward text a b) ->
  iter R lo hi i st st' -> forward text st st'.
Proof.
  intros HR H. induction H as [i st L|i st st1 st2 U R1 P I IH].
  - unfold forward. lia.
  - apply HR in R1. unfold forward in *. lia.
Qed.

(** A match never moves backwards and never leaves the text. *)
Lemma sem_forward (r : regex) (st st' : mstate) :
  sem fl text r st st' -> forward text st st'.
Proof.
  revert st st'.
  induction r as [ |p|neg items| |a IHa b IHb|a IHa b IHb
                 |greedy lo hi r IH|n r IH|r IH| | | | ];
    intros st st' H; cbn [sem] in H;
    try (apply takes_forward in H; exact H);
    try (apply holds_forward in H; exact H).
  - subst st'. unfold forward. lia.
  - destruct H as [st1 [A B]]. apply IHa in A. apply IHb in B.
    unfold forward in *. lia.
  - destruct H as [A|B]; auto.
  - apply (iter_forward _ _ _ _ _ _ IH) in H. exact H.
  - destruct H as [st1 [A E]]. apply IH in A. subst st'.
    unfold forward, set_cap in *. cbn. exact A.
  - destruct H as [st1 [A E]]. subst st'. unfold forward. cbn. lia.
Qed.

Lemma match_at_span (r : regex) (start : nat) (m : rmatch_obj) :
  start <= length text ->
  match_at fl text r start = Some m ->
  m_start m = start /\ start <= m_end m <= length text.
Proof.
  intros L H. apply match_at_sound in H. destruct H as [S M].
  split; [exact S|]. apply sem_forward in M. unfold forward in M. cbn in M.
  lia.
Qed.

(** A run of literals matches exactly the characters it names. *)
Lemma sem_lits (s : str) (st st' : mstate) :
  sem fl text (lits s) st st' ->
  pos st' = pos st + length s /\ caps st' = caps st
  /\ lit_at fl s text (pos st) = true.
Proof.
  revert st st'. induction s as [|c s IH]; intros st st' H.
  - cbn in H. subst st'. cbn. auto.
  - assert (One : forall st st', takes text (lit_ok fl c) st st' ->
              pos st' = S (pos st) /\ caps st' = caps st
              /\ exists x, char_at text (pos st) = Some x
                           /\ lit_ok fl c x = true).
    { intros a b [x [C [O E]]]. subst b. cbn. eauto. }
    destruct s as [|c2 s2].
    + cbn [lits sem] in H. apply One in H.
      destruct H as [P [K [x [C O]]]].
      cbn [lit_at length]. rewrite C, O. cbn [andb].
      repeat split; [lia|exact K].
    + change (lits (c :: c2 :: s2)) with (Seq (Lit c) (lits (c2 :: s2))) in H.
      cbn [sem] in H. destruct H as [st1 [A B]].
      apply One in A. destruct A as [P [K [x [C O]]]].
      apply IH in B. destruct B as [P2 [K2 L2]].
      rewrite P in L2. cbn [lit_at] in L2 |- *. rewrite C, O, L2.
      cbn [length] in *. repeat split; [lia|congruence].
Qed.

(** The iterations of a one-character pattern run over characters that
    all pass its test, and set no group. *)
Lemma iter_takes (ok : ascii -> bool) lo hi i st st' :
  iter (takes text ok) lo hi i st st' ->
  caps st' = caps st /\ pos st <= pos st'
  /\ forall j, pos st <= j < pos st' ->
               exists c, char_at text j = Some c /\ ok c = true.
Proof.
  intros H. induction H as [i st L|i st st1 st2 U R1 P I IH].
  - repeat split; auto. intros j J. lia.
  - destruct R1 as [c [C [O E]]]. subst st1. cbn in IH.
    destruct IH as [K [Q A]].
    repeat split; [exact K|lia|].
    intros j J. destruct (Nat.eq_dec j (pos st)) as [->|N]; [eauto|].
    apply A. lia.
Qed.

(** The matches that [finditer] lists: each is the match found at its
    start, they lie within the text, and each starts where the one before
    has ended or later. *)
Lemma finditer_from_spec (r : regex) (fuel start : nat) :
  Forall (fun m => start <= m_start m <= m_end m
                   /\ m_end m <= length text
                   /\ match_at fl text r (m_start m) = Some m)
         (finditer_from fl text r fuel start)
  /\ StronglySorted (fun m1 m2 => m_end m1 <= m_start m2)
                    (finditer_from fl text r fuel start).
Proof.
  revert start. induction fuel as [|fuel IH]; intros start;
    cbn [finditer_from].
  - split; constructor.
  - destruct (search_at fl text r start) as [m|] eqn:S.
    + apply search_at_sound in S. destruct S as [B M].
      destruct (match_at_span _ _ _ (proj2 B) M) as [_ E].
      destruct (IH (if m_end m =? m_start m then S (m_end m) else m_end m))
        as [F St].
      assert (N : m_end m
                  <= (if m_end m =? m_start m then S (m_end m) else m_end m))
        by (destruct (m_end m =? m_start m); lia).
      split.
      * constructor; [repeat split; try lia; exact M|].
        eapply Forall_impl; [|exact F]. cbn. intros a [A1 A2].
        split; [lia|exact A2].
      * constructor; [exact St|].
        eapply Forall_impl; [|exact F]. cbn. intros a [A1 A2]. lia.
    + split; constructor.
Qed.

End Spans.

(** ** The fuel of the repetition loop suffices *)

Section Fuel.

Variable fl : flags.
Variable text : str.

Lemma reach_refl (st : mstate) : reach text st st.
Proof. unfold reach. lia. Qed.

Lemma reach_trans (a b c : mstate) :
  reach text a b -> reach text b c -> reach text a c.
Proof. unfold reach. lia. Qed.

Lemma agree_later (a b : mstate) (ka kb : mstate -> option mstate) :
  reach text a b -> agree text a ka kb -> agree text b ka kb.
Proof.
  intros R A st' R'. apply A. apply (reach_trans _ _ _ R R').
Qed.

Lemma step_if_agree (ok : ascii -> bool) (ka kb : mstate -> option mstate)
  (st : mstate) :
  agree text st ka kb -> step_if text ok ka st = step_if text ok kb st.
Proof.
  intros A. unfold step_if.
  destruct (char_at text (pos st)) as [c|] eqn:C; [|reflexivity].
  destruct (ok c); [|reflexivity].
  apply A. apply char_at_lt in C. unfold reach, advance. cbn. lia.
Qed.

Lemma guard_agree (b : bool) (ka kb : mstate -> option mstate) (st : mstate) :
  agree text st ka kb -> guard b ka st = guard b kb st.
Proof.
  intros A. unfold guard. destruct b; [|reflexivity]. apply A, reach_refl.
Qed.

(** Two loops whose bodies and continuations agree give the same answer
    as soon as each has more fuel than the characters left plus the
    mandatory iterations left. *)
Lemma rep_loop_agree
  (body1 body2 : (mstate -> option mstate) -> mstate -> option mstate)
  (greedy : bool) (lo : nat) (hi : option nat) :
  (forall ka kb st, agree text st ka kb -> body1 ka st = body2 kb st) ->
  forall f1 f2 i st ka kb,
    (length text - pos st) + (lo - i) < f1 ->
    (length text - pos st) + (lo - i) < f2 ->
    agree text st ka kb ->
    rep_loop body1 greedy lo hi ka f1 i st
    = rep_loop body2 greedy lo hi kb f2 i st.
Proof.
  intros HB. induction f1 as [|f1 IH]; intros f2 i st ka kb L1 L2 A; [lia|].
  destruct f2 as [|f2]; [lia|]. cbn [rep_loop].
  assert (Stop : (if lo <=? i then ka st else None)
                 = (if lo <=? i then kb st else None)).
  { destruct (lo <=? i); [apply A, reach_refl|reflexivity]. }
  assert (More :
    (if under hi i
     then body1 (fun st' =>
                   if (pos st <? pos st') || (i <? lo)
                   then rep_loop body1 greedy lo hi ka f1 (S i) st'
                   else None) st
     else None)
    = (if under hi i
       then body2 (fun st' =>
                     if (pos st <? pos st') || (i <? lo)
                     then rep_loop body2 greedy lo hi kb f2 (S i) st'
                     else None) st
       else None)).
  { destruct (under hi i); [|reflexivity]. apply HB.
    intros st' R.
    destruct ((pos st <? pos st') || (i <? lo)) eqn:C; [|reflexivity].
    apply orb_prop in C. unfold reach in R.
    apply IH; [| |apply (agree_later st st'); [exact R|exact A]].
    - destruct C as [C|C]; [apply Nat.ltb_lt in C|apply Nat.ltb_lt in C];
        lia.
    - destruct C as [C|C]; [apply Nat.ltb_lt in C|apply Nat.ltb_lt in C];
        lia. }
  rewrite Stop, More. reflexivity.
Qed.

Lemma rmatch_more_agree (extra : nat) (r : regex) :
  forall ka kb st,
    agree text st ka kb ->
    rmatch fl text r ka st = rmatch_more fl text extra r kb st.
Proof.
  induction r as [ |p|neg items| |a IHa b IHb|a IHa b IHb
                 |greedy lo hi r IH|n r IH|r IH| | | | ];
    intros ka kb st A; cbn [rmatch rmatch_more];
    try (apply step_if_agree; exact A);
    try (apply guard_agree; exact A).
  - apply A, reach_refl.
  - apply IHa. intros st' R. apply IHb. apply (agree_later st st' _ _ R A).
  - rewrite (IHa ka kb st A), (IHb ka kb st A). reflexivity.
  - apply rep_loop_agree; [exact IH|lia|lia|exact A].
  - apply IH. intros st' R. apply A. unfold reach, set_cap in *. cbn. exact R.
  - rewrite <- (IH Some Some st (fun _ _ => eq_refl)).
    destruct (rmatch fl text r Some st) as [st'|]; [|reflexivity].
    apply A. unfold reach. cbn. lia.
Qed.

(** More fuel never changes the matcher's answer: no repetition loop of
    [rmatch] stops for want of fuel. *)
Theorem fuel_suffices (extra : nat) (r : regex)
  (k : mstate -> option mstate) (st : mstate) :
  rmatch_more fl text extra r k st = rmatch fl text r k st.
Proof.
  symmetry. apply rmatch_more_agree. intros st' _. reflexivity.
Qed.

End Fuel.

(** The same for the other two bounded loops: the scan of [finditer] and
    the replacement of a non-empty substring. *)
Lemma finditer_fuel (fl : flags) (text : str) (r : regex) (f1 f2 start : nat) :
  S (length text) - start <= f1 ->
  S (length text) - start <= f2 ->
  finditer_from fl text r f1 start = finditer_from fl text r f2 start.
Proof.
  revert f2 start. induction f1 as [|f1 IH]; intros f2 start L1 L2.
  - destruct f2 as [|f2]; [reflexivity|]. cbn [finditer_from].
    unfold search_at. replace (S (length text) - start) with 0 by lia.
    reflexivity.
  - destruct f2 as [|f2]; cbn [finditer_from].
    + unfold search_at. replace (S (length text) - start) with 0 by lia.
      reflexivity.
    + destruct (search_at fl text r start) as [m|] eqn:S; [|reflexivity].
      f_equal. apply search_at_sound in S. destruct S as [B M].
      destruct (match_at_span _ _ _ _ _ (proj2 B) M) as [_ E].
      destruct (m_end m =? m_start m) eqn:Q;
        [apply Nat.eqb_eq in Q|apply Nat.eqb_neq in Q]; apply IH; lia.
Qed.

Lemma replace_fuel_suffices (old new s : str) (f1 f2 : nat) :
  old <> [] -> length s < f1 -> length s < f2 ->
  replace_fuel f1 old new s = replace_fuel f2 old new s.
Proof.
  intros N. revert f2 s. induction f1 as [|f1 IH]; intros f2 s L1 L2; [lia|].
  destruct f2 as [|f2]; [lia|]. cbn [replace_fuel].
  destruct s as [|c s]; [reflexivity|].
  destruct (startswith old (c :: s)).
  - f_equal. apply IH.
    + destruct old as [|o old]; [congruence|]. cbn [length skipn].
      pose proof (length_skipn (length old) s). cbn [length] in L1. lia.
    + destruct old as [|o old]; [congruence|]. cbn [length skipn].
      pose proof (length_skipn (length old) s). cbn [length] in L2. lia.
  - f_equal. apply IH; cbn [length] in *; lia.
Qed.

(** ** The patterns are those of the source *)

Section Flat.

Variable fl : flags.
Variable text : str.

Lemma rmatch_agree (r : regex) (ka kb : mstate -> option mstate)
  (st : mstate) :
  agree text st ka kb -> rmatch fl text r ka st = rmatch fl text r kb st.
Proof.
  intros A. rewrite (rmatch_more_agree fl text 0 r ka kb st A).
  apply fuel_suffices.
Qed.

Lemma rmatch_seq (a b : regex) (k : mstate -> option mstate) (st : mstate) :
  rmatch fl text (Seq a b) k st = rmatch fl text a (rmatch fl text b k) st.
Proof. reflexivity. Qed.

Lemma app_seq_rmatch (a b : regex) :
  forall ka kb st,
    agree text st ka kb ->
    rmatch fl text (app_seq a b) ka st
    = rmatch fl text a (rmatch fl text b kb) st.
Proof.
  induction a as [ |p|neg items| |x IHx y IHy|x IHx y IHy
                 |greedy lo hi r IH|n r IH|r IH| | | | ];
    intros ka kb st A; cbn [app_seq];
    try (rewrite rmatch_seq; apply rmatch_agree; intros st' R;
         apply rmatch_agree; apply (agree_later text st st' _ _ R A)).
  - change (rmatch fl text Eps (rmatch fl text b kb) st)
      with (rmatch fl text b kb st).
    apply rmatch_agree. exact A.
  - rewrite !rmatch_seq. apply rmatch_agree. intros st' R.
    apply IHy. apply (agree_later text st st' _ _ R A).
Qed.

(** Nesting the sequences to the right does not change the matcher. *)
Lemma flat_rmatch (r : regex) :
  forall ka kb st,
    agree text st ka kb ->
    rmatch fl text (flat r) ka st = rmatch fl text r kb st.
Proof.
  induction r as [ |p|neg items| |a IHa b IHb|a IHa b IHb
                 |greedy lo hi r IH|n r IH|r IH| | | | ];
    intros ka kb st A; cbn [flat];
    try (apply rmatch_agree; exact A).
  - rewrite (app_seq_rmatch (flat a) (flat b) ka ka st
               (fun _ _ => eq_refl)).
    cbn [rmatch]. apply IHa. intros st' R. apply IHb.
    apply (agree_later text st st' _ _ R A).
  - cbn [rmatch]. rewrite (IHa ka kb st A), (IHb ka kb st A). reflexivity.
  - cbn [rmatch]. apply (rep_loop_agree text); [exact IH|lia|lia|exact A].
  - cbn [rmatch]. apply IH. intros st' R. apply A.
    unfold reach, set_cap in *. cbn. exact R.
  - cbn [rmatch]. rewrite (IH Some Some st (fun _ _ => eq_refl)).
    destruct (rmatch fl text r Some st) as [st'|]; [|reflexivity].
    apply A. unfold reach. cbn. lia.
Qed.

Lemma flat_match_at (r : regex) (start : nat) :
  match_at fl text (flat r) start = match_at fl text r start.
Proof.
  unfold match_at. rewrite (flat_rmatch r Some Some _ (fun _ _ => eq_refl)).
  reflexivity.
Qed.

Lemma flat_search_from (r : regex) (n start : nat) :
  search_from fl text (flat r) n start = search_from fl text r n start.
Proof.
  revert start. induction n as [|n IH]; intros start; cbn [search_from];
    [reflexivity|].
  rewrite flat_match_at, IH. reflexivity.
Qed.

Lemma flat_finditer_from (r : regex) (fuel start : nat) :
  finditer_from fl text (flat r) fuel start = finditer_from fl text r fuel start.
Proof.
  revert start. induction fuel as [|fuel IH]; intros start;
    cbn [finditer_from]; [reflexivity|].
  unfold search_at. rewrite flat_search_from.
  destruct (search_from fl text r _ start); [|reflexivity].
  rewrite IH. reflexivity.
Qed.

End Flat.

(** Two patterns written by the same source text give the same searches
    and the same lists of matches. *)
Theorem written_determines (src : string) (r1 r2 : regex) (fl : flags)
  (text : str) :
  written src r1 -> written src r2 ->
  search fl r1 text = search fl r2 text
  /\ finditer fl r1 text = finditer fl r2 text.
Proof.
  unfold written. intros W1 W2. rewrite W1 in W2. inversion W2 as [E].
  unfold search, search_at, finditer.
  rewrite <- (flat_search_from fl text r1), <- (flat_search_from fl text r2).
  rewrite <- (flat_finditer_from fl text r1),
          <- (flat_finditer_from fl text r2).
  rewrite E. auto.
Qed.

Lemma written_determines_witness :
  search I_ (Seq (Seq (Lit "a") (Lit "b")) (Lit "c")) (s2l "xabc")
  = search I_ (Seq (Lit "a") (Seq (Lit "b") (Lit "c"))) (s2l "xabc").
Proof.
  apply (written_determines "abc"); vm_compute; reflexivity.
Defined.

(** The patterns of the module, each with the text it has in the source. *)
Lemma patterns_as_written :
  written "[a-zA-Z0-9._%+-]+@[a-zA-Z0-9.-]+\.[a-zA-Z]{2,}" EMAIL_REGEX
  /\ written "(\(?\d{3}\)?[-\s]?\d{3}[-\s]?\d{4})" PHONE_REGEX
  /\ written "(linkedin\.com/in/[a-zA-Z0-9_-]+)" LINKEDIN_REGEX
  /\ written "(github\.com/[a-zA-Z0-9_-]+)" GITHUB_REGEX
  /\ written "(https?://)?(www\.)?([a-zA-Z0-9-]+\.)+[a-zA-Z]{2,6}(?:/\S*)?"
       WEBSITE_REGEX
  /\ written "Professional Summary:\s*"
       (header_pattern "Professional Summary:")
  /\ written "AREAS OF EXPERTISE:\s*" (header_pattern "AREAS OF EXPERTISE:")
  /\ written "Educational:\s*" (header_pattern "Educational:")
  /\ written "Professional Experience:\s*"
       (header_pattern "Professional Experience:")
  /\ written "Educational Details:\s*"
       (header_pattern "Educational Details:")
  /\ written "Professional Summary:\s*(.*?)(?=Email:|Mobile:|\n\n|\Z)"
       SUMMARY_REGEX
  /\ written "^\s*([A-Za-z\s.&/-]+(?:Developer|Engineer|Manager|Analyst|Specialist|Architect)\s*)$"
       TITLE_REGEX
  /\ written "Front End Developer" FRONT_END_REGEX
  /\ written "\nClient\n" JOB_SPLIT
  /\ written "Client\s*\n\s*(.*?)\nTitle\s*\n\s*(.*?)\nDuration\s*\n\s*(.*?)\n"
       CLIENT_REGEX
  /\ written ",\s*([A-Za-z\s,]+(?:TX|WI|IL|MA|WA|MD|CA)\b)" LOCATION_REGEX
  /\ written "\nDescription:\s*The Charles Schwab Corporation is an American multinational financial services company.\n\s*Responsibilities:\n[\s\S]*?Environment:[\s\S]*?,\s*([A-Za-z\s,]+(?:TX|WI|IL|MA|WA|MD|CA)\b)"
       LOCATION_FALLBACK_REGEX
  /\ written "Responsibilities:\s*\n(.*?)(?=\nEnvironment:|\Z)"
       RESPONSIBILITIES_REGEX
  /\ written "^\s*[\•*-]\s*" BULLET_REGEX
  /\ written "Bachelor of Technology in (.*?) from (.*?),\s*(.*)" BTECH_REGEX
  /\ written "Masters from (.*?),\s*(.*?)\.\n\s*\((\w+\s+\d{4})\s*-\s*(\w+\s+\d{4})\)"
       MASTERS_REGEX
  /\ written "[,\;]+" SKILL_DELIMS
  /\ written "E-commerce Recommendation System\s*-\s*(.*?)(Link:\s*(.*?))?$"
       PROJECT_REGEX
  /\ written "(Python|TensorFlow|Pandas|React\.js|Node\.js|Express|MongoDB|HTML5|CSS3|SASS|JavaScript|TypeScript|Material-UI|React Redux|Cypress|Cyara|JSON|NPM|Axios|Bitbucket|Jira|AWS|Agile/Scrum)"
       TECH_REGEX.
Proof. repeat split; vm_compute; reflexivity. Qed.

(** ** Checking a property on every character *)

Lemma all_chars_complete (c : ascii) : In c all_chars.
Proof.
  unfold all_chars. rewrite <- (ascii_nat_embedding c).
  apply in_map. apply in_seq. pose proof (nat_ascii_bounded c). lia.
Qed.

Lemma forall_chars (f : ascii -> bool) :
  forallb f all_chars = true -> forall c, f c = true.
Proof.
  intros H c. rewrite forallb_forall in H. apply H, all_chars_complete.
Qed.

Lemma space_class (c : ascii) :
  cls_ok I_ false [CSp] c = true -> is_space c = true.
Proof.
  pose proof (forall_chars
                (fun c => implb (cls_ok I_ false [CSp] c) (is_space c))) as F.
  intros H. specialize (F eq_refl c). cbv beta in F. rewrite H in F.
  exact F.
Qed.

(** ** Header matches *)

Lemma header_match_fact (text : str) (w : string) (s : nat) (m : rmatch_obj) :
  s <= length text ->
  match_at I_ text (header_pattern w) s = Some m ->
  lit_at I_ (s2l w) text s = true
  /\ s + length (s2l w) <= m_end m <= length text
  /\ spaces_between text (s + length (s2l w)) (m_end m).
Proof.
  intros L H. destruct (match_at_span _ _ _ _ _ L H) as [S B].
  apply match_at_sound in H. destruct H as [_ M].
  unfold matches, header_pattern in M.
  change (seqs [word w; star space])
    with (Seq (lits (s2l w)) (Rep true 0 None (Cls false [CSp]))) in M.
  cbn [sem] in M. destruct M as [st1 [A I]].
  apply sem_lits in A. cbn [pos caps] in A. destruct A as [P [K Li]].
  change (iter (takes text (cls_ok I_ false [CSp])) 0 None 0 st1
               {| pos := m_end m; caps := m_caps m |}) in I.
  apply iter_takes in I. cbn [pos caps] in I. destruct I as [K2 [Q A]].
  split; [exact Li|]. split; [lia|].
  intros j J. rewrite <- P in J. destruct (A j J) as [c [C O]].
  exists c. split; [exact C|]. apply space_class. exact O.
Qed.

Lemma pattern_headers_fact (text : str) (name w : string) (h : header) :
  In (name, w) header_words ->
  In h (pattern_headers text name (header_pattern w)) ->
  header_fact text h /\ h_name h = name.
Proof.
  unfold pattern_headers. intros Hw H.
  apply in_map_iff in H. destruct H as [m [E H]]. subst h. cbn.
  unfold finditer in H.
  destruct (finditer_from_spec I_ text (header_pattern w)
              (S (length text)) 0) as [F _].
  rewrite Forall_forall in F. specialize (F m H).
  destruct F as [B [B2 M]].
  assert (L : m_start m <= length text) by lia.
  destruct (header_match_fact _ _ _ _ L M) as [Li [Bd Sp]].
  split; [|reflexivity].
  exists w. cbn. repeat split; auto; lia.
Qed.

Lemma collect_headers_fact (text : str) (h : header) :
  In h (collect_headers text) -> header_fact text h.
Proof.
  unfold collect_headers, header_patterns. intros H.
  apply in_flat_map in H. destruct H as [[name pat] [E H]].
  apply in_map_iff in E. destruct E as [[name' w] [E Hw]].
  cbn in E. inversion E; subst name' pat; clear E. cbn [fst snd] in H.
  apply (pattern_headers_fact _ _ _ _ Hw H).
Qed.

(** ** Two header literals do not overlap *)

Lemma lit_at_nth (fl : flags) (w text : str) (s j : nat) (p : ascii) :
  lit_at fl w text s = true ->
  nth_error w j = Some p ->
  exists c, char_at text (s + j) = Some c /\ lit_ok fl p c = true.
Proof.
  revert s j. induction w as [|q w IH]; intros s j L N.
  - destruct j; discriminate.
  - cbn [lit_at] in L.
    destruct (char_at text s) as [c|] eqn:C; [|discriminate].
    apply andb_prop in L. destruct L as [O L].
    destruct j as [|j]; cbn in N.
    + inversion N; subst q. exists c. rewrite Nat.add_0_r. auto.
    + destruct (IH (S s) j L N) as [c' [C' O']].
      exists c'. rewrite <- Nat.add_succ_comm. auto.
Qed.

Lemma clash_excludes (w1 w2 text : str) (s d : nat) :
  lit_at I_ w1 text s = true ->
  lit_at I_ w2 text (s + d) = true ->
  clash w1 w2 d = false.
Proof.
  intros L1 L2. unfold clash.
  destruct (existsb _ _) eqn:E; [|reflexivity]. exfalso.
  apply existsb_exists in E. destruct E as [j [_ E]].
  destruct (nth_error w1 (d + j)) as [p|] eqn:N1; [|discriminate].
  destruct (nth_error w2 j) as [q|] eqn:N2; [|discriminate].
  destruct (lit_at_nth _ _ _ _ _ _ L1 N1) as [c [C O]].
  destruct (lit_at_nth _ _ _ _ _ _ L2 N2) as [c' [C' O']].
  rewrite Nat.add_assoc in C. rewrite C in C'. inversion C'; subst c'.
  unfold lit_ok in O, O'. cbn in O, O'.
  apply Ascii.eqb_eq in O, O'. unfold eqc in E.
  rewrite O, O', Ascii.eqb_refl in E. discriminate.
Qed.

(** Of the five header literals, two different ones clash at any offset
    within the first, and one clashes with itself at any offset but 0. *)
Lemma header_words_clash :
  forallb
    (fun e1 : string * string =>
       forallb
         (fun e2 : string * string =>
            forallb
              (fun d =>
                 ((d =? 0) && String.eqb (fst e1) (fst e2))
                 || clash (s2l (snd e1)) (s2l (snd e2)) d)
              (seq 0 (length (s2l (snd e1)))))
         header_words)
    header_words = true.
Proof. vm_compute. reflexivity. Qed.

(** No header literal starts with a white-space character. *)
Lemma header_words_start :
  forallb
    (fun e : string * string =>
       forallb
         (fun c =>
            match s2l (snd e) with
            | p :: _ => negb (is_space c && lit_ok I_ p c)
            | [] => false
            end)
         all_chars)
    header_words = true.
Proof. vm_compute. reflexivity. Qed.

Lemma header_facts_apart (text : str) (a b : header) :
  header_fact text a -> header_fact text b ->
  h_start a <= h_start b < h_end a ->
  h_start a = h_start b /\ h_name a = h_name b.
Proof.
  intros [w1 [I1 [L1 [B1 [S1 _]]]]] [w2 [I2 [L2 [B2 [S2 _]]]]] O.
  pose proof header_words_clash as K. rewrite forallb_forall in K.
  specialize (K _ I1). rewrite forallb_forall in K. specialize (K _ I2).
  rewrite forallb_forall in K. cbn [fst snd] in K.
  destruct (Nat.lt_ge_cases (h_start b - h_start a) (length (s2l w1)))
    as [D|D].
  - specialize (K (h_start b - h_start a)).
    rewrite in_seq in K. specialize (K ltac:(lia)).
    rewrite (clash_excludes (s2l w1) (s2l w2) text (h_start a)) in K.
    + rewrite orb_false_r in K. apply andb_prop in K. destruct K as [K1 K2].
      apply Nat.eqb_eq in K1. apply String.eqb_eq in K2. split; [lia|auto].
    + exact L1.
    + replace (h_start a + (h_start b - h_start a)) with (h_start b) by lia.
      exact L2.
  - exfalso. destruct (S1 (h_start b) ltac:(lia)) as [c [C Sp]].
    pose proof header_words_start as W. rewrite forallb_forall in W.
    specialize (W _ I2). cbn [snd] in W.
    destruct (s2l w2) as [|p w2'] eqn:E2; [discriminate|].
    rewrite forallb_forall in W. specialize (W c (all_chars_complete c)).
    cbn [lit_at] in L2. rewrite C in L2. apply andb_prop in L2.
    destruct L2 as [O2 _]. rewrite Sp, O2 in W. discriminate.
Qed.

(** ** The collected headers start at distinct positions *)

Lemma header_word_nonempty (name w : string) :
  In (name, w) header_words -> 0 < length (s2l w).
Proof.
  intros H. pose proof header_words_start as W.
  rewrite forallb_forall in W. specialize (W _ H). cbn [snd] in W.
  destruct (s2l w); [discriminate|cbn; lia].
Qed.

Lemma header_fact_nonempty (text : str) (h : header) :
  header_fact text h -> h_start h < h_end h.
Proof.
  intros [w [I [_ [B _]]]]. apply header_word_nonempty in I. lia.
Qed.

Lemma increasing_nodup (l : list nat) : StronglySorted lt l -> NoDup l.
Proof.
  induction 1 as [|a l S IH F]; constructor; [|exact IH].
  intros I. rewrite Forall_forall in F. specialize (F a I). lia.
Qed.

Lemma pattern_headers_starts (text : str) (name w : string) :
  In (name, w) header_words ->
  NoDup (map h_start (pattern_headers text name (header_pattern w))).
Proof.
  intros Hw. apply increasing_nodup.
  assert (F : forall h, In h (pattern_headers text name (header_pattern w))
                        -> h_start h < h_end h).
  { intros h H. apply (pattern_headers_fact _ _ _ _ Hw) in H.
    apply header_fact_nonempty with (text := text). tauto. }
  unfold pattern_headers in *. unfold finditer in *.
  destruct (finditer_from_spec I_ text (header_pattern w)
              (S (length text)) 0) as [_ St].
  induction St as [|m ms St IH Fm]; cbn; constructor.
  - apply IH. intros h H. apply F. right. exact H.
  - rewrite Forall_forall in *. intros s Hs.
    apply in_map_iff in Hs. destruct Hs as [h [E Hh]]. subst s.
    apply in_map_iff in Hh. destruct Hh as [m' [E Hm']]. subst h. cbn.
    specialize (Fm m' Hm').
    specialize (F _ (or_introl eq_refl)). cbn in F. lia.
Qed.

Lemma table_headers_starts (text : str) (tbl : list (string * string)) :
  incl tbl header_words ->
  NoDup (map fst tbl) ->
  NoDup (map h_start
           (flat_map (fun e : string * string =>
                        pattern_headers text (fst e) (header_pattern (snd e)))
                     tbl)).
Proof.
  induction tbl as [|[name w] tbl IH]; intros Inc ND; [constructor|].
  cbn [flat_map fst snd]. rewrite map_app.
  assert (Hw : In (name, w) header_words) by (apply Inc; left; reflexivity).
  inversion ND as [|x l Nin ND']; subst.
  apply NoDup_app.
  - apply pattern_headers_starts. exact Hw.
  - apply IH; [intros e He; apply Inc; right; exact He|exact ND'].
  - intros s Hs Hs'.
    apply in_map_iff in Hs. destruct Hs as [a [Ea Ha]].
    apply in_map_iff in Hs'. destruct Hs' as [b [Eb Hb]].
    apply in_flat_map in Hb. destruct Hb as [[name' w'] [He Hb]].
    cbn [fst snd] in Hb.
    destruct (pattern_headers_fact _ _ _ _ Hw Ha) as [Fa Na].
    assert (Hw' : In (name', w') header_words) by (apply Inc; right; exact He).
    destruct (pattern_headers_fact _ _ _ _ Hw' Hb) as [Fb Nb].
    pose proof (header_fact_nonempty _ _ Fa) as La.
    destruct (header_facts_apart text a b Fa Fb ltac:(lia)) as [_ N].
    apply Nin. cbn [fst] in *. rewrite <- Na, N, Nb.
    apply in_map_iff. exists (name', w'). auto.
Qed.

Lemma flat_map_map {A B C : Type} (f : A -> B) (g : B -> list C)
  (l : list A) :
  flat_map g (map f l) = flat_map (fun x => g (f x)) l.
Proof. induction l as [|x l IH]; cbn; [reflexivity|]. rewrite IH. auto. Qed.

Lemma collect_headers_starts (text : str) :
  NoDup (map h_start (collect_headers text)).
Proof.
  unfold collect_headers, header_patterns. rewrite flat_map_map.
  cbn [fst snd]. apply table_headers_starts.
  - apply incl_refl.
  - vm_compute. repeat constructor; cbn; intuition discriminate.
Qed.

(** ** Sorting *)

Lemma header_lt_true (x y : header) :
  header_lt x y = true -> by_start x y.
Proof.
  unfold header_lt, by_start. intros H.
  apply orb_prop in H. destruct H as [H|H].
  - apply Nat.ltb_lt in H. lia.
  - apply andb_prop in H. destruct H as [H _]. apply Nat.eqb_eq in H. lia.
Qed.

Lemma header_lt_false (x y : header) :
  header_lt x y = false -> by_start y x.
Proof.
  unfold header_lt, by_start. intros H.
  apply orb_false_elim in H. destruct H as [H _].
  apply Nat.ltb_ge in H. exact H.
Qed.

Lemma insert_header_perm (x : header) (l : list header) :
  Permutation (x :: l) (insert_header x l).
Proof.
  induction l as [|y l IH]; cbn; [reflexivity|].
  destruct (header_lt x y); [reflexivity|].
  rewrite perm_swap. apply perm_skip. exact IH.
Qed.

Lemma insert_header_sorted (x : header) (l : list header) :
  StronglySorted by_start l -> StronglySorted by_start (insert_header x l).
Proof.
  induction 1 as [|y l S IH F]; cbn.
  - repeat constructor.
  - destruct (header_lt x y) eqn:E.
    + apply header_lt_true in E. constructor; [constructor; assumption|].
      constructor; [exact E|].
      eapply Forall_impl; [|exact F]. unfold by_start in *. intros; lia.
    + apply header_lt_false in E. constructor; [exact IH|].
      rewrite <- (insert_header_perm x l). constructor; assumption.
Qed.

Lemma sort_fold_spec (l acc : list header) :
  StronglySorted by_start acc ->
  Permutation (l ++ acc)
    (fold_left (fun acc x => insert_header x acc) l acc)
  /\ StronglySorted by_start
       (fold_left (fun acc x => insert_header x acc) l acc).
Proof.
  revert acc. induction l as [|x l IH]; intros acc S; cbn.
  - split; [reflexivity|exact S].
  - destruct (IH (insert_header x acc) (insert_header_sorted x acc S))
      as [P S'].
    split; [|exact S'].
    rewrite <- P. rewrite <- insert_header_perm.
    apply Permutation_middle.
Qed.

Lemma sort_headers_spec (l : list header) :
  Permutation l (sort_headers l) /\ StronglySorted by_start (sort_headers l).
Proof.
  unfold sort_headers.
  destruct (sort_fold_spec l [] (SSorted_nil _)) as [P S].
  rewrite app_nil_r in P. auto.
Qed.

(** ** The sorted headers are laid out one after the other *)

Lemma sorted_headers_laid_out (text : str) (hs : list header) :
  StronglySorted by_start hs ->
  NoDup (map h_start hs) ->
  Forall (header_fact text) hs ->
  laid_out text hs.
Proof.
  induction 1 as [|h rest S IH F]; intros ND Fa; cbn [laid_out]; [exact I|].
  inversion ND as [|x l Nin ND']; subst.
  inversion Fa as [|x l Fh Fr]; subst.
  pose proof (header_fact_nonempty _ _ Fh) as Lh.
  destruct Fh as [w [Iw [Lw [Bw [Sw Tw]]]]].
  repeat split; auto.
  - destruct rest as [|h' rest']; cbn; [lia|].
    inversion F as [|x l B _]; subst. unfold by_start in B.
    inversion Fr as [|x l Fh' _]; subst.
    destruct (Nat.lt_ge_cases (h_start h') (h_end h)) as [O|O]; [|exact O].
    exfalso.
    assert (Fh : header_fact text h) by (exists w; auto).
    destruct (header_facts_apart text h h' Fh Fh' ltac:(lia)) as [E _].
    apply Nin. cbn. left. auto.
  - destruct rest as [|h' rest']; cbn; [lia|].
    inversion Fr as [|x l [w' [_ [_ [B' _]]]] _]; subst. lia.
Qed.

Lemma header_matches_laid_out (text : str) :
  laid_out text (header_matches text).
Proof.
  unfold header_matches.
  destruct (sort_headers_spec (collect_headers text)) as [P S].
  apply sorted_headers_laid_out; [exact S| |].
  - apply (Permutation_NoDup (Permutation_map h_start P)).
    apply collect_headers_starts.
  - apply (Permutation_Forall P). apply Forall_forall.
    apply collect_headers_fact.
Qed.

(** ** Headers and regions make up the rest of the document *)

Lemma skipn_slice (a b : nat) (t : str) :
  a <= b -> skipn a t = slice a b t ++ skipn b t.
Proof.
  intros L. unfold slice. replace b with ((b - a) + a) at 2 by lia.
  rewrite <- skipn_skipn. symmetry. apply firstn_skipn.
Qed.

Lemma laid_out_concat (text : str) (hs : list header) :
  laid_out text hs ->
  skipn (next_start text hs) text
  = concat (map (fun p => h_text (fst p) ++ snd p) (regions text hs)).
Proof.
  induction hs as [|h rest IH]; cbn [laid_out regions map concat next_start].
  - intros _. apply skipn_all.
  - intros [L1 [L2 [L3 [T Lr]]]]. cbn [fst snd]. unfold region_of.
    rewrite T, <- (IH Lr), <- app_assoc.
    rewrite <- (skipn_slice _ _ _ L2).
    apply skipn_slice. lia.
Qed.

(** ** Every occurrence of a header literal is a recognised header *)

Section Complete.

Variable fl : flags.
Variable text : str.

Lemma lit_at_cons (c : ascii) (s : str) (i : nat) :
  lit_at fl (c :: s) text i
  = match char_at text i with
    | Some x => lit_ok fl c x && lit_at fl s text (S i)
    | None => false
    end.
Proof. reflexivity. Qed.

(** The matcher on a run of literals, as an equation. *)
Lemma rmatch_lits (s : str) (k : mstate -> option mstate) (st : mstate) :
  rmatch fl text (lits s) k st
  = if lit_at fl s text (pos st)
    then k {| pos := pos st + length s; caps := caps st |}
    else None.
Proof.
  revert k st. induction s as [|c s IH]; intros k st.
  - cbn. rewrite Nat.add_0_r. destruct st. reflexivity.
  - assert (One : forall k st,
              rmatch fl text (Lit c) k st
              = match char_at text (pos st) with
                | Some x => if lit_ok fl c x then k (advance st) else None
                | None => None
                end) by reflexivity.
    destruct s as [|c2 s2].
    + cbn [lits lit_at length]. rewrite One.
      destruct (char_at text (pos st)) as [x|]; [|reflexivity].
      destruct (lit_ok fl c x); [|reflexivity]. cbn [andb].
      unfold advance. rewrite Nat.add_1_r. reflexivity.
    + change (lits (c :: c2 :: s2)) with (Seq (Lit c) (lits (c2 :: s2))).
      cbn [rmatch]. change (step_if text (lit_ok fl c))
        with (rmatch fl text (Lit c)). rewrite One.
      rewrite (lit_at_cons c (c2 :: s2)).
      destruct (char_at text (pos st)) as [x|]; [|reflexivity].
      destruct (lit_ok fl c x); [|reflexivity]. cbn [andb].
      rewrite IH. unfold advance. cbn [pos caps].
      destruct (lit_at fl (c2 :: s2) text (S (pos st))); [|reflexivity].
      f_equal. f_equal. cbn [length]. lia.
Qed.

(** A greedy [r*] before the end of the pattern never fails. *)
Lemma star_never_fails
  (body : (mstate -> option mstate) -> mstate -> option mstate)
  (fuel i : nat) (st : mstate) :
  rep_loop body true 0 None Some (S fuel) i st <> None.
Proof.
  cbn [rep_loop]. cbn [Nat.leb].
  destruct (if under None i then _ else None); discriminate.
Qed.

Lemma search_from_complete (r : regex) (n start s : nat) (m : rmatch_obj) :
  start <= s < start + n ->
  match_at fl text r s = Some m ->
  exists m0, search_from fl text r n start = Some m0 /\ m_start m0 <= s.
Proof.
  revert start. induction n as [|n IH]; intros start B M; [lia|].
  cbn [search_from].
  destruct (match_at fl text r start) as [m0|] eqn:A.
  - exists m0. split; [reflexivity|].
    apply match_at_sound in A. destruct A as [E _]. lia.
  - destruct (Nat.eq_dec start s) as [E|E]; [subst s; congruence|].
    apply IH; [lia|exact M].
Qed.

(** A position where the pattern matches lies in one of the matches that
    [finditer] lists, or is the start of one. *)
Lemma finditer_from_covers (r : regex) (fuel start s : nat) (m : rmatch_obj) :
  S (length text) - start <= fuel ->
  start <= s <= length text ->
  match_at fl text r s = Some m ->
  exists m0, In m0 (finditer_from fl text r fuel start)
             /\ m_start m0 <= s
             /\ (s < m_end m0 \/ s = m_start m0).
Proof.
  revert start. induction fuel as [|fuel IH]; intros start L B M; [lia|].
  cbn [finditer_from]. unfold search_at.
  destruct (search_from_complete r (S (length text) - start) start s m
              ltac:(lia) M) as [m0 [S0 L0]].
  rewrite S0. apply search_from_sound in S0. destruct S0 as [B0 M0].
  assert (Lm : m_start m0 <= length text) by lia.
  destruct (match_at_span fl text r (m_start m0) m0 Lm M0) as [_ E0].
  destruct (Nat.lt_ge_cases s (m_end m0)) as [C|C].
  - exists m0. split; [left; reflexivity|]. auto.
  - destruct (Nat.eq_dec s (m_start m0)) as [Q|Q].
    + exists m0. split; [left; reflexivity|]. auto.
    + destruct (IH (if m_end m0 =? m_start m0 then S (m_end m0)
                    else m_end m0) ) as [m1 [I1 P1]].
      * destruct (m_end m0 =? m_start m0) eqn:Z;
          [apply Nat.eqb_eq in Z|apply Nat.eqb_neq in Z]; lia.
      * destruct (m_end m0 =? m_start m0) eqn:Z;
          [apply Nat.eqb_eq in Z|apply Nat.eqb_neq in Z]; lia.
      * exact M.
      * exists m1. split; [right; exact I1|exact P1].
Qed.

End Complete.

Lemma header_pattern_matches (text : str) (w : string) (s : nat) :
  lit_at I_ (s2l w) text s = true ->
  exists m, match_at I_ text (header_pattern w) s = Some m.
Proof.
  intros L. unfold match_at, header_pattern.
  change (seqs [word w; star space])
    with (Seq (lits (s2l w)) (Rep true 0 None (Cls false [CSp]))).
  cbn [rmatch]. rewrite rmatch_lits. cbn [pos caps]. rewrite L.
  cbn [pos Nat.add]. rewrite Nat.add_0_r.
  destruct (rep_loop _ true 0 None Some _ 0 _) as [st|] eqn:E.
  - eexists. reflexivity.
  - exfalso. revert E. apply star_never_fails.
Qed.

Lemma lit_at_within (fl : flags) (w text : str) (s : nat) :
  w <> [] -> lit_at fl w text s = true -> s < length text.
Proof.
  destruct w as [|c w]; [congruence|]. intros _. cbn [lit_at].
  destruct (char_at text s) as [x|] eqn:C; [|discriminate].
  intros _. apply char_at_lt in C. exact C.
Qed.

(** The recognised headers are the occurrences of the five header
    literals: each of them is one, and each occurrence is among them. *)
Lemma header_matches_exact (text : str) :
  Forall (header_fact text) (header_matches text)
  /\ forall name w s,
       In (name, w) header_words ->
       lit_at I_ (s2l w) text s = true ->
       exists h, In h (header_matches text)
                 /\ h_start h = s /\ h_name h = name.
Proof.
  unfold header_matches.
  destruct (sort_headers_spec (collect_headers text)) as [P _].
  split.
  - apply (Permutation_Forall P). apply Forall_forall.
    apply collect_headers_fact.
  - intros name w s Hw L.
    assert (Ne : s2l w <> []).
    { pose proof (header_word_nonempty _ _ Hw). destruct (s2l w);
        [cbn in *; lia|discriminate]. }
    pose proof (lit_at_within _ _ _ _ Ne L) as Ls.
    destruct (header_pattern_matches text w s L) as [m M].
    destruct (finditer_from_covers I_ text (header_pattern w)
                (S (length text)) 0 s m ltac:(lia) ltac:(lia) M)
      as [m0 [I0 [P0 C0]]].
    set (h := {| h_start := m_start m0; h_end := m_end m0; h_name := name;
                 h_text := group0 text m0 |}).
    assert (Ih : In h (pattern_headers text name (header_pattern w))).
    { unfold pattern_headers. apply in_map_iff. exists m0.
      split; [reflexivity|exact I0]. }
    destruct (pattern_headers_fact _ _ _ _ Hw Ih) as [Fh _].
    exists h. split; [|split; [|reflexivity]].
    + apply (Permutation_in _ P). unfold collect_headers, header_patterns.
      apply in_flat_map. exists (name, header_pattern w).
      split; [|exact Ih].
      apply in_map_iff. exists (name, w). split; [reflexivity|exact Hw].
    + cbn. destruct C0 as [C0|C0]; [|lia].
      (* the occurrence cannot lie inside another header *)
      assert (Fs : header_fact text
                     {| h_start := s; h_end := s + length (s2l w);
                        h_name := name; h_text := slice s (s + length (s2l w)) text |}).
      { exists w. cbn. repeat split; auto; try lia.
        - pose proof (lit_at_nth I_ (s2l w) text s (length (s2l w) - 1)) as X.
          destruct (nth_error (s2l w) (length (s2l w) - 1)) as [p|] eqn:N.
          + destruct (X p L eq_refl) as [c [C _]]. apply char_at_lt in C.
            pose proof (header_word_nonempty _ _ Hw). lia.
          + apply nth_error_None in N.
            pose proof (header_word_nonempty _ _ Hw). lia.
        - intros j J. lia. }
      destruct (header_facts_apart text h _ Fh Fs) as [Q _]; cbn; [lia|].
      cbn in Q. exact Q.
Qed.

(** ** Dictionaries *)

Lemma dict_get_set {V : Type} (k k' : string) (v : V) (d : dict V) :
  dict_get k (dict_set k' v d)
  = if String.eqb k k' then Some v else dict_get k d.
Proof.
  induction d as [|[k0 v0] d IH]; cbn.
  - reflexivity.
  - destruct (String.eqb k' k0) eqn:E0; cbn.
    + apply String.eqb_eq in E0. subst k0.
      destruct (String.eqb k k'); reflexivity.
    + rewrite IH. destruct (String.eqb k k0) eqn:E1; [|reflexivity].
      apply String.eqb_eq in E1. subst k0.
      rewrite String.eqb_sym, E0. reflexivity.
Qed.

Lemma is_empty_false (s : str) : s <> [] -> is_empty s = false.
Proof. destruct s; [congruence|reflexivity]. Qed.

Lemma is_empty_true (s : str) : is_empty s = true -> s = [].
Proof. destruct s; [reflexivity|discriminate]. Qed.

(** ** The loop of the segmenter as a fold over the contents *)

Lemma assign_sections_contents (text : str) (hs : list header)
  (sd : dict str) :
  assign_sections text hs sd = assign_all (contents text hs) sd.
Proof.
  revert sd. induction hs as [|h rest IH]; intros sd; cbn; auto.
Qed.

Lemma contents_regions (text : str) (hs : list header) :
  contents text hs
  = map (fun p => (h_name (fst p), strip (snd p))) (regions text hs).
Proof.
  induction hs as [|h rest IH]; cbn; [reflexivity|]. rewrite IH.
  reflexivity.
Qed.

(** Every block is empty or the stripped text of a region. *)
Lemma assign_content_values (P : str -> Prop) (name : string) (c : str)
  (sd : dict str) :
  P c ->
  (forall key v, dict_get key sd = Some v -> v = [] \/ P v) ->
  forall key v, dict_get key (assign_content name c sd) = Some v ->
                v = [] \/ P v.
Proof.
  intros Pc Inv key v. unfold assign_content.
  destruct (String.eqb name "educational_details_bottom").
  - destruct (dict_get "educational" sd) as [old|]; [|apply Inv].
    destruct (is_empty old); [|apply Inv].
    rewrite dict_get_set. destruct (String.eqb key "educational").
    + intros E. inversion E; subst. auto.
    + apply Inv.
  - rewrite dict_get_set. destruct (String.eqb key name).
    + intros E. inversion E; subst. auto.
    + apply Inv.
Qed.

Lemma assign_all_values (P : str -> Prop) (cs : list (string * str))
  (sd : dict str) :
  (forall p, In p cs -> P (snd p)) ->
  (forall key v, dict_get key sd = Some v -> v = [] \/ P v) ->
  forall key v, dict_get key (assign_all cs sd) = Some v -> v = [] \/ P v.
Proof.
  revert sd. induction cs as [|p cs IH]; intros sd Hc Inv; cbn; [exact Inv|].
  apply IH.
  - intros q Hq. apply Hc. right. exact Hq.
  - apply assign_content_values; [apply Hc; left; reflexivity|exact Inv].
Qed.

Lemma empty_sections_values (key : string) (v : str) :
  dict_get key empty_sections = Some v -> v = [].
Proof.
  unfold empty_sections. cbn.
  repeat (destruct (String.eqb key _);
          [intros E; inversion E; reflexivity|]).
  discriminate.
Qed.

(** The text before the first header touches the summary only. *)
Lemma intro_summary_other (text : str) (hs : list header) (sd : dict str)
  (key : string) :
  key <> "professional_summary" ->
  dict_get key (intro_summary text hs sd) = dict_get key sd.
Proof.
  intros N. apply String.eqb_neq in N. unfold intro_summary.
  destruct hs as [|h hs]; [reflexivity|].
  destruct (search S_I SUMMARY_REGEX _).
  - rewrite dict_get_set, N. reflexivity.
  - destruct (10 <? _); [|reflexivity].
    rewrite dict_get_set, N. reflexivity.
Qed.

(** C1, refuted as stated: with two headers the blocks are "a" and "b",
    and the text from the end of the first header to the end of the
    document is not their concatenation, since the second header lies
    between them. *)
Lemma blocks_do_not_make_up_the_rest :
  map h_end (header_matches two_sections) = [13; 40]
  /\ blocks_in_order two_sections = [s2l "a"; s2l "b"]
  /\ skipn 13 two_sections = s2l "a Professional Experience: b"
  /\ concat (blocks_in_order two_sections) <> skipn 13 two_sections.
Proof.
  repeat split; try (vm_compute; reflexivity).
  vm_compute. discriminate.
Qed.

(** ** Which occurrence of a header gives a section its block *)

Lemma assign_all_app (c1 c2 : list (string * str)) (sd : dict str) :
  assign_all (c1 ++ c2) sd = assign_all c2 (assign_all c1 sd).
Proof. apply fold_left_app. Qed.

(** A block stays as it is through the later headers, when none of them
    has the section's own name and, for the educational block, it is not
    empty or no "Educational Details:" header follows. *)
Lemma assign_all_keeps (cs : list (string * str)) (sd : dict str)
  (key : string) (c : str) :
  dict_get key sd = Some c ->
  key <> "educational_details_bottom" ->
  (forall x, ~ In (key, x) cs) ->
  (key = "educational" ->
   c <> [] \/ forall x, ~ In ("educational_details_bottom", x) cs) ->
  dict_get key (assign_all cs sd) = Some c.
Proof.
  revert sd. induction cs as [|[n x] cs IH]; intros sd G Nd No Ed; cbn;
    [exact G|].
  apply IH.
  - unfold assign_content. cbn [fst snd].
    destruct (String.eqb n "educational_details_bottom") eqn:D.
    + apply String.eqb_eq in D. subst n.
      destruct (dict_get "educational" sd) as [old|] eqn:O; [|exact G].
      destruct (is_empty old) eqn:Em; [|exact G].
      rewrite dict_get_set.
      destruct (String.eqb key "educational") eqn:K; [|exact G].
      apply String.eqb_eq in K. subst key. exfalso.
      rewrite O in G. inversion G; subst old.
      destruct (Ed eq_refl) as [Ne|Nx].
      * apply is_empty_true in Em. contradiction.
      * apply (Nx x). left. reflexivity.
    + rewrite dict_get_set.
      destruct (String.eqb key n) eqn:K; [|exact G].
      apply String.eqb_eq in K. subst n. exfalso.
      apply (No x). left. reflexivity.
  - exact Nd.
  - intros y Hy. apply (No y). right. exact Hy.
  - intros E. destruct (Ed E) as [Ne|Nx]; [left; exact Ne|right].
    intros y Hy. apply (Nx y). right. exact Hy.
Qed.

(** The educational block is still empty after headers whose educational
    blocks are all empty. *)
Lemma assign_all_still_empty (cs : list (string * str)) (sd : dict str) :
  dict_get "educational" sd = Some [] ->
  (forall n x, In (n, x) cs ->
               n = "educational" \/ n = "educational_details_bottom" ->
               x = []) ->
  dict_get "educational" (assign_all cs sd) = Some [].
Proof.
  revert sd. induction cs as [|[n x] cs IH]; intros sd G E; cbn; [exact G|].
  apply IH.
  - unfold assign_content. cbn [fst snd].
    destruct (String.eqb n "educational_details_bottom") eqn:D.
    + apply String.eqb_eq in D. subst n.
      pose proof (E _ x (or_introl eq_refl) (or_intror eq_refl)) as X.
      subst x. rewrite G. cbn [is_empty eqs]. rewrite dict_get_set.
      reflexivity.
    + rewrite dict_get_set.
      destruct (String.eqb "educational" n) eqn:K; [|exact G].
      apply String.eqb_eq in K. subst n.
      pose proof (E _ x (or_introl eq_refl) (or_introl eq_refl)) as X.
      subst x. reflexivity.
  - intros m y H. apply E. right. exact H.
Qed.

(** An "Educational Details:" header met while the educational block is
    not empty changes nothing. *)
Lemma details_skipped (c old : str) (sd : dict str) :
  dict_get "educational" sd = Some old -> old <> [] ->
  assign_content "educational_details_bottom" c sd = sd.
Proof.
  intros G N. unfold assign_content. cbn [String.eqb Ascii.eqb Bool.eqb].
  rewrite G, (is_empty_false _ N). reflexivity.
Qed.

(** C6 (as the code has it): among the headers of a text, in document
    order, an occurrence of a section's own header sets the block whatever
    it held, so the last such occurrence gives the block (for the
    educational block: unless that is empty and an "Educational Details:"
    header follows); an "Educational Details:" occurrence gives the
    educational block when the block is still empty where it stands and
    no "Educational:" header follows; and it is passed over, the result
    being that of the other headers alone, when the block is not empty
    where it stands. *)
Theorem last_own_header_wins (text : str) (c1 c2 : list (string * str))
  (name : string) (c : str) :
  contents text (header_matches text) = c1 ++ (name, c) :: c2 ->
  (name <> "educational_details_bottom" ->
   name <> "professional_summary" ->
   (forall x, ~ In (name, x) c2) ->
   (name = "educational" ->
    c <> [] \/ forall x, ~ In ("educational_details_bottom", x) c2) ->
   dict_get name (section_text text) = Some c)
  /\ (name = "educational_details_bottom" ->
      dict_get "educational" (assign_all c1 empty_sections) = Some [] ->
      (forall x, ~ In ("educational", x) c2) ->
      (c <> [] \/ forall x, ~ In ("educational_details_bottom", x) c2) ->
      dict_get "educational" (section_text text) = Some c)
  /\ (name = "educational_details_bottom" ->
      forall old,
        dict_get "educational" (assign_all c1 empty_sections) = Some old ->
        old <> [] ->
        assign_sections text (header_matches text) empty_sections
        = assign_all (c1 ++ c2) empty_sections).
Proof.
  intros C. split; [|split].
  - intros Nd Ns No Ed. unfold section_text.
    rewrite intro_summary_other by exact Ns.
    rewrite assign_sections_contents, C, assign_all_app.
    cbn [assign_all fold_left fst snd].
    apply assign_all_keeps.
    + unfold assign_content. apply String.eqb_neq in Nd. rewrite Nd.
      rewrite dict_get_set, String.eqb_refl. reflexivity.
    + exact Nd.
    + exact No.
    + exact Ed.
  - intros D E1 No Ed. subst name. unfold section_text.
    rewrite intro_summary_other by (apply String.eqb_neq; reflexivity).
    rewrite assign_sections_contents, C, assign_all_app.
    cbn [assign_all fold_left fst snd].
    apply assign_all_keeps.
    + unfold assign_content. cbn [String.eqb Ascii.eqb Bool.eqb].
      fold (assign_all c1 empty_sections). rewrite E1.
      cbn [is_empty eqs]. rewrite dict_get_set. reflexivity.
    + apply String.eqb_neq. reflexivity.
    + exact No.
    + intros _. exact Ed.
  - intros D old G N. subst name.
    rewrite assign_sections_contents, C, !assign_all_app.
    cbn [assign_all fold_left fst snd].
    fold (assign_all c1 empty_sections).
    rewrite (details_skipped c old _ G N). reflexivity.
Qed.

Lemma last_own_header_wins_witness :
  dict_get "educational" (section_text education_twice) = Some (s2l "B")
  /\ dict_get "educational"
       (section_text
          (s2l "Educational: A Educational: Educational Details: C"))
     = Some (s2l "C").
Proof.
  split.
  - refine (proj1 (last_own_header_wins education_twice
                     [("educational", s2l "A")] [] "educational" (s2l "B")
                     _) _ _ _ _).
    + vm_compute. reflexivity.
    + apply String.eqb_neq. reflexivity.
    + apply String.eqb_neq. reflexivity.
    + intros x H. exact H.
    + intros _. left. discriminate.
  - refine (proj1 (proj2 (last_own_header_wins
                     (s2l "Educational: A Educational: Educational Details: C")
                     [("educational", s2l "A"); ("educational", [])] []
                     "educational_details_bottom" (s2l "C") _)) _ _ _ _).
    + vm_compute. reflexivity.
    + reflexivity.
    + vm_compute. reflexivity.
    + intros x H. exact H.
    + left. discriminate.
Defined.

(** C6, refuted as stated: the header "Educational:" occurs twice, the
    first occurrence is followed by "A", and the educational block is the
    "B" that follows the second. *)
Lemma first_occurrence_does_not_win :
  contents education_twice (header_matches education_twice)
  = [("educational", s2l "A"); ("educational", s2l "B")]
  /\ dict_get "educational" (section_text education_twice) = Some (s2l "B")
  /\ dict_get "educational" (section_text education_twice)
     <> Some (s2l "A").
Proof.
  repeat split; try (vm_compute; reflexivity).
  vm_compute. discriminate.
Qed.

(** ** Job blocks that lack the Client, Title and Duration fields *)

Lemma experience_step_appends (experiences : list (dict value))
  (block : str) :
  experience_step experiences block
  = experiences ++ experience_step [] block.
Proof.
  unfold experience_step. destruct (eqs (strip block) []).
  - rewrite app_nil_r. reflexivity.
  - destruct (job_of_block (strip block)).
    + rewrite app_nil_r. reflexivity.
    + reflexivity.
Qed.

Lemma experience_loop_appends (blocks : list str)
  (experiences : list (dict value)) :
  fold_left experience_step blocks experiences
  = experiences ++ flat_map (experience_step []) blocks.
Proof.
  revert experiences. induction blocks as [|b blocks IH]; intros acc; cbn.
  - rewrite app_nil_r. reflexivity.
  - rewrite IH, experience_step_appends, <- app_assoc. reflexivity.
Qed.

Lemma no_responsibilities_in_empty :
  search S_I RESPONSIBILITIES_REGEX [] = None.
Proof. vm_compute. reflexivity. Qed.

(** C4 (as the code has it): the entries are those of the blocks, block
    by block in order, so that no block stops the later ones; a block on
    which the Client, Title and Duration pattern fails gives no entry when
    the Responsibilities pattern fails on it too, and otherwise gives an
    entry that holds the responsibilities alone. *)
Theorem failed_block_and_later_blocks :
  (forall experience_text,
     parse_experience experience_text
     = flat_map (experience_step [])
                (re_split I_ JOB_SPLIT experience_text))
  /\ (forall block,
        search S_I CLIENT_REGEX (strip block) = None ->
        search S_I RESPONSIBILITIES_REGEX (strip block) = None ->
        experience_step [] block = [])
  /\ (forall block m,
        search S_I CLIENT_REGEX (strip block) = None ->
        search S_I RESPONSIBILITIES_REGEX (strip block) = Some m ->
        experience_step [] block
        = [ [ ("Responsibilities",
                VList (responsibilities_of
                         (strip (group (strip block) 1 m)))) ] ]).
Proof.
  split; [|split].
  - intros t. unfold parse_experience. apply experience_loop_appends.
  - intros block C R. unfold experience_step, job_of_block.
    rewrite C, R. destruct (eqs (strip block) []); reflexivity.
  - intros block m C R. unfold experience_step, job_of_block.
    rewrite C, R. destruct (strip block) as [|x s] eqn:E.
    + rewrite no_responsibilities_in_empty in R. discriminate.
    + reflexivity.
Qed.

Lemma failed_block_and_later_blocks_witness :
  experience_step [] (s2l "no fields in this block") = [].
Proof.
  apply (proj1 (proj2 failed_block_and_later_blocks));
    vm_compute; reflexivity.
Defined.

(** C4, refuted as stated: a block on which the Client, Title and Duration
    pattern fails still gives an entry. *)
Lemma failed_block_gives_an_entry :
  re_split I_ JOB_SPLIT responsibilities_only = [responsibilities_only]
  /\ search S_I CLIENT_REGEX (strip responsibilities_only) = None
  /\ parse_experience responsibilities_only
     = [ [ ("Responsibilities", VList [s2l "did x"]) ] ].
Proof. repeat split; vm_compute; reflexivity. Qed.

(** ** Groups and repetitions *)

Section Groups.

Variable fl : flags.
Variable text : str.

Lemma iter_same_caps (R : mstate -> mstate -> Prop) lo hi i st st' :
  (forall a b, R a b -> caps b = caps a) ->
  iter R lo hi i st st' -> caps st' = caps st.
Proof.
  intros HR H. induction H as [i st L|i st st1 st2 U R1 P I IH]; auto.
  apply HR in R1. congruence.
Qed.

(** A pattern without groups leaves the group spans as they are. *)
Lemma sem_nocap (r : regex) (st st' : mstate) :
  nocap r = true -> sem fl text r st st' -> caps st' = caps st.
Proof.
  revert st st'.
  induction r as [ |p|neg items| |a IHa b IHb|a IHa b IHb
                 |greedy lo hi r IH|n r IH|r IH| | | | ];
    intros st st' N H; cbn [sem nocap] in *;
    try (unfold takes in H; destruct H as (c & _ & _ & E); subst st';
         reflexivity);
    try (unfold holds in H; destruct H as (_ & E); subst st'; reflexivity).
  - subst st'. reflexivity.
  - apply andb_prop in N. destruct N as [Na Nb].
    destruct H as [st1 [A B]].
    rewrite (IHb _ _ Nb B). apply (IHa _ _ Na A).
  - apply andb_prop in N. destruct N as [Na Nb].
    destruct H as [A|B]; auto.
  - apply (iter_same_caps _ _ _ _ _ _ (fun a b => IH a b N) H).
  - discriminate.
  - destruct H as [st1 [A E]]. subst st'. cbn. apply (IH _ _ N A).
Qed.

(** An optional pattern matches nothing or matches once. *)
Lemma iter_opt (R : mstate -> mstate -> Prop) (st st' : mstate) :
  iter R 0 (Some 1) 0 st st' -> st' = st \/ R st st'.
Proof.
  intros H. inversion H as [i s L|i s st1 s2 U R1 P I]; subst; [auto|].
  right. inversion I as [i s L|i s st3 s2 U' R2 P' I']; subst; [exact R1|].
  discriminate.
Qed.

(** A repetition of a one-character pattern takes its minimum at least. *)
Lemma iter_takes_min (ok : ascii -> bool) lo hi i st st' :
  iter (takes text ok) lo hi i st st' -> pos st + (lo - i) <= pos st'.
Proof.
  intros H. induction H as [i st L|i st st1 st2 U R1 P I IH]; [lia|].
  destruct R1 as [c [_ [_ E]]]. subst st1. cbn in IH. lia.
Qed.

(** After the iterations of a group, the group holds the span of the last
    iteration and the other groups are as before. *)
Lemma iter_group (n : nat) (r : regex) lo hi i st st' :
  nocap r = true ->
  iter (sem fl text (Grp n r)) lo hi i st st' ->
  (st' = st /\ lo <= i)
  \/ exists x z,
       pos st <= pos x /\ sem fl text r x z /\ pos z = pos st'
       /\ get_cap n (caps st') = Some (pos x, pos z)
       /\ forall j, j <> n -> get_cap j (caps st') = get_cap j (caps st).
Proof.
  intros N H. induction H as [i st L|i st st1 st2 U R1 P I IH]; [auto|].
  right. cbn [sem] in R1. destruct R1 as [y [A E]].
  pose proof (sem_nocap _ _ _ N A) as K.
  pose proof (sem_forward _ _ _ _ _ A) as F. unfold forward in F.
  assert (Other : forall j, j <> n ->
            get_cap j (caps st1) = get_cap j (caps st)).
  { intros j J. subst st1. cbn. apply Nat.eqb_neq in J. rewrite J, K.
    reflexivity. }
  destruct IH as [[E2 _]|[x [z [Px [Sx [Pz [G O]]]]]]].
  - subst st2. exists st, y. subst st1. cbn.
    rewrite Nat.eqb_refl. repeat split; auto.
  - exists x, z. repeat split; auto.
    + subst st1. cbn in Px. lia.
    + intros j J. rewrite (O j J). apply Other. exact J.
Qed.

End Groups.

(** ** Stripping *)

Lemma lstrip_id (s : str) :
  match s with c :: _ => is_space c = false | [] => True end ->
  lstrip s = s.
Proof. destruct s as [|c s]; cbn; [auto|]. intros H. rewrite H. auto. Qed.

Lemma lstrip_length (s : str) : length (lstrip s) <= length s.
Proof.
  induction s as [|c s IH]; cbn; [lia|].
  destruct (is_space c); cbn; lia.
Qed.

Lemma strip_length (s : str) : length (strip s) <= length s.
Proof.
  unfold strip, rstrip. rewrite length_rev.
  etransitivity; [apply lstrip_length|]. rewrite length_rev.
  apply lstrip_length.
Qed.

(** A text that starts and ends with a character that is not white space
    is its own [strip]. *)
Lemma strip_id (a b : ascii) (s t : str) :
  is_space a = false -> is_space b = false ->
  a :: s = t ++ [b] -> strip (a :: s) = a :: s.
Proof.
  intros A B E. unfold strip, rstrip.
  rewrite (lstrip_id (a :: s)) by exact A.
  rewrite E, rev_app_distr. cbn [rev app].
  rewrite lstrip_id by exact B.
  change (b :: rev t) with ([b] ++ rev t).
  rewrite rev_app_distr, rev_involutive. reflexivity.
Qed.

(** ** Slices *)

Lemma skipn_nth (t : str) (a : nat) (x : ascii) :
  char_at t a = Some x -> skipn a t = x :: skipn (S a) t.
Proof.
  unfold char_at. revert t. induction a as [|a IH]; intros [|y t] H;
    try discriminate.
  - cbn in H. inversion H. reflexivity.
  - cbn in H. rewrite skipn_cons. rewrite (IH t H). reflexivity.
Qed.

Lemma firstn_plus (n k : nat) (l : str) :
  firstn (n + k) l = firstn n l ++ firstn k (skipn n l).
Proof.
  revert l. induction n as [|n IH]; intros [|y l]; cbn; auto.
  - destruct k; reflexivity.
  - rewrite IH. reflexivity.
Qed.

Lemma slice_app (a m b : nat) (t : str) :
  a <= m -> m <= b -> slice a b t = slice a m t ++ slice m b t.
Proof.
  intros L1 L2. unfold slice.
  replace (b - a) with ((m - a) + (b - m)) by lia.
  rewrite firstn_plus, skipn_skipn.
  replace (m - a + a) with m by lia. reflexivity.
Qed.

Lemma slice_one (a : nat) (t : str) (x : ascii) :
  char_at t a = Some x -> slice a (S a) t = [x].
Proof.
  intros H. unfold slice. rewrite (skipn_nth _ _ _ H).
  replace (S a - a) with 1 by lia. reflexivity.
Qed.

Lemma slice_first (a b : nat) (t : str) (x : ascii) :
  a < b -> char_at t a = Some x -> slice a b t = x :: slice (S a) b t.
Proof.
  intros L H. rewrite (slice_app a (S a) b) by lia.
  rewrite (slice_one _ _ _ H). reflexivity.
Qed.

Lemma slice_last (a b : nat) (t : str) (y : ascii) :
  a < b -> char_at t (b - 1) = Some y ->
  slice a b t = slice a (b - 1) t ++ [y].
Proof.
  intros L H. rewrite (slice_app a (b - 1) b) by lia.
  replace (slice (b - 1) b t) with (slice (b - 1) (S (b - 1)) t)
    by (f_equal; lia).
  rewrite (slice_one _ _ _ H). reflexivity.
Qed.

Lemma slice_length (a b : nat) (t : str) :
  b <= length t -> length (slice a b t) = b - a.
Proof.
  intros L. unfold slice. rewrite length_firstn, length_skipn. lia.
Qed.

(** ** The shape of a website match *)

Lemma lit_h_nonspace (c : ascii) :
  lit_ok I_ "h" c = true -> is_space c = false.
Proof.
  pose proof (forall_chars
    (fun c => implb (lit_ok I_ "h" c) (negb (is_space c))) eq_refl c) as F.
  cbv beta in F. intros H. rewrite H in F. cbn in F.
  destruct (is_space c); [discriminate|reflexivity].
Qed.

Lemma lit_w_nonspace (c : ascii) :
  lit_ok I_ "w" c = true -> is_space c = false.
Proof.
  pose proof (forall_chars
    (fun c => implb (lit_ok I_ "w" c) (negb (is_space c))) eq_refl c) as F.
  cbv beta in F. intros H. rewrite H in F. cbn in F.
  destruct (is_space c); [discriminate|reflexivity].
Qed.

Lemma lit_dot (c : ascii) : lit_ok I_ "." c = true -> c = "."%char.
Proof.
  pose proof (forall_chars
    (fun c => implb (lit_ok I_ "." c) (eqc c ".")) eq_refl c) as F.
  cbv beta in F. intros H. rewrite H in F. cbn in F.
  apply Ascii.eqb_eq. exact F.
Qed.

Lemma label_char_nonspace (c : ascii) :
  cls_ok I_ false [rg "a" "z"; rg "A" "Z"; rg "0" "9"; one "-"] c = true ->
  is_space c = false.
Proof.
  pose proof (forall_chars
    (fun c => implb (cls_ok I_ false
                       [rg "a" "z"; rg "A" "Z"; rg "0" "9"; one "-"] c)
                    (negb (is_space c))) eq_refl c) as F.
  cbv beta in F. intros H. rewrite H in F. cbn in F.
  destruct (is_space c); [discriminate|reflexivity].
Qed.

Section Website.

Variable text : str.

Lemma scheme_shape (x y : mstate) :
  sem I_ text URL_SCHEME x y ->
  pos x < pos y /\ nonspace_at text (pos x).
Proof.
  unfold URL_SCHEME.
  change (seqs [word "http"; opt (word "s"); word "://"])
    with (Seq (lits (s2l "http")) (seqs [opt (word "s"); word "://"])).
  cbn [sem]. intros [st1 [A B]].
  apply sem_lits in A. destruct A as [P [_ L]].
  apply sem_forward in B. unfold forward in B. cbn [length s2l
    list_ascii_of_string] in P.
  split; [lia|].
  cbn [lit_at s2l list_ascii_of_string] in L.
  destruct (char_at text (pos x)) as [c|] eqn:C; [|discriminate].
  apply andb_prop in L. destruct L as [O _].
  exists c. split; [exact C|]. apply lit_h_nonspace. exact O.
Qed.

Lemma www_shape (x y : mstate) :
  sem I_ text (word "www.") x y ->
  pos x < pos y /\ nonspace_at text (pos x).
Proof.
  unfold word. intros A.
  apply sem_lits in A. destruct A as [P [_ L]].
  cbn [length s2l list_ascii_of_string] in P. split; [lia|].
  cbn [lit_at s2l list_ascii_of_string] in L.
  destruct (char_at text (pos x)) as [c|] eqn:C; [|discriminate].
  apply andb_prop in L. destruct L as [O _].
  exists c. split; [exact C|]. apply lit_w_nonspace. exact O.
Qed.

Lemma label_shape (x z : mstate) :
  sem I_ text URL_LABEL x z ->
  pos x < pos z /\ nonspace_at text (pos x)
  /\ char_at text (pos z - 1) = Some "."%char.
Proof.
  unfold URL_LABEL.
  change (seqs [plus (Cls false [rg "a" "z"; rg "A" "Z"; rg "0" "9";
                                 one "-"]); word "."])
    with (Seq (Rep true 1 None
                 (Cls false [rg "a" "z"; rg "A" "Z"; rg "0" "9"; one "-"]))
              (Lit ".")).
  cbn [sem]. intros [y [A [c [C [O E]]]]].
  change (iter (takes text
                  (cls_ok I_ false
                     [rg "a" "z"; rg "A" "Z"; rg "0" "9"; one "-"]))
               1 None 0 x y) in A.
  pose proof (iter_takes_min _ _ _ _ _ _ _ A) as M.
  apply iter_takes in A. destruct A as [_ [_ A]].
  subst z. cbn [pos advance].
  split; [lia|]. split.
  - destruct (A (pos x) ltac:(lia)) as [c0 [C0 O0]].
    exists c0. split; [exact C0|]. apply label_char_nonspace. exact O0.
  - replace (S (pos y) - 1) with (pos y) by lia.
    rewrite C. f_equal. apply lit_dot. exact O.
Qed.

(** A match of WEBSITE_REGEX from [s] to [e]: the groups lie one after
    the other, group 3 always takes part and ends in a dot, and at least
    two characters of the match follow it. *)
Lemma website_match_shape (s e : nat) (cs : list (nat * (nat * nat))) :
  s <= length text ->
  matches I_ text WEBSITE_REGEX s e cs ->
  exists a b c d,
    s <= a /\ a <= b /\ b <= c /\ c < d /\ d + 2 <= e /\ e <= length text
    /\ ((get_cap 1 cs = None /\ a = s)
        \/ (get_cap 1 cs = Some (s, a) /\ s < a /\ nonspace_at text s))
    /\ ((get_cap 2 cs = None /\ b = a)
        \/ (get_cap 2 cs = Some (a, b) /\ a < b /\ nonspace_at text a))
    /\ get_cap 3 cs = Some (c, d)
    /\ nonspace_at text c
    /\ char_at text (d - 1) = Some "."%char.
Proof.
  intros Ls M. pose proof (sem_forward _ _ _ _ _ M) as Fw.
  unfold forward in Fw. cbn [pos] in Fw.
  unfold matches, WEBSITE_REGEX in M.
  set (G1 := Grp 1 URL_SCHEME) in M. set (G2 := Grp 2 (word "www.")) in M.
  set (G3 := Grp 3 URL_LABEL) in M.
  change (seqs [opt G1; opt G2; plus G3; URL_TLD; URL_PATH])
    with (Seq (opt G1) (Seq (opt G2) (Seq (plus G3)
                                         (Seq URL_TLD URL_PATH)))) in M.
  cbn [sem] in M.
  destruct M as [st1 [H1 [st2 [H2 [st3 [H3 [st4 [H4 H5]]]]]]]].
  (* group 1 *)
  assert (S1 : (st1 = {| pos := s; caps := [] |})
               \/ exists a, s < a /\ nonspace_at text s
                            /\ st1 = {| pos := a; caps := [(1, (s, a))] |}).
  { unfold opt in H1. cbn [sem] in H1. apply iter_opt in H1.
    destruct H1 as [E|H1]; [left; exact E|right].
    unfold G1 in H1. cbn [sem] in H1. destruct H1 as [y [A E]].
    pose proof (sem_nocap I_ text URL_SCHEME _ _ eq_refl A) as K.
    apply scheme_shape in A. cbn [pos caps] in A, K, E.
    destruct A as [P N]. exists (pos y). repeat split; auto.
    subst st1. unfold set_cap. cbn. rewrite K. reflexivity. }
  (* group 2 *)
  assert (S2 : st2 = st1
               \/ exists b, pos st1 < b /\ nonspace_at text (pos st1)
                            /\ st2 = {| pos := b;
                                        caps := (2, (pos st1, b))
                                                :: caps st1 |}).
  { unfold opt in H2. cbn [sem] in H2. apply iter_opt in H2.
    destruct H2 as [E|H2]; [left; exact E|right].
    unfold G2 in H2. cbn [sem] in H2. destruct H2 as [y [A E]].
    pose proof (sem_nocap I_ text (word "www.") _ _ eq_refl A) as K.
    apply www_shape in A. destruct A as [P N].
    exists (pos y). repeat split; auto.
    subst st2. unfold set_cap. cbn. rewrite K. reflexivity. }
  (* group 3 *)
  unfold plus in H3. cbn [sem] in H3. unfold G3 in H3.
  apply (iter_group I_ text 3 URL_LABEL 1 None 0 st2 st3 eq_refl) in H3.
  destruct H3 as [[_ L]|[x [z [Px [Sx [Pz [G O]]]]]]]; [lia|].
  apply label_shape in Sx. destruct Sx as [Lx [Nx Dz]].
  (* the last two parts *)
  unfold URL_TLD, times in H4. cbn [sem] in H4.
  change (iter (takes text (cls_ok I_ false [rg "a" "z"; rg "A" "Z"]))
               2 (Some 6) 0 st3 st4) in H4.
  pose proof (iter_takes_min _ _ _ _ _ _ _ H4) as M4.
  apply iter_takes in H4. destruct H4 as [K4 _].
  pose proof (sem_nocap I_ text URL_PATH _ _ eq_refl H5) as K5.
  apply sem_forward in H5. unfold forward in H5. cbn [pos caps] in H5, K5.
  assert (Ecs : cs = caps st3) by congruence.
  exists (pos st1), (pos st2), (pos x), (pos z).
  rewrite Ecs, G, (O 1 ltac:(lia)), (O 2 ltac:(lia)).
  destruct S1 as [E1|[a [La [Na E1]]]]; destruct S2 as [E2|[b [Lb [Nb E2]]]];
    subst st1; cbn [pos caps] in *; subst st2; cbn [pos caps get_cap Nat.eqb];
    repeat split; auto; try lia.
Qed.

End Website.

(** ** The Website value *)

(** The three groups of a website match, put together, start and end with
    a character that is not white space, end in a dot, and are at least
    two characters shorter than the match. *)
Lemma website_groups (text : str) (m : rmatch_obj) :
  In m (finditer I_ WEBSITE_REGEX text) ->
  strip (group text 1 m ++ group text 2 m ++ group text 3 m)
  = group text 1 m ++ group text 2 m ++ group text 3 m
  /\ length (group text 1 m ++ group text 2 m ++ group text 3 m) + 2
     <= length (group0 text m)
  /\ exists label, group text 3 m = label ++ s2l ".".
Proof.
  intros H. unfold finditer in H.
  destruct (finditer_from_spec I_ text WEBSITE_REGEX (S (length text)) 0)
    as [F _].
  rewrite Forall_forall in F. destruct (F m H) as [B [B2 M]]. clear F H.
  assert (Ls : m_start m <= length text) by lia.
  apply match_at_sound in M. destruct M as [_ M].
  destruct (website_match_shape text _ _ _ Ls M)
    as [a [b [c [d [L1 [L2 [L3 [L4 [L5 [L6 [C1 [C2 [C3 [N3 D3]]]]]]]]]]]]]].
  unfold group, group_opt, group0. rewrite C3.
  set (s := m_start m) in *. set (e := m_end m) in *.
  assert (G3 : slice c d text = slice c (d - 1) text ++ ["."%char])
    by (apply slice_last; [lia|exact D3]).
  destruct N3 as [x3 [X3 S3]].
  assert (F3 : slice c d text = x3 :: slice (S c) d text)
    by (apply slice_first; [lia|exact X3]).
  assert (Len3 : length (slice c d text) = d - c)
    by (apply slice_length; lia).
  assert (LenM : length (slice s e text) = e - s)
    by (apply slice_length; lia).
  assert (Dot : is_space "." = false) by reflexivity.
  destruct C1 as [[K1 E1]|[K1 [P1 [x1 [X1 S1]]]]];
    destruct C2 as [[K2 E2]|[K2 [P2 [x2 [X2 S2]]]]];
    rewrite K1, K2; cbn [app].
  - split; [|split; [rewrite LenM, Len3; lia|exists (slice c (d - 1) text); exact G3]].
    rewrite F3. apply (strip_id x3 "." _ (slice c (d - 1) text) S3 Dot).
    rewrite <- F3. exact G3.
  - assert (F2 : slice a b text = x2 :: slice (S a) b text)
      by (apply slice_first; [lia|exact X2]).
    split; [|split; [|exists (slice c (d - 1) text); exact G3]].
    + rewrite F2. cbn [app].
      apply (strip_id x2 "." _
               (slice a b text ++ slice c (d - 1) text) S2 Dot).
      rewrite <- app_assoc, <- G3, F2. reflexivity.
    + rewrite length_app, LenM, Len3, slice_length by lia. lia.
  - assert (F1 : slice s a text = x1 :: slice (S s) a text)
      by (apply slice_first; [lia|exact X1]).
    split; [|split; [|exists (slice c (d - 1) text); exact G3]].
    + rewrite F1. cbn [app].
      apply (strip_id x1 "." _
               (slice s a text ++ slice c (d - 1) text) S1 Dot).
      rewrite <- app_assoc, <- G3, F1. reflexivity.
    + rewrite length_app, LenM, Len3, slice_length by lia. lia.
  - assert (F1 : slice s a text = x1 :: slice (S s) a text)
      by (apply slice_first; [lia|exact X1]).
    split; [|split; [|exists (slice c (d - 1) text); exact G3]].
    + rewrite F1. cbn [app].
      apply (strip_id x1 "." _
               (slice s a text ++ slice a b text ++ slice c (d - 1) text)
               S1 Dot).
      rewrite <- !app_assoc, <- G3, F1. reflexivity.
    + rewrite !length_app, LenM, Len3, !slice_length by lia. lia.
Qed.

(** The Website of the loop's result is the Website it started with or
    the stripped groups of one of the candidates. *)
Lemma website_loop_value (ms : list (str * str * str)) (contact : dict str)
  (v : str) :
  dict_get "Website" (website_loop ms contact) = Some v ->
  dict_get "Website" contact = Some v
  \/ exists g1 g2 g3, In (g1, g2, g3) ms /\ v = strip (g1 ++ g2 ++ g3).
Proof.
  induction ms as [|[[g1 g2] g3] ms IH]; cbn [website_loop]; [auto|].
  destruct (negb _ && _ && _ && _ && _).
  - rewrite dict_get_set. cbn. intros E. inversion E. right.
    exists g1, g2, g3. split; [left; reflexivity|reflexivity].
  - intros H. destruct (IH H) as [A|[h1 [h2 [h3 [I E]]]]]; [auto|right].
    exists h1, h2, h3. split; [right; exact I|exact E].
Qed.

(** C10: whenever the contact extractor gives a Website, it is made of
    the three captured groups of a website match and of nothing else: it
    ends with the dot of the last label, and it is never the matched URL,
    which is at least two characters longer.  On "http://example.com" the
    Website is "http://example.". *)
Theorem website_is_the_groups_only :
  (forall text v,
     dict_get "Website" (extract_contact_info text) = Some v ->
     exists m,
       In m (finditer I_ WEBSITE_REGEX text)
       /\ v = group text 1 m ++ group text 2 m ++ group text 3 m
       /\ (exists label, group text 3 m = label ++ s2l ".")
       /\ length v + 2 <= length (group0 text m)
       /\ v <> group0 text m)
  /\ extract_contact_info (s2l "http://example.com")
     = [("Website", s2l "http://example.")].
Proof.
  split; [|vm_compute; reflexivity].
  intros text v H. unfold extract_contact_info in H. cbv zeta in H.
  apply website_loop_value in H. destruct H as [H|H].
  - exfalso.
    repeat match type of H with
           | context [match ?x with _ => _ end] => destruct x
           end;
      repeat rewrite dict_get_set in H; cbn in H; discriminate.
  - destruct H as [g1 [g2 [g3 [I E]]]].
    apply in_map_iff in I. destruct I as [m [Em I]].
    inversion Em; subst g1 g2 g3; clear Em.
    destruct (website_groups text m I) as [S [L Lab]].
    rewrite S in E. exists m. repeat split; auto.
    + rewrite E. exact L.
    + intros Q. rewrite <- Q, E in L. lia.
Qed.

Lemma website_is_the_groups_only_witness :
  exists m,
    In m (finditer I_ WEBSITE_REGEX (s2l "see www.a.org/x"))
    /\ s2l "www.a."
       = group (s2l "see www.a.org/x") 1 m ++ group (s2l "see www.a.org/x") 2 m
         ++ group (s2l "see www.a.org/x") 3 m
    /\ (exists label, group (s2l "see www.a.org/x") 3 m = label ++ s2l ".")
    /\ length (s2l "www.a.") + 2 <= length (group0 (s2l "see www.a.org/x") m)
    /\ s2l "www.a." <> group0 (s2l "see www.a.org/x") m.
Proof.
  apply (proj1 website_is_the_groups_only (s2l "see www.a.org/x")).
  vm_compute. reflexivity.
Defined.

(** ** Evaluation of the extractors on given inputs *)

(** C7: on a text that holds an email address and nothing else, the
    contact extractor reports the first label of the address's domain as
    the Website; the exclusion of the mail providers does not see it. *)
Theorem email_domain_becomes_website :
  dict_get "Website" (extract_contact_info (s2l "jane@example.com"))
  = Some (s2l "example.")
  /\ dict_get "Website" (extract_contact_info (s2l "jane@gmail.com"))
     = Some (s2l "gmail.").
Proof. split; vm_compute; reflexivity. Qed.

(** C5: of two jobs that are each introduced by a "Client" line, the
    second never yields its Client, Title and Duration, because the split
    removes the marker that the field pattern starts with: the section
    with a line of introduction gives no entry at all, the one that starts
    at the first marker gives a single entry. *)
Theorem two_client_markers_not_two_entries :
  client_markers two_jobs_after_intro = 2
  /\ client_lines two_jobs_after_intro = 2
  /\ parse_experience two_jobs_after_intro = []
  /\ client_lines two_jobs = 2
  /\ parse_experience two_jobs
     = [ [ ("Client", VStr (s2l "Acme")); ("Title", VStr (s2l "Dev"));
           ("Duration", VStr (s2l "2020")) ] ].
Proof. repeat split; vm_compute; reflexivity. Qed.

(** C3: the canonical date "2020-01-01" is cut at its hyphens before it
    is parsed, so the start component comes back as the bare year. *)
Theorem canonical_date_is_cut_at_hyphens (now : datetime) :
  parse_date_range now (dstr "2020-01-01") = (s2l "2020", s2l "01").
Proof. vm_compute. reflexivity. Qed.

(** The first line of [parse_date_range] leaves a string of 8-bit
    characters as it is. *)
Lemma replace_en_dash_chars (s : str) : replace_en_dash (map DChar s) = s.
Proof.
  unfold replace_en_dash. rewrite map_map. apply map_id.
Qed.

(** *** Digits *)

Lemma digit_char_cases (n : N) :
  In (digit_char n)
     (s2l "0123456789").
Proof.
  unfold digit_char.
  assert (H : (n mod 10 < 10)%N) by (apply N.mod_lt; discriminate).
  rewrite <- (N2Nat.id (n mod 10)).
  assert (K : N.to_nat (n mod 10) < 10) by lia.
  remember (N.to_nat (n mod 10)) as k eqn:E. clear E H.
  do 10 (destruct k as [|k]; [vm_compute; tauto|]).
  exfalso; lia.
Qed.

Lemma digit_not_hyphen (n : N) : eqc (digit_char n) "-" = false.
Proof.
  pose proof (digit_char_cases n) as H.
  remember (digit_char n) as c eqn:E. clear E. simpl in H.
  repeat (destruct H as [H|H]; [rewrite <- H; reflexivity|]).
  contradiction.
Qed.

Lemma digit_not_space (n : N) : is_space (digit_char n) = false.
Proof.
  pose proof (digit_char_cases n) as H.
  remember (digit_char n) as c eqn:E. clear E. simpl in H.
  repeat (destruct H as [H|H]; [rewrite <- H; reflexivity|]).
  contradiction.
Qed.

Lemma lstrip_cons (c : ascii) (s : str) :
  lstrip (c :: s) = if is_space c then lstrip s else c :: s.
Proof. reflexivity. Qed.

Lemma strip_digits4 (y : N) : strip (" "%char :: digits4 y) = digits4 y.
Proof.
  unfold strip, rstrip, digits4.
  rewrite (lstrip_cons " "). change (is_space " ") with true. cbv iota.
  rewrite lstrip_cons, digit_not_space.
  set (a := digit_char (y / 1000)). set (b := digit_char (y / 100)).
  set (c := digit_char (y / 10)). set (d := digit_char y).
  change (rev [a; b; c; d]) with [d; c; b; a].
  rewrite lstrip_cons. unfold d at 1. rewrite digit_not_space.
  reflexivity.
Qed.

Lemma eqs_true (a b : str) : eqs a b = true -> a = b.
Proof.
  revert b. induction a as [|x a IH]; destruct b as [|y b]; simpl;
    try discriminate; auto.
  intros H. apply andb_prop in H. destruct H as [H1 H2].
  apply Ascii.eqb_eq in H1. subst. f_equal. auto.
Qed.

Lemma In_N_seq (len : nat) (lo n : N) :
  (lo <= n < lo + N.of_nat len)%N -> In n (N_seq lo len).
Proof.
  revert lo. induction len as [|len IH]; intros lo H; [lia|].
  simpl. destruct (N.eq_dec lo n) as [E|E]; [left; exact E|right].
  apply IH. lia.
Qed.

Lemma years_parse : forallb year_parses (N_seq 1 9999) = true.
Proof. vm_compute. reflexivity. Qed.

Lemma parse_single_date_year (y : N) :
  (1 <= y <= 9999)%N -> _parse_single_date (digits4 y) = digits4 y.
Proof.
  intros H. apply eqs_true.
  pose proof years_parse as F. rewrite forallb_forall in F.
  apply (F y). apply In_N_seq.
  assert (E : N.of_nat 9999 = 9999%N) by (vm_compute; reflexivity).
  rewrite E. lia.
Qed.

Lemma split_acc_hyphen (cur s : str) :
  split_acc "-" cur ("-"%char :: s) = rev cur :: split_acc "-" [] s.
Proof. reflexivity. Qed.

Lemma split_acc_other (c : ascii) (cur s : str) :
  eqc c "-" = false ->
  split_acc "-" cur (c :: s) = split_acc "-" (c :: cur) s.
Proof. intros H. cbn [split_acc]. rewrite H. reflexivity. Qed.

Lemma present_replaced (cur : str) :
  replace (s2l "Present") cur (strip (s2l "January 2020 - Present"))
  = s2l "January 2020 - " ++ cur.
Proof.
  change (strip (s2l "January 2020 - Present"))
    with (s2l "January 2020 - Present").
  unfold replace. simpl. rewrite app_nil_r. reflexivity.
Qed.

(** C2: whatever the current date, "January 2020 - Present" has the end
    component cut down to the current year: the date put in place of
    "Present" is split at its own hyphens. *)
Theorem present_end_is_bare_year (now : datetime) :
  (1 <= year now <= 9999)%N ->
  parse_date_range now (dstr "January 2020 - Present")
  = (s2l "2020-01-01", strftime_Y now)
  /\ strftime_Y now <> strftime_Ymd now.
Proof.
  intros Hy. split.
  - unfold parse_date_range, dstr. rewrite replace_en_dash_chars.
    change (contains (s2l "Present") (strip (s2l "January 2020 - Present")))
      with true. cbv iota.
    rewrite present_replaced.
    set (cur := strftime_Ymd now).
    assert (P : split "-" (s2l "January 2020 - " ++ cur)
                = [s2l "January 2020 "; " "%char :: digits4 (year now);
                   digits2 (month now); digits2 (day now)]).
    { unfold cur, strftime_Ymd, digits4, digits2, split.
      cbn [s2l list_ascii_of_string app].
      repeat first [ rewrite split_acc_hyphen
                   | rewrite split_acc_other by
                       first [reflexivity | apply digit_not_hyphen] ].
      reflexivity. }
    rewrite P. cbn [nth length Nat.ltb Nat.leb].
    rewrite strip_digits4.
    rewrite (parse_single_date_year _ Hy).
    reflexivity.
  - intros E. apply (f_equal (@length ascii)) in E.
    unfold strftime_Y, strftime_Ymd, digits4, digits2 in E.
    rewrite !length_app in E. cbn [length s2l list_ascii_of_string] in E.
    discriminate.
Qed.

Lemma present_end_is_bare_year_witness :
  parse_date_range {| year := 2026; month := 11; day := 4 |}
    (dstr "January 2020 - Present")
  = (s2l "2020-01-01", s2l "2026").
Proof.
  apply (present_end_is_bare_year {| year := 2026; month := 11; day := 4 |}).
  cbn. lia.
Defined.

(** ** The whole pipeline on the empty document *)

(** C8: the empty document gives the record of empty defaults, whatever
    the recogniser, and every document gives a record with the same ten
    fields in the same order. *)
Theorem empty_document_gives_empty_record :
  (forall nlp, parse_resume nlp [] = empty_record)
  /\ (forall nlp text, keys (parse_resume nlp text) = keys empty_record).
Proof.
  split.
  - intros nlp. vm_compute. reflexivity.
  - intros nlp text. unfold parse_resume.
    destruct (extract_name_and_title nlp text) as [name overall_title].
    reflexivity.
Qed.

(** ** Skills *)

Lemma eqc_refl (c : ascii) : eqc c c = true.
Proof. apply Ascii.eqb_refl. Qed.

Lemma split_acc_app (sep : ascii) (a b cur : str) :
  split_acc sep cur (a ++ sep :: b) = split_acc sep cur a ++ split sep b.
Proof.
  revert cur. induction a as [|c a IH]; intros cur; simpl.
  - rewrite eqc_refl. reflexivity.
  - destruct (eqc c sep); simpl; rewrite IH; reflexivity.
Qed.

Lemma split_app (sep : ascii) (a b : str) :
  split sep (a ++ sep :: b) = split sep a ++ split sep b.
Proof. apply split_acc_app. Qed.

Lemma stripped_lines_app (a b : str) :
  stripped_lines (a ++ NL :: b) = stripped_lines a ++ stripped_lines b.
Proof.
  unfold stripped_lines. rewrite split_app, filter_app, map_app. reflexivity.
Qed.

(** Without a cursor, a line that names no category leaves the state. *)
Lemma skills_step_ignored (d : dict (list str)) (line : str) :
  find_category line (keys SKILL_CATEGORIES) = None ->
  skills_step (d, None) line = (d, None).
Proof. intros H. unfold skills_step. rewrite H. reflexivity. Qed.

Lemma skills_lines_ignored (lines : list str) (d : dict (list str)) :
  existsb (fun line => is_some (find_category line (keys SKILL_CATEGORIES)))
          lines = false ->
  parse_skills_lines lines (d, None) = (d, None).
Proof.
  induction lines as [|line lines IH]; intros H; [reflexivity|].
  cbn [existsb] in H.
  apply orb_false_elim in H. destruct H as [H1 H2].
  unfold parse_skills_lines in *. cbn [fold_left].
  rewrite skills_step_ignored.
  - apply IH. exact H2.
  - destruct (find_category line (keys SKILL_CATEGORIES)); [discriminate|].
    reflexivity.
Qed.

(** C9: the four-line sample gives the two categories with their skills
    in order, and the lines that come before any category line do not
    change the result. *)
Theorem skills_sample_and_leading_lines :
  parse_skills skills_sample
  = [ ("Databases", [s2l "MySQL"; s2l "PostgreSQL"]);
      ("Testing Tools", [s2l "Selenium"]) ]
  /\ (forall pre rest : str,
        has_category_line pre = false ->
        parse_skills (pre ++ NL :: rest) = parse_skills rest).
Proof.
  split.
  - vm_compute. reflexivity.
  - intros pre rest H. unfold parse_skills.
    rewrite stripped_lines_app. unfold parse_skills_lines.
    rewrite fold_left_app.
    fold (parse_skills_lines (stripped_lines pre) ([], None)).
    rewrite skills_lines_ignored by exact H.
    reflexivity.
Qed.

Lemma skills_sample_and_leading_lines_witness :
  parse_skills (s2l "Skills I have, in groups" ++ NL :: skills_sample)
  = parse_skills skills_sample.
Proof.
  apply (proj2 skills_sample_and_leading_lines).
  vm_compute. reflexivity.
Defined.

(** ** What the characters of a match are *)

Lemma implb_chars (f g : ascii -> bool) :
  forallb (fun c => implb (f c) (g c)) all_chars = true ->
  forall c, f c = true -> g c = true.
Proof.
  intros H c F. pose proof (forall_chars _ H c) as I. cbv beta in I.
  rewrite F in I. exact I.
Qed.

Section Chars.

Variable fl : flags.
Variable text : str.

(** A match of a pattern that needs a character passing [Q] has one in
    its span. *)
Lemma sem_needs (Q : ascii -> bool) (r : regex) (st st' : mstate) :
  needs Q fl r = true -> sem fl text r st st' ->
  exists j c, pos st <= j < pos st' /\ char_at text j = Some c /\ Q c = true.
Proof.
  revert st st'.
  induction r as [|p|neg items| |a IHa b IHb|a IHa b IHb
                 |greedy lo hi r IH|n r IH|r IH| | | | ];
    intros st st' N H; cbn [sem needs] in *; try discriminate.
  - destruct H as (c & C & O & E). subst st'. exists (pos st), c.
    cbn. repeat split; [lia|lia|exact C|exact (implb_chars _ _ N c O)].
  - destruct H as (c & C & O & E). subst st'. exists (pos st), c.
    cbn. repeat split; [lia|lia|exact C|exact (implb_chars _ _ N c O)].
  - destruct H as (c & C & O & E). subst st'. exists (pos st), c.
    cbn. repeat split; [lia|lia|exact C|exact (implb_chars _ _ N c O)].
  - destruct H as (st1 & A & B).
    pose proof (sem_forward fl text _ _ _ A) as [FA _].
    pose proof (sem_forward fl text _ _ _ B) as [FB _].
    apply orb_true_iff in N. destruct N as [N|N].
    + destruct (IHa _ _ N A) as (j & c & J & C & Qc).
      exists j, c. repeat split; [lia|lia|exact C|exact Qc].
    + destruct (IHb _ _ N B) as (j & c & J & C & Qc).
      exists j, c. repeat split; [lia|lia|exact C|exact Qc].
  - apply andb_true_iff in N. destruct N as [Na Nb].
    destruct H as [H|H]; [exact (IHa _ _ Na H)|exact (IHb _ _ Nb H)].
  - apply andb_true_iff in N. destruct N as [Nl Nr].
    apply Nat.leb_le in Nl.
    inversion H as [i s L|i s st1 st2 U R1 P I']; subst; [lia|].
    destruct (IH _ _ Nr R1) as (j & c & J & C & Qc).
    assert (F : forward text st1 st').
    { apply (iter_forward text (sem fl text r) lo hi 1); [|exact I'].
      intros a b. apply sem_forward. }
    destruct F as [F _].
    exists j, c. repeat split; [lia|lia|exact C|exact Qc].
  - destruct H as (st1 & A & E). subst st'. cbn.
    exact (IH _ _ N A).
Qed.

Lemma iter_only (P : ascii -> bool)  (R : mstate -> mstate -> Prop)
  lo hi i st st' :
  (forall a b, R a b ->
     pos a <= pos b
     /\ forall j, pos a <= j < pos b ->
                  exists c, char_at text j = Some c /\ P c = true) ->
  iter R lo hi i st st' ->
  pos st <= pos st'
  /\ forall j, pos st <= j < pos st' ->
               exists c, char_at text j = Some c /\ P c = true.
Proof.
  intros HR I. induction I as [i st L|i st st1 st2 U R1 Pr I' IH].
  - split; [lia|]. intros j J. lia.
  - destruct (HR _ _ R1) as [L1 C1]. destruct IH as [L2 C2].
    split; [lia|]. intros j J.
    destruct (Nat.lt_ge_cases j (pos st1)); [apply C1|apply C2]; lia.
Qed.

(** Every character in the span of a match of a pattern that takes only
    characters passing [P] passes [P]. *)
Lemma sem_only (P : ascii -> bool) (r : regex) (st st' : mstate) :
  only P fl r = true -> sem fl text r st st' ->
  pos st <= pos st'
  /\ forall j, pos st <= j < pos st' ->
               exists c, char_at text j = Some c /\ P c = true.
Proof.
  revert st st'.
  induction r as [|p|neg items| |a IHa b IHb|a IHa b IHb
                 |greedy lo hi r IH|n r IH|r IH| | | | ];
    intros st st' N H; cbn [sem only] in *.
  - subst st'. split; [lia|]. intros j J. lia.
  - destruct H as (c & C & O & E). subst st'. cbn. split; [lia|].
    intros j J. assert (j = pos st) by lia. subst j. exists c.
    split; [exact C|exact (implb_chars _ _ N c O)].
  - destruct H as (c & C & O & E). subst st'. cbn. split; [lia|].
    intros j J. assert (j = pos st) by lia. subst j. exists c.
    split; [exact C|exact (implb_chars _ _ N c O)].
  - destruct H as (c & C & O & E). subst st'. cbn. split; [lia|].
    intros j J. assert (j = pos st) by lia. subst j. exists c.
    split; [exact C|exact (implb_chars _ _ N c O)].
  - apply andb_true_iff in N. destruct N as [Na Nb].
    destruct H as (st1 & A & B).
    destruct (IHa _ _ Na A) as [L1 C1]. destruct (IHb _ _ Nb B) as [L2 C2].
    split; [lia|]. intros j J.
    destruct (Nat.lt_ge_cases j (pos st1)); [apply C1|apply C2]; lia.
  - apply andb_true_iff in N. destruct N as [Na Nb].
    destruct H as [H|H]; [exact (IHa _ _ Na H)|exact (IHb _ _ Nb H)].
  - apply (iter_only P (sem fl text r) lo hi 0); [|exact H].
    intros a b. apply IH. exact N.
  - destruct H as (st1 & A & E). subst st'. cbn. exact (IH _ _ N A).
  - destruct H as (st1 & A & E). subst st'. cbn. split; [lia|].
    intros j J. lia.
  - destruct H as [_ E]. subst st'. split; [lia|]. intros j J. lia.
  - destruct H as [_ E]. subst st'. split; [lia|]. intros j J. lia.
  - destruct H as [_ E]. subst st'. split; [lia|]. intros j J. lia.
  - destruct H as [_ E]. subst st'. split; [lia|]. intros j J. lia.
Qed.

Lemma iter_caps_pass (P : ascii -> bool) (R : mstate -> mstate -> Prop)
  lo hi i st st' :
  (forall a b, R a b -> caps_pass P text (caps a) -> caps_pass P text (caps b)) ->
  iter R lo hi i st st' ->
  caps_pass P text (caps st) -> caps_pass P text (caps st').
Proof.
  intros HR I. induction I as [i st L|i st st1 st2 U R1 Pr I' IH]; auto.
  intros G. apply IH. exact (HR _ _ R1 G).
Qed.

(** A match of a pattern that takes only characters passing [P] records
    only group spans whose characters pass [P]. *)
Lemma sem_caps_pass (P : ascii -> bool) (r : regex) (st st' : mstate) :
  only P fl r = true -> sem fl text r st st' ->
  caps_pass P text (caps st) -> caps_pass P text (caps st').
Proof.
  revert st st'.
  induction r as [|p|neg items| |a IHa b IHb|a IHa b IHb
                 |greedy lo hi r IH|n r IH|r IH| | | | ];
    intros st st' N H G; cbn [sem only] in *.
  - subst st'. exact G.
  - destruct H as (c & _ & _ & E). subst st'. exact G.
  - destruct H as (c & _ & _ & E). subst st'. exact G.
  - destruct H as (c & _ & _ & E). subst st'. exact G.
  - apply andb_true_iff in N. destruct N as [Na Nb].
    destruct H as (st1 & A & B). exact (IHb _ _ Nb B (IHa _ _ Na A G)).
  - apply andb_true_iff in N. destruct N as [Na Nb].
    destruct H as [H|H]; [exact (IHa _ _ Na H G)|exact (IHb _ _ Nb H G)].
  - apply (iter_caps_pass P (sem fl text r) lo hi 0 st st'); auto.
    intros a b. apply IH. exact N.
  - destruct H as (st1 & A & E). subst st'. cbn.
    pose proof (IH _ _ N A G) as G1.
    destruct (sem_only P r _ _ N A) as [_ C].
    intros k a b [Q|I]; [|exact (G1 k a b I)].
    inversion Q; subst. exact C.
  - destruct H as (st1 & A & E). subst st'. cbn. exact (IH _ _ N A G).
  - destruct H as [_ E]. subst st'. exact G.
  - destruct H as [_ E]. subst st'. exact G.
  - destruct H as [_ E]. subst st'. exact G.
  - destruct H as [_ E]. subst st'. exact G.
Qed.

(** A pattern that needs a character passing [Q] has no match in a text
    that has none. *)
Lemma needs_no_match (Q : ascii -> bool) (r : regex) :
  needs Q fl r = true ->
  forallb (fun c => negb (Q c)) text = true ->
  forall start, match_at fl text r start = None.
Proof.
  intros N A start. destruct (match_at fl text r start) as [m|] eqn:M; auto.
  exfalso. apply match_at_sound in M. destruct M as [_ M].
  destruct (sem_needs Q r _ _ N M) as (j & c & _ & C & Qc).
  rewrite forallb_forall in A. unfold char_at in C. apply nth_error_In in C.
  apply A in C. rewrite Qc in C. discriminate.
Qed.

Lemma needs_no_search_from (Q : ascii -> bool) (r : regex) :
  needs Q fl r = true ->
  forallb (fun c => negb (Q c)) text = true ->
  forall n start, search_from fl text r n start = None.
Proof.
  intros N A n. induction n as [|n IH]; intros start; cbn; auto.
  rewrite (needs_no_match Q r N A). apply IH.
Qed.

Lemma needs_no_search_at (Q : ascii -> bool) (r : regex) :
  needs Q fl r = true ->
  forallb (fun c => negb (Q c)) text = true ->
  forall start, search_at fl text r start = None.
Proof.
  intros N A start. unfold search_at. apply (needs_no_search_from Q r N A).
Qed.

End Chars.

Lemma needs_no_search (Q : ascii -> bool) (fl : flags) (r : regex)
  (text : str) :
  needs Q fl r = true ->
  forallb (fun c => negb (Q c)) text = true ->
  search fl r text = None.
Proof. intros N A. apply (needs_no_search_at fl text Q r N A). Qed.

Lemma needs_no_finditer (Q : ascii -> bool) (fl : flags) (r : regex)
  (text : str) :
  needs Q fl r = true ->
  forallb (fun c => negb (Q c)) text = true ->
  finditer fl r text = [].
Proof.
  intros N A. unfold finditer. cbn [finditer_from].
  rewrite (needs_no_search_at fl text Q r N A). reflexivity.
Qed.

(** ** The contact dictionary *)

(** The first element of [finditer] is the match of [search]. *)
Lemma finditer_head (fl : flags) (r : regex) (text : str) :
  hd_error (finditer fl r text) = search fl r text.
Proof.
  unfold finditer, search. cbn [finditer_from].
  destruct (search_at fl text r 0); reflexivity.
Qed.

(** Group [n] of a match of a pattern that is group [n] as a whole is the
    whole match. *)
Lemma whole_group (fl : flags) (text : str) (n : nat) (r : regex)
  (m : rmatch_obj) :
  search fl (Grp n r) text = Some m -> group text n m = group0 text m.
Proof.
  intros H. apply search_at_sound in H. destruct H as [_ M].
  apply match_at_sound in M. destruct M as [_ M].
  unfold matches in M. cbn [sem] in M. destruct M as (st1 & A & E).
  unfold set_cap in E. cbn [pos] in E. inversion E as [[E1 E2]].
  unfold group, group_opt, group0. rewrite E2. cbn [get_cap].
  rewrite Nat.eqb_refl. reflexivity.
Qed.

Lemma website_loop_other (ms : list (str * str * str)) (contact : dict str)
  (k : string) :
  k <> "Website" ->
  dict_get k (website_loop ms contact) = dict_get k contact.
Proof.
  intros K. induction ms as [|[[g1 g2] g3] ms IH]; cbn [website_loop]; auto.
  destruct (negb _ && _ && _ && _ && _); [|exact IH].
  rewrite dict_get_set. apply String.eqb_neq in K. rewrite K. reflexivity.
Qed.

Lemma website_loop_cases (ms : list (str * str * str)) (contact : dict str) :
  website_loop ms contact = contact
  \/ exists v, website_loop ms contact = dict_set "Website" v contact.
Proof.
  induction ms as [|[[g1 g2] g3] ms IH]; cbn [website_loop]; auto.
  destruct (negb _ && _ && _ && _ && _); [|exact IH].
  right. eexists. reflexivity.
Qed.

(** The four channels of the contact dictionary. *)
Lemma contact_channels (text : str) :
  let contact := extract_contact_info text in
  dict_get "Email" contact
  = option_map (fun m => strip (group0 text m))
               (search no_flags EMAIL_REGEX text)
  /\ dict_get "Mobile" contact
     = option_map (fun m => strip (group0 text m))
                  (search no_flags PHONE_REGEX text)
  /\ dict_get "LinkedIn" contact
     = option_map (fun m => strip (group0 text m))
                  (search I_ LINKEDIN_REGEX text)
  /\ dict_get "GitHub" contact
     = option_map (fun m => strip (group0 text m))
                  (search I_ GITHUB_REGEX text).
Proof.
  cbv zeta. unfold extract_contact_info. cbv zeta.
  pose proof (finditer_head no_flags EMAIL_REGEX text) as He.
  pose proof (finditer_head no_flags PHONE_REGEX text) as Hp.
  assert (Wp : forall m, search no_flags PHONE_REGEX text = Some m ->
                         group text 1 m = group0 text m)
    by (intros m; apply whole_group).
  destruct (finditer no_flags EMAIL_REGEX text) as [|e es];
    cbn [hd_error] in He; rewrite <- He; clear He;
    (destruct (finditer no_flags PHONE_REGEX text) as [|p ps];
     cbn [hd_error] in Hp; rewrite <- Hp in *; clear Hp);
    destruct (search I_ LINKEDIN_REGEX text) as [l|];
    destruct (search I_ GITHUB_REGEX text) as [g|];
    cbn [map option_map];
    try rewrite <- (Wp _ eq_refl);
    repeat split; rewrite website_loop_other by discriminate; reflexivity.
Qed.

(** X1: each of Email, Mobile, LinkedIn and GitHub is there exactly when
    its own pattern has a match in the text, and is then the stripped
    first match, whatever the other patterns find; the keys of the
    dictionary are those of the channels found, in the order Email,
    Mobile, LinkedIn, GitHub, Website, each once. *)
Theorem contact_channels_are_first_matches (text : str) :
  let contact := extract_contact_info text in
  dict_get "Email" contact
  = option_map (fun m => strip (group0 text m))
               (search no_flags EMAIL_REGEX text)
  /\ dict_get "Mobile" contact
     = option_map (fun m => strip (group0 text m))
                  (search no_flags PHONE_REGEX text)
  /\ dict_get "LinkedIn" contact
     = option_map (fun m => strip (group0 text m))
                  (search I_ LINKEDIN_REGEX text)
  /\ dict_get "GitHub" contact
     = option_map (fun m => strip (group0 text m))
                  (search I_ GITHUB_REGEX text)
  /\ keys contact
     = filter (fun k => is_some (dict_get k contact)) contact_keys.
Proof.
  destruct (contact_channels text) as (He & Hp & Hl & Hg).
  cbv zeta in *. repeat (split; [assumption|]). clear He Hp Hl Hg.
  unfold extract_contact_info. cbv zeta.
  set (ms := map _ (finditer I_ WEBSITE_REGEX text)).
  destruct (map (group0 text) (finditer no_flags EMAIL_REGEX text))
    as [|e es];
    destruct (map (group text 1) (finditer no_flags PHONE_REGEX text))
      as [|p ps];
    destruct (search I_ LINKEDIN_REGEX text) as [l|];
    destruct (search I_ GITHUB_REGEX text) as [g|];
    match goal with
    | |- context [website_loop ms ?c] =>
        destruct (website_loop_cases ms c) as [E|[v E]]; rewrite E;
        reflexivity
    end.
Qed.

(** ** The exclusions of the website loop *)

Lemma get_cap_In (n a b : nat) (cs : list (nat * (nat * nat))) :
  get_cap n cs = Some (a, b) -> In (n, (a, b)) cs.
Proof.
  induction cs as [|[k ab] cs IH]; cbn [get_cap]; [discriminate|].
  destruct (n =? k) eqn:E.
  - apply Nat.eqb_eq in E. subst k. intros H. inversion H. left. reflexivity.
  - intros H. right. exact (IH H).
Qed.

Lemma nth_error_slice (a b i : nat) (t : str) (x : ascii) :
  nth_error (slice a b t) i = Some x -> a <= a + i < b /\ char_at t (a + i) = Some x.
Proof.
  unfold slice, char_at. intros H.
  assert (L : i < b - a).
  { destruct (Nat.lt_ge_cases i (b - a)) as [L|L]; [exact L|].
    assert (N : nth_error (firstn (b - a) (skipn a t)) i = None).
    { apply nth_error_None. rewrite length_firstn. lia. }
    congruence. }
  rewrite nth_error_firstn in H.
  assert (Q : (i <? b - a) = true) by (apply Nat.ltb_lt; exact L).
  rewrite Q in H. rewrite nth_error_skipn in H. split; [lia|exact H].
Qed.

Lemma slice_pass (P : ascii -> bool) (a b : nat) (t : str) :
  (forall j, a <= j < b -> exists c, char_at t j = Some c /\ P c = true) ->
  forallb P (slice a b t) = true.
Proof.
  intros H. apply forallb_forall. intros x I.
  apply In_nth_error in I. destruct I as [i I].
  apply nth_error_slice in I. destruct I as [B C].
  destruct (H _ B) as (c & C' & Pc). congruence.
Qed.

Lemma group_pass (P : ascii -> bool) (text : str) (n : nat) (m : rmatch_obj) :
  caps_pass P text (m_caps m) -> forallb P (group text n m) = true.
Proof.
  intros G. unfold group, group_opt.
  destruct (get_cap n (m_caps m)) as [[a b]|] eqn:E; [|reflexivity].
  apply slice_pass. apply (G n a b). apply get_cap_In. exact E.
Qed.

(** The groups of a website match are recorded before the top-level
    domain and the path, in parts that take no at sign. *)
Lemma website_caps_pass (text : str) (m : rmatch_obj) :
  In m (finditer I_ WEBSITE_REGEX text) ->
  caps_pass not_at text (m_caps m).
Proof.
  intros H. unfold finditer in H.
  destruct (finditer_from_spec I_ text WEBSITE_REGEX (S (length text)) 0)
    as [F _].
  rewrite Forall_forall in F. destruct (F m H) as [_ [_ M]]. clear F H.
  apply match_at_sound in M. destruct M as [_ M].
  unfold matches, WEBSITE_REGEX in M.
  set (G1 := Grp 1 URL_SCHEME) in M. set (G2 := Grp 2 (word "www.")) in M.
  set (G3 := Grp 3 URL_LABEL) in M.
  change (seqs [opt G1; opt G2; plus G3; URL_TLD; URL_PATH])
    with (Seq (opt G1) (Seq (opt G2) (Seq (plus G3)
                                         (Seq URL_TLD URL_PATH)))) in M.
  cbn [sem] in M. fold sem in M.
  destruct M as (st1 & H1 & st2 & H2 & st3 & H3 & st4 & H4 & H5).
  pose proof (sem_nocap I_ text URL_TLD _ _ eq_refl H4) as K4.
  pose proof (sem_nocap I_ text URL_PATH _ _ eq_refl H5) as K5.
  cbn [caps] in K5. rewrite K5, K4.
  assert (O1 : only not_at I_ (opt G1) = true) by (vm_compute; reflexivity).
  assert (O2 : only not_at I_ (opt G2) = true) by (vm_compute; reflexivity).
  assert (O3 : only not_at I_ (plus G3) = true) by (vm_compute; reflexivity).
  apply (sem_caps_pass I_ text not_at _ _ _ O3 H3).
  apply (sem_caps_pass I_ text not_at _ _ _ O2 H2).
  apply (sem_caps_pass I_ text not_at _ _ _ O1 H1).
  intros n a b [].
Qed.

Lemma lstrip_incl (s : str) (x : ascii) : In x (lstrip s) -> In x s.
Proof.
  induction s as [|c s IH]; cbn [lstrip]; auto.
  destruct (is_space c); [|auto]. intros H. right. exact (IH H).
Qed.

Lemma strip_incl (s : str) (x : ascii) : In x (strip s) -> In x s.
Proof.
  unfold strip, rstrip. intros H. apply in_rev in H.
  apply lstrip_incl in H. apply in_rev in H. apply lstrip_incl in H.
  exact H.
Qed.

Lemma contains_first (p : ascii) (sub s : str) :
  contains (p :: sub) s = true -> In p s.
Proof.
  induction s as [|c s IH]; cbn [contains startswith]; [discriminate|].
  intros H. apply orb_true_iff in H. destruct H as [H|H].
  - apply andb_true_iff in H. destruct H as [E _].
    apply Ascii.eqb_eq in E. left. symmetry. exact E.
  - right. exact (IH H).
Qed.

Lemma lower_not_at (c : ascii) : not_at c = true -> not_at (lower_char c) = true.
Proof.
  apply (implb_chars (fun c => not_at c) (fun c => not_at (lower_char c))).
  vm_compute. reflexivity.
Qed.

Lemma no_at_sign (suffix s : str) :
  forallb not_at s = true ->
  contains ("@"%char :: suffix) (lower (strip s)) = false.
Proof.
  intros H. destruct (contains _ _) eqn:C; [|reflexivity]. exfalso.
  apply contains_first in C. unfold lower in C. apply in_map_iff in C.
  destruct C as (c & E & I). apply strip_incl in I.
  rewrite forallb_forall in H. apply H in I. apply lower_not_at in I.
  rewrite E in I. discriminate.
Qed.

(** X2: the two tests of the website loop for "@gmail.com" and
    "@email.com" are false for every candidate of every text, because the
    three groups a candidate is made of never hold an at sign: the loop
    never skips a candidate for being the domain of an e-mail address. *)
Theorem email_exclusions_never_apply (text : str) :
  Forall (fun g : str * str * str =>
            let '(g1, g2, g3) := g in
            let full_url := strip (g1 ++ g2 ++ g3) in
            forallb not_at (g1 ++ g2 ++ g3) = true
            /\ contains (s2l "@gmail.com") (lower full_url) = false
            /\ contains (s2l "@email.com") (lower full_url) = false)
         (website_candidates text).
Proof.
  apply Forall_forall. intros [[g1 g2] g3] I.
  unfold website_candidates in I. apply in_map_iff in I.
  destruct I as (m & E & I). inversion E; subst g1 g2 g3; clear E.
  pose proof (website_caps_pass text m I) as G.
  assert (A : forallb not_at (group text 1 m ++ group text 2 m
                              ++ group text 3 m) = true).
  { rewrite !forallb_app, !group_pass by exact G. reflexivity. }
  cbv zeta. split; [exact A|].
  split; apply no_at_sign; exact A.
Qed.

(** ** Stripping twice *)

Lemma lstrip_idem (s : str) : lstrip (lstrip s) = lstrip s.
Proof.
  induction s as [|c s IH]; cbn [lstrip]; [reflexivity|].
  destruct (is_space c) eqn:E; [exact IH|]. cbn [lstrip]. rewrite E.
  reflexivity.
Qed.

Lemma lstrip_snoc (l : str) (c : ascii) :
  is_space c = false -> exists z, lstrip (l ++ [c]) = z ++ [c].
Proof.
  intros N. induction l as [|x l IH]; cbn [app lstrip].
  - rewrite N. exists []. reflexivity.
  - destruct (is_space x); [exact IH|]. exists (x :: l). reflexivity.
Qed.

Lemma rstrip_idem (s : str) : rstrip (rstrip s) = rstrip s.
Proof. unfold rstrip. rewrite rev_involutive, lstrip_idem. reflexivity. Qed.

(** Stripping the right end leaves a left end that is not white space. *)
Lemma lstrip_rstrip (s : str) : lstrip (rstrip (lstrip s)) = rstrip (lstrip s).
Proof.
  assert (H : match lstrip s with c :: _ => is_space c = false | [] => True end).
  { induction s as [|c s IH]; cbn [lstrip]; [exact I|].
    destruct (is_space c) eqn:E; [exact IH|exact E]. }
  destruct (lstrip s) as [|c t]; [reflexivity|].
  unfold rstrip. cbn [rev].
  destruct (lstrip_snoc (rev t) c H) as [z Z]. rewrite Z.
  rewrite rev_app_distr. cbn [rev app]. cbn [lstrip]. rewrite H.
  reflexivity.
Qed.

Lemma strip_idem (s : str) : strip (strip s) = strip s.
Proof.
  unfold strip. rewrite lstrip_rstrip. apply rstrip_idem.
Qed.

(** ** The keys and the blocks of the segmenter *)

Lemma keys_dict_set {V : Type} (k : string) (v : V) (d : dict V) :
  In k (keys d) -> keys (dict_set k v d) = keys d.
Proof.
  induction d as [|[k' v'] d IH]; cbn [keys map dict_set fst]; [intros []|].
  destruct (String.eqb k k') eqn:E.
  - apply String.eqb_eq in E. subst k'. reflexivity.
  - intros [H|H]; [apply String.eqb_neq in E; congruence|].
    cbn [map fst]. f_equal. exact (IH H).
Qed.

(** The sections whose headers the patterns look for. *)
Lemma header_names (name w : string) :
  In (name, w) header_words ->
  name = "educational_details_bottom"
  \/ In name ["professional_summary"; "areas_of_expertise"; "educational";
              "professional_experience"].
Proof.
  cbn. intros H.
  repeat (destruct H as [H|H]; [inversion H; subst; auto 10|]).
  destruct H.
Qed.

Lemma assign_content_keys (name w : string) (c : str) (sd : dict str) :
  In (name, w) header_words ->
  keys sd = keys SECTION_HEADERS ->
  keys (assign_content name c sd) = keys SECTION_HEADERS.
Proof.
  intros H K. unfold assign_content.
  destruct (header_names _ _ H) as [E|I].
  - subst name. cbn [String.eqb Ascii.eqb Bool.eqb].
    change ("educational_details_bottom" =? "educational_details_bottom")%string
      with true. cbv iota.
    destruct (dict_get "educational" sd); [|exact K].
    destruct (is_empty s); [|exact K].
    rewrite keys_dict_set; [exact K|]. rewrite K. cbn. auto.
  - assert (N : (name =? "educational_details_bottom")%string = false).
    { cbn in I.
      repeat (destruct I as [I|I]; [subst name; reflexivity|]). destruct I. }
    rewrite N. rewrite keys_dict_set; [exact K|]. rewrite K.
    cbn in I. cbn.
    repeat (destruct I as [I|I]; [auto 10|]). destruct I.
Qed.

Lemma assign_content_other (name w key : string) (c : str) (sd : dict str) :
  In (name, w) header_words ->
  ~ In key ["professional_summary"; "areas_of_expertise"; "educational";
            "professional_experience"] ->
  dict_get key (assign_content name c sd) = dict_get key sd.
Proof.
  intros H K. unfold assign_content.
  destruct (header_names _ _ H) as [E|I].
  - subst name.
    change ("educational_details_bottom" =? "educational_details_bottom")%string
      with true. cbv iota.
    destruct (dict_get "educational" sd); [|reflexivity].
    destruct (is_empty s); [|reflexivity].
    rewrite dict_get_set.
    destruct (String.eqb key "educational") eqn:E; [|reflexivity].
    apply String.eqb_eq in E. subst key. exfalso. apply K. cbn. auto.
  - assert (N : (name =? "educational_details_bottom")%string = false).
    { cbn in I.
      repeat (destruct I as [I|I]; [subst name; reflexivity|]). destruct I. }
    rewrite N. rewrite dict_get_set.
    destruct (String.eqb key name) eqn:E; [|reflexivity].
    apply String.eqb_eq in E. subst key. contradiction.
Qed.

Lemma contents_names (text : str) (hs : list header) :
  Forall (header_fact text) hs ->
  forall p, In p (contents text hs) -> exists w, In (fst p, w) header_words.
Proof.
  induction 1 as [|h rest Fh Fr IH]; cbn [contents]; [intros p []|].
  intros p [E|I]; [|exact (IH p I)].
  subst p. cbn [fst]. destruct Fh as (w & I & _). exists w. exact I.
Qed.

Lemma assign_all_keys (cs : list (string * str)) (sd : dict str) :
  (forall p, In p cs -> exists w, In (fst p, w) header_words) ->
  keys sd = keys SECTION_HEADERS ->
  keys (assign_all cs sd) = keys SECTION_HEADERS.
Proof.
  revert sd. induction cs as [|p cs IH]; intros sd N K; [exact K|].
  cbn [assign_all fold_left]. apply IH.
  - intros q I. apply N. right. exact I.
  - destruct (N p (or_introl eq_refl)) as [w W].
    exact (assign_content_keys _ w _ _ W K).
Qed.

Lemma assign_all_other (cs : list (string * str)) (sd : dict str)
  (key : string) :
  (forall p, In p cs -> exists w, In (fst p, w) header_words) ->
  ~ In key ["professional_summary"; "areas_of_expertise"; "educational";
            "professional_experience"] ->
  dict_get key (assign_all cs sd) = dict_get key sd.
Proof.
  revert sd. induction cs as [|p cs IH]; intros sd N K; [reflexivity|].
  cbn [assign_all fold_left].
  destruct (N p (or_introl eq_refl)) as [w W].
  etransitivity; [apply IH; [intros q I; apply N; right; exact I|exact K]|].
  exact (assign_content_other _ w _ _ _ W K).
Qed.

Lemma intro_summary_keys (text : str) (hs : list header) (sd : dict str) :
  keys sd = keys SECTION_HEADERS ->
  keys (intro_summary text hs sd) = keys SECTION_HEADERS.
Proof.
  intros K. unfold intro_summary. destruct hs as [|h rest]; [exact K|].
  cbv zeta.
  assert (I : In "professional_summary" (keys sd))
    by (rewrite K; cbn; auto).
  destruct (search S_I SUMMARY_REGEX _).
  - rewrite keys_dict_set; assumption.
  - destruct (10 <? _); [rewrite keys_dict_set; assumption|exact K].
Qed.

(** X3: whatever the text, the segmenter's dictionary has the nine keys
    of SECTION_HEADERS in their order, and the blocks of projects, awards,
    certifications, publications and volunteer are empty, since no header
    pattern fills them; so the project parser of [parse_resume] always
    reads a newline followed by the whole document. *)
Theorem only_four_sections_are_filled (nlp : str -> list entity)
  (text : str) :
  keys (section_text text) = keys SECTION_HEADERS
  /\ (forall key,
        In key ["projects"; "awards"; "certifications"; "publications";
                "volunteer"] ->
        dict_get key (section_text text) = Some [])
  /\ dict_get "Projects" (parse_resume nlp text)
     = Some (FEntries (parse_projects (NL :: text))).
Proof.
  pose proof (proj1 (header_matches_exact text)) as F.
  pose proof (contents_names text _ F) as N.
  assert (A : forall key,
             In key ["projects"; "awards"; "certifications"; "publications";
                     "volunteer"] ->
             dict_get key (section_text text) = Some []).
  { intros key I. unfold section_text. cbv zeta.
    rewrite intro_summary_other, assign_sections_contents, assign_all_other.
    - cbn in I.
      repeat (destruct I as [I|I]; [subst key; reflexivity|]). destruct I.
    - exact N.
    - cbn in I. cbn.
      repeat (destruct I as [I|I]; [subst key; intuition discriminate|]).
      destruct I.
    - cbn in I.
      repeat (destruct I as [I|I]; [subst key; discriminate|]). destruct I. }
  split; [|split; [exact A|]].
  - unfold section_text. cbv zeta. apply intro_summary_keys.
    rewrite assign_sections_contents. apply assign_all_keys; [exact N|].
    reflexivity.
  - unfold parse_resume. destruct (extract_name_and_title nlp text).
    cbv zeta. unfold dict_get_default at 5.
    rewrite (A "projects") by (cbn; auto). reflexivity.
Qed.

(** ** A document without headers *)

Lemma occurs_true (fl : flags) (w text : str) (s : nat) :
  w <> [] -> lit_at fl w text s = true -> occurs fl w text = true.
Proof.
  intros N H. unfold occurs. apply existsb_exists. exists s.
  split; [|exact H]. apply in_seq.
  pose proof (lit_at_within fl w text s N H). lia.
Qed.

Lemma no_header_no_matches (text : str) :
  has_header text = false -> header_matches text = [].
Proof.
  intros H. pose proof (proj1 (header_matches_exact text)) as F.
  destruct (header_matches text) as [|h rest]; [reflexivity|]. exfalso.
  inversion F as [|x l Fh Fr]; subst.
  destruct Fh as (w & I & L & _).
  assert (O : has_header text = true).
  { unfold has_header. apply existsb_exists. exists (h_name h, w).
    split; [exact I|]. cbn [snd]. apply (occurs_true I_ _ _ (h_start h)).
    - pose proof (header_word_nonempty _ _ I) as P.
      destruct (s2l w); [cbn in P; lia|discriminate].
    - exact L. }
  congruence.
Qed.

(** X4: a document that has none of the five header phrases with their
    colons ("Professional Summary:", "AREAS OF EXPERTISE:", "Educational:",
    "Professional Experience:", "Educational Details:"; any case) is not
    segmented at all: every block is empty, the introduction is not taken
    as a summary either, and the record has an empty Summary and no
    Skills, Education or Experience.  The other words of SECTION_HEADERS
    ("Skills", "Education", "Experience" and so on) do not start a
    section. *)
Theorem no_header_phrase_no_sections (nlp : str -> list entity)
  (text : str) :
  has_header text = false ->
  section_text text = empty_sections
  /\ dict_get "Summary" (parse_resume nlp text) = Some (FStr [])
  /\ dict_get "Skills" (parse_resume nlp text) = Some (FSkills [])
  /\ dict_get "Education" (parse_resume nlp text) = Some (FEntries [])
  /\ dict_get "Experience" (parse_resume nlp text) = Some (FEntries []).
Proof.
  intros H. apply no_header_no_matches in H.
  assert (E : section_text text = empty_sections).
  { unfold section_text. cbv zeta. rewrite H. reflexivity. }
  split; [exact E|].
  unfold parse_resume. destruct (extract_name_and_title nlp text).
  cbv zeta. rewrite E. repeat split; reflexivity.
Qed.

Lemma no_header_phrase_no_sections_witness :
  section_text
    (text_of ["Jane Roe"; "Summary"; "Ten years of work on compilers.";
              "Skills"; "Databases"; "MySQL"; "Experience"; "Client";
              "Acme"; "Education"; "Masters from X"])
  = empty_sections
  /\ dict_get "Summary"
       (parse_resume (fun _ => [])
          (text_of ["Jane Roe"; "Summary"; "Ten years of work on compilers.";
                    "Skills"; "Databases"; "MySQL"; "Experience"; "Client";
                    "Acme"; "Education"; "Masters from X"]))
     = Some (FStr [])
  /\ dict_get "Skills"
       (parse_resume (fun _ => [])
          (text_of ["Jane Roe"; "Summary"; "Ten years of work on compilers.";
                    "Skills"; "Databases"; "MySQL"; "Experience"; "Client";
                    "Acme"; "Education"; "Masters from X"]))
     = Some (FSkills [])
  /\ dict_get "Education"
       (parse_resume (fun _ => [])
          (text_of ["Jane Roe"; "Summary"; "Ten years of work on compilers.";
                    "Skills"; "Databases"; "MySQL"; "Experience"; "Client";
                    "Acme"; "Education"; "Masters from X"]))
     = Some (FEntries [])
  /\ dict_get "Experience"
       (parse_resume (fun _ => [])
          (text_of ["Jane Roe"; "Summary"; "Ten years of work on compilers.";
                    "Skills"; "Databases"; "MySQL"; "Experience"; "Client";
                    "Acme"; "Education"; "Masters from X"]))
     = Some (FEntries []).
Proof.
  apply (no_header_phrase_no_sections (fun _ => [])).
  vm_compute. reflexivity.
Defined.

(** ** The blocks are stripped *)

Lemma contents_stripped (text : str) (hs : list header) :
  forall p, In p (contents text hs) -> strip (snd p) = snd p.
Proof.
  induction hs as [|h rest IH]; cbn [contents]; [intros p []|].
  intros p [E|I]; [|exact (IH p I)].
  subst p. cbn [snd]. unfold content_of. apply strip_idem.
Qed.

(** X5: every block of the segmenter is stripped already, so the strip
    that [parse_resume] applies to the summary changes nothing: the
    Summary of the record is the professional_summary block. *)
Theorem blocks_are_stripped (nlp : str -> list entity) (text : str) :
  (forall key v, dict_get key (section_text text) = Some v -> strip v = v)
  /\ dict_get "Summary" (parse_resume nlp text)
     = option_map FStr (dict_get "professional_summary" (section_text text)).
Proof.
  assert (A : forall key v,
             dict_get key (section_text text) = Some v -> strip v = v).
  { intros key v. unfold section_text. cbv zeta.
    rewrite assign_sections_contents.
    set (sd := assign_all _ _).
    assert (Inv : forall k x, dict_get k sd = Some x -> strip x = x).
    { intros k x G.
      destruct (assign_all_values (fun v => strip v = v) _ empty_sections
                  (contents_stripped text _)
                  (fun k v G => or_introl (empty_sections_values k v G))
                  k x G) as [E|E]; [subst x; reflexivity|exact E]. }
    unfold intro_summary. destruct (header_matches text) as [|h rest];
      [apply Inv|]. cbv zeta.
    destruct (search S_I SUMMARY_REGEX _).
    - rewrite dict_get_set. destruct (String.eqb key _); [|apply Inv].
      intros E. inversion E. apply strip_idem.
    - destruct (10 <? _); [|apply Inv].
      rewrite dict_get_set. destruct (String.eqb key _); [|apply Inv].
      intros E. inversion E. apply strip_idem. }
  split; [exact A|].
  unfold parse_resume. destruct (extract_name_and_title nlp text).
  cbv zeta. unfold dict_get_default at 1.
  assert (K : In "professional_summary" (keys (section_text text))).
  { pose proof (proj1 (header_matches_exact text)) as F.
    pose proof (contents_names text _ F) as N.
    unfold section_text. cbv zeta. rewrite intro_summary_keys.
    - cbn. auto.
    - rewrite assign_sections_contents. apply assign_all_keys; [exact N|].
      reflexivity. }
  destruct (dict_get "professional_summary" (section_text text)) as [v|] eqn:G.
  - rewrite (A _ _ G). reflexivity.
  - exfalso. clear - K G. induction (section_text text) as [|[k x] d IH];
      [destruct K|]. cbn [dict_get] in G. cbn [keys map fst] in K.
    destruct (String.eqb _ k) eqn:E; [discriminate|].
    destruct K as [K|K]; [subst k; rewrite String.eqb_refl in E; discriminate|].
    exact (IH K G).
Qed.

(** ** The summary header and the introduction *)

Lemma lit_at_flags (w text : str) (i : nat) :
  lit_at S_I w text i = lit_at I_ w text i.
Proof.
  revert i. induction w as [|p w IH]; intros i; cbn [lit_at]; [reflexivity|].
  destruct (char_at text i); [|reflexivity]. rewrite IH. reflexivity.
Qed.

Lemma lstrip_decompose (s : str) : exists pre, s = pre ++ lstrip s.
Proof.
  induction s as [|c s [pre IH]]; cbn [lstrip]; [exists []; reflexivity|].
  destruct (is_space c); [|exists []; reflexivity].
  exists (c :: pre). cbn [app]. f_equal. exact IH.
Qed.

Lemma strip_decompose (s : str) : exists pre post, s = pre ++ strip s ++ post.
Proof.
  destruct (lstrip_decompose s) as [pre E].
  destruct (lstrip_decompose (rev (lstrip s))) as [post' E'].
  exists pre, (rev post'). unfold strip, rstrip.
  rewrite <- rev_app_distr, <- E', rev_involutive. exact E.
Qed.

Lemma lit_at_inside (fl : flags) (w pre mid post : str) (i : nat) :
  lit_at fl w mid i = true ->
  lit_at fl w (pre ++ mid ++ post) (length pre + i) = true.
Proof.
  revert i. induction w as [|p w IH]; intros i; cbn [lit_at]; [reflexivity|].
  unfold char_at. destruct (nth_error mid i) as [c|] eqn:C; [|discriminate].
  assert (L : i < length mid) by (apply nth_error_Some; congruence).
  rewrite nth_error_app2 by lia.
  replace (length pre + i - length pre) with i by lia.
  rewrite nth_error_app1 by exact L. rewrite C.
  intros H. apply andb_true_iff in H. destruct H as [O R].
  rewrite O. cbn [andb]. replace (S (length pre + i)) with (length pre + S i)
    by lia. exact (IH _ R).
Qed.

Lemma lit_at_firstn (fl : flags) (w text : str) (n i : nat) :
  lit_at fl w (firstn n text) i = true -> lit_at fl w text i = true.
Proof.
  revert i. induction w as [|p w IH]; intros i; cbn [lit_at]; [reflexivity|].
  unfold char_at. rewrite nth_error_firstn.
  destruct (i <? n); [|discriminate].
  destruct (nth_error text i); [|discriminate].
  intros H. apply andb_true_iff in H. destruct H as [O R].
  rewrite O. exact (IH _ R).
Qed.

(** The text before the first header never holds the phrase
    "Professional Summary:", since an occurrence of it is a header and
    would come first: the search for it in the introduction fails. *)
Lemma intro_search_fails (text : str) (h : header)
  (rest : list header) :
  header_matches text = h :: rest ->
  search S_I SUMMARY_REGEX (strip (slice 0 (h_start h) text)) = None.
Proof.
  intros E.
  destruct (search S_I SUMMARY_REGEX _) as [m|] eqn:S; [exfalso|reflexivity].
  apply search_at_sound in S. destruct S as [_ M].
  apply match_at_sound in M. destruct M as [_ M].
  unfold matches, SUMMARY_REGEX in M.
  match type of M with
  | sem _ _ (seqs (_ :: ?tl)) _ _ =>
      change (sem S_I (strip (slice 0 (h_start h) text))
                (Seq (lits (s2l "Professional Summary:")) (seqs tl))
                {| pos := m_start m; caps := [] |}
                {| pos := m_end m; caps := m_caps m |}) in M
  end.
  cbn [sem] in M. destruct M as (st1 & L & _).
  apply sem_lits in L. destruct L as (_ & _ & L). cbn [pos] in L.
  rewrite lit_at_flags in L.
  unfold slice in L. rewrite Nat.sub_0_r in L. cbn [skipn] in L.
  destruct (strip_decompose (firstn (h_start h) text)) as (pre & post & D).
  apply (lit_at_inside I_ _ pre _ post) in L. rewrite <- D in L.
  assert (B : length pre + m_start m < h_start h).
  { apply lit_at_within in L; [|discriminate].
    rewrite length_firstn in L. lia. }
  apply lit_at_firstn in L.
  destruct (proj2 (header_matches_exact text) "professional_summary"
              "Professional Summary:" _ (or_introl eq_refl) L)
    as (h' & I & Sh & _).
  pose proof (proj2 (sort_headers_spec (collect_headers text))) as Srt.
  fold (header_matches text) in Srt. rewrite E in Srt, I.
  inversion Srt as [|x l _ F]; subst.
  destruct I as [I|I]; [subst h'; lia|].
  rewrite Forall_forall in F. specialize (F _ I). unfold by_start in F. lia.
Qed.

(** X6: the search for "Professional Summary:" in the text before the
    first header always fails, so the summary of the introduction comes
    from its lines before the first contact line only; when these hold
    more than ten words they are the professional_summary block, also
    when the document has a "Professional Summary:" section, whose block
    is then dropped; otherwise the block is the one the headers gave. *)
Theorem long_introduction_is_the_summary (text : str) (h : header)
  (rest : list header) :
  header_matches text = h :: rest ->
  let intro_text := strip (slice 0 (h_start h) text) in
  let summary_candidate :=
    strip (join [NL] (summary_lines (split NL intro_text))) in
  search S_I SUMMARY_REGEX intro_text = None
  /\ dict_get "professional_summary" (section_text text)
     = if 10 <? length (split_ws summary_candidate)
       then Some summary_candidate
       else dict_get "professional_summary"
              (assign_sections text (h :: rest) empty_sections).
Proof.
  intros E. cbv zeta.
  pose proof (intro_search_fails text h rest E) as N.
  split; [exact N|].
  unfold section_text. cbv zeta. rewrite E. unfold intro_summary.
  cbv zeta. rewrite N.
  destruct (10 <? _); [|reflexivity].
  rewrite dict_get_set. reflexivity.
Qed.

Lemma long_introduction_is_the_summary_witness :
  search S_I SUMMARY_REGEX (strip (slice 0 58 intro_then_summary)) = None
  /\ dict_get "professional_summary" (section_text intro_then_summary)
     = Some (s2l "I write compilers and I have done so for many long years.").
Proof.
  exact (long_introduction_is_the_summary intro_then_summary
           {| h_start := 58; h_end := 80; h_name := "professional_summary";
              h_text := s2l "Professional Summary: " |} []
           ltac:(vm_compute; reflexivity)).
Defined.

(** ** The pieces of a split *)

(** A character of a piece of [pieces] is a character of the text that
    lies in none of the matches. *)
Lemma pieces_chars (text : str) (ms : list rmatch_obj) (from : nat)
  (x : str) (c : ascii) :
  StronglySorted (fun m1 m2 => m_end m1 <= m_start m2) ms ->
  Forall (fun m => from <= m_start m <= m_end m) ms ->
  In x (pieces text from ms) -> In c x ->
  exists j, from <= j /\ char_at text j = Some c
            /\ forall m, In m ms -> ~ (m_start m <= j < m_end m).
Proof.
  intros S. revert from. induction S as [|m ms S IH F]; intros from B Ix Ic.
  - cbn [pieces] in Ix. destruct Ix as [E|[]]. subst x.
    apply In_nth_error in Ic. destruct Ic as [i Ic].
    rewrite nth_error_skipn in Ic. exists (from + i).
    split; [lia|]. split; [exact Ic|]. intros m [].
  - cbn [pieces] in Ix. inversion B as [|m' l Bm Br]; subst.
    rewrite Forall_forall in F.
    destruct Ix as [E|Ix].
    + subst x. apply In_nth_error in Ic. destruct Ic as [i Ic].
      apply nth_error_slice in Ic. destruct Ic as [Bi Ci].
      exists (from + i). split; [lia|]. split; [exact Ci|].
      intros m' [E|I]; [subst m'; lia|]. specialize (F _ I). lia.
    + assert (Br' : Forall (fun m' => m_end m <= m_start m' <= m_end m') ms).
      { apply Forall_forall. intros m' I. specialize (F _ I).
        rewrite Forall_forall in Br. specialize (Br _ I). lia. }
      destruct (IH _ Br' Ix Ic) as (j & Lj & Cj & N).
      exists j. split; [lia|]. split; [exact Cj|].
      intros m' [E|I]; [subst m'; lia|exact (N _ I)].
Qed.

(** A greedy repetition of a character class matches wherever a
    character of the class is. *)
Lemma plus_class_matches (fl : flags) (text : str) (neg : bool)
  (items : list citem) (s : nat) (c : ascii) :
  char_at text s = Some c -> cls_ok fl neg items c = true ->
  exists m, match_at fl text (plus (Cls neg items)) s = Some m
            /\ m_start m < m_end m.
Proof.
  intros C O.
  destruct (match_at fl text (plus (Cls neg items)) s) as [m|] eqn:M.
  - exists m. split; [reflexivity|].
    apply match_at_sound in M. destruct M as [E M]. unfold matches in M.
    cbn [plus sem] in M.
    change (iter (takes text (cls_ok fl neg items)) 1 None 0
              {| pos := s; caps := [] |}
              {| pos := m_end m; caps := m_caps m |}) in M.
    apply iter_takes_min in M. cbn [pos] in M. lia.
  - exfalso. unfold match_at, plus in M. cbn [rmatch pos] in M.
    pose proof (char_at_lt _ _ _ C) as L.
    destruct (length text - s) as [|n] eqn:D; [lia|].
    cbn [plus Nat.add rep_loop under Nat.leb] in M.
    cbn [rmatch] in M. unfold step_if at 1 in M. cbn [pos] in M.
    rewrite C, O in M. cbn [advance pos Nat.ltb Nat.leb] in M.
    rewrite orb_true_r in M.
    destruct (step_if text (cls_ok fl neg items) _ _); discriminate.
Qed.

(** No piece of a split at runs of a character class has a character of
    the class. *)
Lemma split_pieces_clean (fl : flags) (text : str) (neg : bool)
  (items : list citem) (x : str) (c : ascii) :
  In x (re_split fl (plus (Cls neg items)) text) -> In c x ->
  cls_ok fl neg items c = false.
Proof.
  intros Ix Ic. destruct (cls_ok fl neg items c) eqn:O; [exfalso|reflexivity].
  unfold re_split, finditer in Ix.
  destruct (finditer_from_spec fl text (plus (Cls neg items))
              (S (length text)) 0) as [F Srt].
  assert (B : Forall (fun m => 0 <= m_start m <= m_end m)
                     (finditer_from fl text (plus (Cls neg items))
                        (S (length text)) 0)).
  { apply Forall_forall. intros m I. rewrite Forall_forall in F.
    specialize (F _ I). lia. }
  destruct (pieces_chars text _ 0 x c Srt B Ix Ic) as (j & _ & Cj & N).
  destruct (plus_class_matches fl text neg items j c Cj O) as (m & M & _).
  pose proof (char_at_lt _ _ _ Cj) as Lj.
  destruct (finditer_from_covers fl text _ (S (length text)) 0 j m
              ltac:(lia) ltac:(lia) M) as (m0 & I0 & L0 & R0).
  rewrite Forall_forall in F. destruct (F _ I0) as (_ & _ & M0).
  assert (P0 : m_start m0 < m_end m0).
  { apply match_at_sound in M0. destruct M0 as [_ M0]. unfold matches in M0.
    cbn [plus sem] in M0.
    change (iter (takes text (cls_ok fl neg items)) 1 None 0
              {| pos := m_start m0; caps := [] |}
              {| pos := m_end m0; caps := m_caps m0 |}) in M0.
    apply iter_takes_min in M0. cbn [pos] in M0. lia. }
  apply (N _ I0). lia.
Qed.

(** ** The skills dictionary *)

Lemma dict_get_keys {V : Type} (k : string) (d : dict V) :
  In k (keys d) <-> dict_get k d <> None.
Proof.
  induction d as [|[k' v'] d IH]; cbn [keys map fst dict_get In].
  - split; [intros []|intros H; apply H; reflexivity].
  - destruct (String.eqb k k') eqn:E.
    + apply String.eqb_eq in E. subst k'. split; [discriminate|auto].
    + apply String.eqb_neq in E. rewrite <- IH. unfold keys.
      split; [intros [H|H]; [congruence|exact H]|auto].
Qed.

Lemma keys_dict_set_new {V : Type} (k : string) (v : V) (d : dict V) :
  ~ In k (keys d) -> keys (dict_set k v d) = keys d ++ [k].
Proof.
  induction d as [|[k' v'] d IH]; cbn [keys map dict_set fst app In];
    [reflexivity|].
  intros N. destruct (String.eqb k k') eqn:E.
  - apply String.eqb_eq in E. subst k'. exfalso. apply N. left. reflexivity.
  - cbn [map fst]. f_equal. apply IH. intros I. apply N. right. exact I.
Qed.

Lemma find_category_In (line : str) (names : list string) (c : string) :
  find_category line names = Some c -> In c names.
Proof.
  induction names as [|n names IH]; cbn [find_category]; [discriminate|].
  destruct (eqs _ _).
  - intros E. inversion E. left. reflexivity.
  - intros H. right. exact (IH H).
Qed.

Lemma dict_append_get (k c : string) (v : str) (d : dict (list str)) :
  dict_get k (dict_append c v d)
  = if String.eqb k c
    then option_map (fun l => l ++ [v]) (dict_get c d)
    else dict_get k d.
Proof.
  unfold dict_append. destruct (dict_get c d) as [l|] eqn:G.
  - rewrite dict_get_set. destruct (String.eqb k c); reflexivity.
  - destruct (String.eqb k c) eqn:E; [|reflexivity].
    apply String.eqb_eq in E. subst k. rewrite G. reflexivity.
Qed.

Lemma dict_append_keys (c : string) (v : str) (d : dict (list str)) :
  keys (dict_append c v d) = keys d.
Proof.
  unfold dict_append. destruct (dict_get c d) as [l|] eqn:G; [|reflexivity].
  apply keys_dict_set. apply dict_get_keys. congruence.
Qed.

(** The loop over the skills of a line appends the stripped, non-empty
    ones to the list of the current category. *)
Lemma skills_loop_get (k c : string) (skills : list str)
  (d : dict (list str)) :
  dict_get k (skills_loop c skills d)
  = if String.eqb k c
    then option_map
           (fun l => l ++ filter (fun s => negb (eqs s [])) (map strip skills))
           (dict_get c d)
    else dict_get k d.
Proof.
  revert d. induction skills as [|s skills IH]; intros d;
    cbn [skills_loop map filter].
  - destruct (String.eqb k c) eqn:E; [|reflexivity].
    apply String.eqb_eq in E. subst k.
    destruct (dict_get c d); cbn [option_map]; [rewrite app_nil_r|];
      reflexivity.
  - cbv zeta. destruct (negb (eqs (strip s) [])) eqn:N; [|apply IH].
    assert (A : (if eqs (strip s) (s2l "Angular 8 10 12")
                 then dict_append c (s2l "Angular 8 10 12") d
                 else dict_append c (strip s) d)
                = dict_append c (strip s) d).
    { destruct (eqs (strip s) (s2l "Angular 8 10 12")) eqn:E; [|reflexivity].
      apply eqs_true in E. rewrite E. reflexivity. }
    rewrite A, IH. destruct (String.eqb k c) eqn:E.
    + rewrite dict_append_get, String.eqb_refl.
      destruct (dict_get c d); cbn [option_map]; [|reflexivity].
      rewrite <- app_assoc. reflexivity.
    + rewrite dict_append_get, E. reflexivity.
Qed.

Lemma skills_loop_keys (c : string) (skills : list str)
  (d : dict (list str)) :
  keys (skills_loop c skills d) = keys d.
Proof.
  revert d. induction skills as [|s skills IH]; intros d;
    cbn [skills_loop]; [reflexivity|].
  cbv zeta. destruct (negb (eqs (strip s) [])); [|apply IH].
  rewrite IH. destruct (eqs (strip s) _); apply dict_append_keys.
Qed.

Lemma delim_class (c : ascii) :
  cls_ok no_flags false [one ","; one ";"] c = false -> is_delim c = false.
Proof.
  intros H.
  pose proof (forall_chars
    (fun c => implb (negb (cls_ok no_flags false [one ","; one ";"] c))
                    (negb (is_delim c))) eq_refl c) as F.
  cbv beta in F. rewrite H in F. cbn in F.
  destruct (is_delim c); [discriminate|reflexivity].
Qed.

(** The skills of a line are not empty, stripped and free of commas and
    semicolons. *)
Lemma skills_of_line_good (line x : str) :
  In x (skills_of_line line) ->
  x <> [] /\ strip x = x /\ forallb (fun c => negb (is_delim c)) x = true.
Proof.
  unfold skills_of_line. intros H. apply filter_In in H.
  destruct H as [I N]. apply in_map_iff in I. destruct I as (p & E & I).
  subst x. split; [|split].
  - intros Q. rewrite Q in N. discriminate.
  - apply strip_idem.
  - apply forallb_forall. intros c Ic. apply strip_incl in Ic.
    unfold SKILL_DELIMS in I.
    rewrite (delim_class c (split_pieces_clean _ _ _ _ _ _ I Ic)).
    reflexivity.
Qed.

(** What the loop over the lines keeps true of the dictionary and the
    category cursor. *)
Lemma skills_lines_invariant (lines : list str)
  (state : dict (list str) * option string) :
  (NoDup (keys (fst state))
   /\ incl (keys (fst state)) (keys SKILL_CATEGORIES)
   /\ (forall c, snd state = Some c -> In c (keys (fst state)))
   /\ (forall k l x, dict_get k (fst state) = Some l -> In x l ->
         x <> [] /\ strip x = x
         /\ forallb (fun c => negb (is_delim c)) x = true)) ->
  let state' := parse_skills_lines lines state in
  NoDup (keys (fst state'))
  /\ incl (keys (fst state')) (keys SKILL_CATEGORIES)
  /\ (forall c, snd state' = Some c -> In c (keys (fst state')))
  /\ (forall k l x, dict_get k (fst state') = Some l -> In x l ->
        x <> [] /\ strip x = x
        /\ forallb (fun c => negb (is_delim c)) x = true).
Proof.
  revert state. induction lines as [|line lines IH]; intros state Inv;
    [exact Inv|].
  cbv zeta. unfold parse_skills_lines. cbn [fold_left].
  apply IH. clear IH. destruct state as [d cur].
  destruct Inv as (ND & Inc & Cur & Val). cbn [fst snd] in *.
  unfold skills_step.
  destruct (find_category line (keys SKILL_CATEGORIES)) as [c|] eqn:F.
  - cbn [fst snd]. apply find_category_In in F.
    destruct (in_dec string_dec c (keys d)) as [I|N].
    + rewrite (keys_dict_set c [] d I).
      repeat split; auto.
      * intros c' E. inversion E. subst c'. exact I.
      * rewrite dict_get_set in H.
        destruct (String.eqb k c); [inversion H; subst l; destruct H0|].
        exact (proj1 (Val k l x H H0)).
      * rewrite dict_get_set in H.
        destruct (String.eqb k c); [inversion H; subst l; destruct H0|].
        exact (proj1 (proj2 (Val k l x H H0))).
      * rewrite dict_get_set in H.
        destruct (String.eqb k c); [inversion H; subst l; destruct H0|].
        exact (proj2 (proj2 (Val k l x H H0))).
    + rewrite (keys_dict_set_new c [] d N).
      repeat split.
      * apply NoDup_app; [exact ND|repeat constructor; intros []|].
        intros a Ia [E|[]]. subst a. exact (N Ia).
      * intros a Ia. apply in_app_or in Ia.
        destruct Ia as [Ia|[E|[]]]; [exact (Inc a Ia)|subst a; exact F].
      * intros c' E. inversion E. subst c'. apply in_or_app. right.
        left. reflexivity.
      * rewrite dict_get_set in H.
        destruct (String.eqb k c); [inversion H; subst l; destruct H0|].
        exact (proj1 (Val k l x H H0)).
      * rewrite dict_get_set in H.
        destruct (String.eqb k c); [inversion H; subst l; destruct H0|].
        exact (proj1 (proj2 (Val k l x H H0))).
      * rewrite dict_get_set in H.
        destruct (String.eqb k c); [inversion H; subst l; destruct H0|].
        exact (proj2 (proj2 (Val k l x H H0))).
  - destruct cur as [c|]; cbn [fst snd]; [|repeat split; auto; apply (Val k l x); assumption].
    rewrite skills_loop_keys.
    split; [exact ND|]. split; [exact Inc|]. split; [exact Cur|].
    intros k l x G Ix. rewrite skills_loop_get in G.
    destruct (String.eqb k c); [|exact (Val k l x G Ix)].
    destruct (dict_get c d) as [l0|] eqn:G0; [|discriminate].
    cbn [option_map] in G. inversion G. subst l.
    apply in_app_or in Ix. destruct Ix as [Ix|Ix];
      [exact (Val c l0 x G0 Ix)|].
    apply (skills_of_line_good line). exact Ix.
Qed.

Lemma parse_skills_invariant (text : str) :
  NoDup (keys (parse_skills text))
  /\ incl (keys (parse_skills text)) (keys SKILL_CATEGORIES)
  /\ (forall k l x, dict_get k (parse_skills text) = Some l -> In x l ->
        x <> [] /\ strip x = x
        /\ forallb (fun c => negb (is_delim c)) x = true).
Proof.
  unfold parse_skills.
  destruct (skills_lines_invariant (stripped_lines text) ([], None))
    as (A & B & _ & C).
  - cbn [fst snd keys map].
    split; [constructor|]. split; [intros a []|].
    split; [discriminate|]. intros k l x G. discriminate.
  - auto.
Qed.

(** X7: the skills dictionary has each category at most once, and every
    key is one of the ten names of SKILL_CATEGORIES, whatever the case of
    the line that named it. *)
Theorem skills_keys_are_categories (text : str) :
  NoDup (keys (parse_skills text))
  /\ forall k, In k (keys (parse_skills text)) ->
               In k (keys SKILL_CATEGORIES).
Proof.
  destruct (parse_skills_invariant text) as (A & B & _).
  split; [exact A|exact B].
Qed.

(** X8: every skill of the dictionary is a non-empty, stripped string
    without comma or semicolon. *)
Theorem skills_are_clean (text : str) (k : string) (l : list str) (x : str) :
  dict_get k (parse_skills text) = Some l -> In x l ->
  x <> [] /\ strip x = x /\ forallb (fun c => negb (is_delim c)) x = true.
Proof.
  destruct (parse_skills_invariant text) as (_ & _ & C). apply C.
Qed.

Lemma skills_are_clean_witness :
  s2l "PostgreSQL" <> [] /\ strip (s2l "PostgreSQL") = s2l "PostgreSQL"
  /\ forallb (fun c => negb (is_delim c)) (s2l "PostgreSQL") = true.
Proof.
  apply (skills_are_clean skills_sample "Databases"
           [s2l "MySQL"; s2l "PostgreSQL"] (s2l "PostgreSQL")).
  - vm_compute. reflexivity.
  - right. left. reflexivity.
Defined.

(** After a category line, lines that name no category add their skills
    to that category. *)
Lemma skills_lines_after_header (lines : list str) (d : dict (list str))
  (c : string) (l0 : list str) :
  (forall x, In x lines -> find_category x (keys SKILL_CATEGORIES) = None) ->
  dict_get c d = Some l0 ->
  dict_get c (fst (parse_skills_lines lines (d, Some c)))
  = Some (l0 ++ flat_map skills_of_line lines).
Proof.
  revert d l0. induction lines as [|line lines IH]; intros d l0 N G.
  - cbn. rewrite app_nil_r. exact G.
  - unfold parse_skills_lines. cbn [fold_left flat_map].
    unfold skills_step at 2. rewrite (N line (or_introl eq_refl)).
    fold (parse_skills_lines lines
            (skills_loop c (re_split no_flags SKILL_DELIMS line) d, Some c)).
    rewrite (IH _ (l0 ++ skills_of_line line)).
    + rewrite <- app_assoc. reflexivity.
    + intros x I. apply N. right. exact I.
    + rewrite skills_loop_get, String.eqb_refl, G. reflexivity.
Qed.

(** X9: a line that names a category starts its list afresh: when no
    later line names a category, the list of that category holds the
    skills of the lines after it and nothing of what came before, also
    when the category had been named and filled earlier. *)
Theorem category_line_starts_afresh (text : str) (before after : list str)
  (line : str) (c : string) :
  stripped_lines text = before ++ line :: after ->
  find_category line (keys SKILL_CATEGORIES) = Some c ->
  (forall x, In x after -> find_category x (keys SKILL_CATEGORIES) = None) ->
  dict_get c (parse_skills text) = Some (flat_map skills_of_line after).
Proof.
  intros E F N. unfold parse_skills, parse_skills_lines. rewrite E.
  rewrite fold_left_app. cbn [fold_left].
  destruct (fold_left skills_step before ([], None)) as [d cur].
  unfold skills_step at 2. rewrite F.
  fold (parse_skills_lines after (dict_set c [] d, Some c)).
  rewrite (skills_lines_after_header after _ c [] N); [reflexivity|].
  rewrite dict_get_set, String.eqb_refl. reflexivity.
Qed.

Lemma category_line_starts_afresh_witness :
  dict_get "Databases"
    (parse_skills (text_of ["Databases"; "MySQL, PostgreSQL"; "databases";
                            "Oracle; DB2"]))
  = Some (flat_map skills_of_line [s2l "Oracle; DB2"]).
Proof.
  apply (category_line_starts_afresh
           (text_of ["Databases"; "MySQL, PostgreSQL"; "databases";
                     "Oracle; DB2"])
           [s2l "Databases"; s2l "MySQL, PostgreSQL"] [s2l "Oracle; DB2"]
           (s2l "databases") "Databases").
  - vm_compute. reflexivity.
  - vm_compute. reflexivity.
  - intros x [E|[]]. subst x. vm_compute. reflexivity.
Defined.

(** ** The entries of the experience parser *)

Lemma pieces_length (text : str) (from : nat) (ms : list rmatch_obj) :
  length (pieces text from ms) = S (length ms).
Proof.
  revert from. induction ms as [|m ms IH]; intros from; cbn [pieces length];
    [reflexivity|]. rewrite IH. reflexivity.
Qed.

Lemma experience_step_entry (block : str) (e : dict value) :
  In e (experience_step [] block) ->
  e = job_of_block (strip block) /\ e <> [].
Proof.
  unfold experience_step. cbv zeta.
  destruct (eqs (strip block) []); [intros []|].
  destruct (job_of_block (strip block)) as [|p j]; [intros []|].
  cbn [app]. intros [E|[]]. subst e. split; [reflexivity|discriminate].
Qed.

Lemma experience_step_length (block : str) :
  length (experience_step [] block) <= 1.
Proof.
  unfold experience_step. cbv zeta.
  destruct (eqs (strip block) []); [cbn; lia|].
  destruct (job_of_block (strip block)); cbn; lia.
Qed.

Lemma experience_entry (text : str) (e : dict value) :
  In e (parse_experience text) ->
  exists block, In block (re_split I_ JOB_SPLIT text)
                /\ e = job_of_block (strip block) /\ e <> [].
Proof.
  unfold parse_experience. cbv zeta. rewrite experience_loop_appends.
  cbn [app]. intros H. apply in_flat_map in H. destruct H as (b & I & H).
  exists b. split; [exact I|]. apply experience_step_entry. exact H.
Qed.

Ltac job_cases block :=
  unfold job_of_block; cbv zeta;
  destruct (search S_I CLIENT_REGEX block) as [cm|];
  [destruct (search no_flags LOCATION_REGEX _) as [lm|];
   [|destruct (search I_ LOCATION_FALLBACK_REGEX block) as [fm|]]|];
  destruct (search S_I RESPONSIBILITIES_REGEX block) as [rm|];
  cbn [dict_set dict_get keys map fst String.eqb Ascii.eqb Bool.eqb].

Lemma job_of_block_keys (block : str) :
  job_of_block block = [] \/ In (keys (job_of_block block)) entry_key_lists.
Proof.
  job_cases block; unfold entry_key_lists; cbn [In]; auto 10.
Qed.

(** X10: every entry of the experience list has one of five key lists:
    Client, Title and Duration together, then Location and
    Responsibilities when they are found, or Responsibilities alone; and
    the list has at most one entry per block, so at most one more than
    there are "Client" marker lines. *)
Theorem experience_entries_have_known_keys (text : str) :
  (forall e, In e (parse_experience text) -> In (keys e) entry_key_lists)
  /\ length (parse_experience text) <= S (client_markers text).
Proof.
  split.
  - intros e H. apply experience_entry in H.
    destruct H as (b & _ & E & N).
    destruct (job_of_block_keys (strip b)) as [Z|K]; [congruence|].
    rewrite E. exact K.
  - unfold parse_experience. cbv zeta. rewrite experience_loop_appends.
    cbn [app]. unfold client_markers, re_split.
    rewrite <- (pieces_length text 0).
    induction (pieces text 0 (finditer I_ JOB_SPLIT text)) as [|b bs IH];
      cbn [flat_map length]; [lia|].
    rewrite length_app. pose proof (experience_step_length b). lia.
Qed.

(** ** The values of an entry *)

Lemma split_acc_clean (sep : ascii) (cur s p : str) (c : ascii) :
  (forall x, In x cur -> eqc x sep = false) ->
  In p (split_acc sep cur s) -> In c p -> eqc c sep = false.
Proof.
  revert cur. induction s as [|x s IH]; intros cur Hc; cbn [split_acc].
  - intros [E|[]] I. subst p. apply in_rev in I. exact (Hc _ I).
  - destruct (eqc x sep) eqn:E.
    + intros [Q|I] Ic.
      * subst p. apply in_rev in Ic. exact (Hc _ Ic).
      * apply (IH [] ltac:(intros y []) I Ic).
    + apply IH. intros y [Q|I]; [subst y; exact E|exact (Hc _ I)].
Qed.

Lemma split_clean (sep : ascii) (s p : str) (c : ascii) :
  In p (split sep s) -> In c p -> eqc c sep = false.
Proof. apply split_acc_clean. intros x []. Qed.

Lemma first_piece_clean (sep : ascii) (s : str) (c : ascii) :
  In c (strip (nth 0 (split sep s) [])) -> eqc c sep = false.
Proof.
  intros H. apply strip_incl in H.
  destruct (split sep s) as [|p ps] eqn:E; [destruct H|].
  cbn [nth] in H. apply (split_clean sep s p c); [|exact H].
  rewrite E. left. reflexivity.
Qed.

Lemma responsibilities_clean (resp_text x : str) :
  In x (responsibilities_of resp_text) -> x <> [] /\ strip x = x.
Proof.
  unfold responsibilities_of. intros H. apply in_map_iff in H.
  destruct H as (line & E & I). apply filter_In in I. destruct I as [_ N].
  subst x. split; [|apply strip_idem].
  intros Q. rewrite Q in N. discriminate.
Qed.

Lemma job_of_block_values (block : str) :
  (forall k v, dict_get k (job_of_block block) = Some (VStr v) -> strip v = v)
  /\ (forall v c, dict_get "Client" (job_of_block block) = Some (VStr v) ->
                  In c v -> eqc c "," = false)
  /\ (forall k l x, dict_get k (job_of_block block) = Some (VList l) ->
                    In x l -> k = "Responsibilities"
                              /\ x <> [] /\ strip x = x).
Proof.
  split; [|split].
  - intros k v. job_cases block;
      repeat (destruct (String.eqb k _);
              [intros E; inversion E; apply strip_idem|]);
      try discriminate;
      repeat (destruct (String.eqb k _); [discriminate|]);
      try discriminate.
  - intros v c. job_cases block; try discriminate;
      intros E; inversion E; apply first_piece_clean.
  - intros k l x. job_cases block;
      repeat match goal with
             | |- context [if String.eqb k ?s then Some (VStr _) else _] =>
                 destruct (String.eqb k s); [discriminate|]
             end;
      try discriminate;
      (destruct (String.eqb k "Responsibilities") eqn:Q; [|discriminate]);
      apply String.eqb_eq in Q; intros E I; inversion E; subst l;
      (split; [exact Q|exact (responsibilities_clean _ _ I)]).
Qed.

(** X11: in every entry of the experience list the string values are
    stripped, the Client holds no comma (it is cut at the first one), and
    the only list value is Responsibilities, whose items are non-empty and
    stripped. *)
Theorem experience_values_are_clean (text : str) (e : dict value) :
  In e (parse_experience text) ->
  (forall k v, dict_get k e = Some (VStr v) -> strip v = v)
  /\ (forall v c, dict_get "Client" e = Some (VStr v) ->
                  In c v -> eqc c "," = false)
  /\ (forall k l x, dict_get k e = Some (VList l) -> In x l ->
                    k = "Responsibilities" /\ x <> [] /\ strip x = x).
Proof.
  intros H. apply experience_entry in H. destruct H as (b & _ & E & _).
  subst e. apply job_of_block_values.
Qed.

Lemma experience_values_are_clean_witness :
  (forall k v,
     dict_get k [ ("Responsibilities", VList [s2l "testing"]) ]
     = Some (VStr v) ->
     strip v = v)
  /\ (forall v c,
        dict_get "Client" [ ("Responsibilities", VList [s2l "testing"]) ]
        = Some (VStr v) ->
        In c v -> eqc c "," = false)
  /\ (forall k l x,
        dict_get k [ ("Responsibilities", VList [s2l "testing"]) ]
        = Some (VList l) ->
        In x l -> k = "Responsibilities" /\ x <> [] /\ strip x = x).
Proof.
  apply (experience_values_are_clean two_jobs_with_duties).
  vm_compute. right. left. reflexivity.
Defined.

Lemma experience_entries_have_known_keys_witness :
  In ["Client"; "Title"; "Duration"] entry_key_lists
  /\ length (parse_experience two_jobs) <= 2.
Proof.
  split.
  - apply (proj1 (experience_entries_have_known_keys two_jobs)
             [ ("Client", VStr (s2l "Acme")); ("Title", VStr (s2l "Dev"));
               ("Duration", VStr (s2l "2020")) ]).
    vm_compute. left. reflexivity.
  - exact (proj2 (experience_entries_have_known_keys two_jobs)).
Defined.

(** ** The order of strings *)






(** ** [sorted(list(set(...)))] *)








(** ** The names of the technology pattern *)





(** ** A document of white space *)

Lemma blank_no_nonspace (text : str) :
  forallb is_space text = true ->
  forallb (fun c => negb (negb (is_space c))) text = true.
Proof.
  intros H. rewrite forallb_forall in *. intros c I.
  rewrite (H c I). reflexivity.
Qed.

Lemma blank_no_search (fl : flags) (r : regex) (text : str) :
  needs (fun c => negb (is_space c)) fl r = true ->
  forallb is_space text = true -> search fl r text = None.
Proof.
  intros N B. apply (needs_no_search _ fl r text N).
  apply blank_no_nonspace. exact B.
Qed.

Lemma blank_no_finditer (fl : flags) (r : regex) (text : str) :
  needs (fun c => negb (is_space c)) fl r = true ->
  forallb is_space text = true -> finditer fl r text = [].
Proof.
  intros N B. apply (needs_no_finditer _ fl r text N).
  apply blank_no_nonspace. exact B.
Qed.

Lemma blank_lstrip (s : str) : forallb is_space s = true -> lstrip s = [].
Proof.
  induction s as [|c s IH]; cbn [forallb lstrip]; [reflexivity|].
  intros H. apply andb_true_iff in H. destruct H as [C R].
  rewrite C. exact (IH R).
Qed.

Lemma blank_strip (s : str) : forallb is_space s = true -> strip s = [].
Proof. intros H. unfold strip. rewrite (blank_lstrip s H). reflexivity. Qed.

Lemma split_acc_incl (sep : ascii) (cur s p : str) (c : ascii) :
  In p (split_acc sep cur s) -> In c p -> In c cur \/ In c s.
Proof.
  revert cur. induction s as [|x s IH]; intros cur; cbn [split_acc].
  - intros [E|[]] I. subst p. apply in_rev in I. left. exact I.
  - destruct (eqc x sep).
    + intros [E|I] Ic.
      * subst p. apply in_rev in Ic. left. exact Ic.
      * destruct (IH [] I Ic) as [[]|H]. right. right. exact H.
    + intros I Ic. destruct (IH _ I Ic) as [[E|H]|H].
      * subst x. right. left. reflexivity.
      * left. exact H.
      * right. right. exact H.
Qed.

Lemma blank_stripped_lines (text : str) :
  forallb is_space text = true -> stripped_lines text = [].
Proof.
  intros B. unfold stripped_lines.
  assert (F : filter (fun line => negb (eqs (strip line) []))
                     (split NL text) = []).
  { assert (G : forall l, (forall p, In p l -> In p (split NL text)) ->
                filter (fun line => negb (eqs (strip line) [])) l = []).
    { induction l as [|p l IH]; intros Hl; cbn [filter]; [reflexivity|].
      rewrite blank_strip.
      - cbn [eqs negb]. apply IH. intros q I. apply Hl. right. exact I.
      - apply forallb_forall. intros c Ic.
        destruct (split_acc_incl NL [] text p c (Hl p (or_introl eq_refl)) Ic)
          as [[]|H].
        rewrite forallb_forall in B. exact (B c H). }
    apply G. auto. }
  rewrite F. reflexivity.
Qed.

(** X13: a document that holds white space only gives the same record
    as the empty document, for any recogniser: no name, title or contact
    channel, an empty summary and no entry of any kind. *)
Theorem blank_document_gives_empty_record (nlp : str -> list entity)
  (text : str) :
  forallb is_space text = true -> parse_resume nlp text = empty_record.
Proof.
  intros B.
  assert (B' : forallb is_space (NL :: text) = true)
    by (cbn [forallb]; rewrite B; reflexivity).
  assert (Nm : extract_name_and_title nlp text = ([], [])).
  { unfold extract_name_and_title. rewrite (blank_stripped_lines text B).
    cbv zeta. cbn [is_empty eqs firstn upper_line_name].
    rewrite (blank_no_search I_ FRONT_END_REGEX text eq_refl B).
    reflexivity. }
  assert (Ct : extract_contact_info text = []).
  { unfold extract_contact_info.
    rewrite (blank_no_finditer no_flags EMAIL_REGEX text eq_refl B).
    rewrite (blank_no_finditer no_flags PHONE_REGEX text eq_refl B).
    rewrite (blank_no_search I_ LINKEDIN_REGEX text eq_refl B).
    rewrite (blank_no_search I_ GITHUB_REGEX text eq_refl B).
    rewrite (blank_no_finditer I_ WEBSITE_REGEX text eq_refl B).
    reflexivity. }
  assert (Sc : section_text text = empty_sections).
  { unfold section_text, header_matches, collect_headers, header_patterns,
      header_words, pattern_headers.
    cbn [map flat_map fst snd].
    repeat match goal with
           | |- context [finditer I_ (header_pattern ?w) text] =>
               rewrite (blank_no_finditer I_ (header_pattern w) text
                          eq_refl B)
           end.
    reflexivity. }
  unfold parse_resume. rewrite Nm, Ct, Sc. cbv zeta.
  change (dict_get_default "projects" empty_sections ++ [NL] ++ text)
    with (NL :: text).
  unfold parse_projects at 1.
  rewrite (blank_no_search S_I PROJECT_REGEX (NL :: text) eq_refl B').
  reflexivity.
Qed.

Lemma blank_document_gives_empty_record_witness :
  parse_resume (fun _ => [])
    [" "%char; NL; ascii_of_N 9; " "%char; NL; ascii_of_N 13; NL]
  = empty_record.
Proof.
  apply (blank_document_gives_empty_record (fun _ => [])).
  vm_compute. reflexivity.
Defined.

(** ** Canonical dates as input *)

Lemma digit_not_P (n : N) : eqc "P" (digit_char n) = false.
Proof.
  pose proof (digit_char_cases n) as H.
  remember (digit_char n) as c eqn:E. clear E. simpl in H.
  repeat (destruct H as [H|H]; [rewrite <- H; reflexivity|]).
  contradiction.
Qed.

Lemma months_stay :
  forallb (fun m => eqs (_parse_single_date (digits2 m)) (digits2 m))
          (N_seq 1 12) = true.
Proof. vm_compute. reflexivity. Qed.

Lemma parse_single_date_month (m : N) :
  (1 <= m <= 12)%N -> _parse_single_date (digits2 m) = digits2 m.
Proof.
  intros H. apply eqs_true.
  pose proof months_stay as F. rewrite forallb_forall in F.
  apply (F m). apply In_N_seq. cbn. lia.
Qed.

Lemma strip_digits (a b : N) (s : str) :
  strip (digit_char a :: s ++ [digit_char b]) = digit_char a :: s ++ [digit_char b].
Proof.
  apply (strip_id _ (digit_char b) _ (digit_char a :: s));
    [apply digit_not_space|apply digit_not_space|reflexivity].
Qed.

(** X14: no date comes back from [parse_date_range] in the form
    [strftime("%Y-%m-%d")] gave it: the canonical form of any date from
    the year 1000 on is cut at its hyphens, the start is its bare year and
    the end the two digits of its month. *)
Theorem canonical_dates_do_not_round_trip (now d : datetime) :
  valid_date d = true -> (1000 <= year d)%N ->
  parse_date_range now (map DChar (strftime_Ymd d))
  = (strftime_Y d, digits2 (month d)).
Proof.
  intros V Hy. unfold valid_date in V.
  repeat (apply andb_true_iff in V; destruct V as [V ?]).
  repeat match goal with
         | H : (_ <=? _)%N = true |- _ => apply N.leb_le in H
         end.
  unfold parse_date_range. rewrite replace_en_dash_chars.
  assert (St : strip (strftime_Ymd d) = strftime_Ymd d).
  { unfold strftime_Ymd, digits4, digits2.
    cbn [s2l list_ascii_of_string app].
    apply (strip_digits _ _
             [digit_char (year d / 100); digit_char (year d / 10);
              digit_char (year d); "-"%char; digit_char (month d / 10);
              digit_char (month d); "-"%char; digit_char (day d / 10)]). }
  rewrite St.
  assert (Np : contains (s2l "Present") (strftime_Ymd d) = false).
  { unfold strftime_Ymd, digits4, digits2.
    cbn [s2l list_ascii_of_string app contains startswith].
    rewrite !digit_not_P. reflexivity. }
  rewrite Np.
  assert (P : split "-" (strftime_Ymd d)
              = [digits4 (year d); digits2 (month d); digits2 (day d)]).
  { unfold strftime_Ymd, digits4, digits2, split.
    cbn [s2l list_ascii_of_string app].
    repeat first [ rewrite split_acc_hyphen
                 | rewrite split_acc_other by
                     first [reflexivity | apply digit_not_hyphen] ].
    reflexivity. }
  rewrite P. cbn [nth length Nat.ltb Nat.leb].
  assert (S4 : strip (digits4 (year d)) = digits4 (year d)).
  { unfold digits4.
    apply (strip_digits _ _ [digit_char (year d / 100);
                             digit_char (year d / 10)]). }
  assert (S2 : strip (digits2 (month d)) = digits2 (month d)).
  { unfold digits2. apply (strip_digits _ _ []). }
  rewrite S4, S2.
  rewrite parse_single_date_year by lia.
  rewrite parse_single_date_month by lia.
  reflexivity.
Qed.

Lemma canonical_dates_do_not_round_trip_witness :
  parse_date_range {| year := 2026; month := 11; day := 4 |}
    (map DChar (strftime_Ymd {| year := 2019; month := 6; day := 30 |}))
  = (s2l "2019", s2l "06").
Proof.
  apply (canonical_dates_do_not_round_trip
           {| year := 2026; month := 11; day := 4 |}
           {| year := 2019; month := 6; day := 30 |}).
  - vm_compute. reflexivity.
  - cbn. lia.
Defined.

(** ** A single date *)

Lemma digit_is_digit (n : N) : is_digit (digit_char n) = true.
Proof.
  pose proof (digit_char_cases n) as H.
  remember (digit_char n) as c eqn:E. clear E. simpl in H.
  repeat (destruct H as [H|H]; [rewrite <- H; reflexivity|]).
  contradiction.
Qed.

Lemma digit_in_class (n : N) : cls_ok I_ false [CDg] (digit_char n) = true.
Proof.
  pose proof (digit_char_cases n) as H.
  remember (digit_char n) as c eqn:E. clear E. simpl in H.
  repeat (destruct H as [H|H]; [rewrite <- H; reflexivity|]).
  contradiction.
Qed.

(** The year group of a date format takes four digits. *)
Lemma year_group (a b c d : ascii) (tail : str)
  (k : mstate -> option mstate) :
  cls_ok I_ false [CDg] a = true -> cls_ok I_ false [CDg] b = true ->
  cls_ok I_ false [CDg] c = true -> cls_ok I_ false [CDg] d = true ->
  rmatch I_ (a :: b :: c :: d :: tail) (directive_regex D_Y) k
         {| pos := 0; caps := [] |}
  = k {| pos := 4; caps := [(3, (0, 4))] |}.
Proof.
  intros Ha Hb Hc Hd. unfold directive_regex, digit.
  cbn [seqs rmatch]. unfold step_if.
  cbn [pos caps advance char_at nth_error]. rewrite Ha.
  cbn [pos caps advance char_at nth_error]. rewrite Hb.
  cbn [pos caps advance char_at nth_error]. rewrite Hc.
  cbn [pos caps advance char_at nth_error]. rewrite Hd.
  reflexivity.
Qed.

(** After the year, the rest of the format year-month-day takes the two
    digits of a month and of a day, whatever the digits of the year. *)
Lemma iso_rest (a b c d : ascii) :
  forallb
    (fun m =>
       forallb
         (fun dd =>
            match rmatch I_
                    ([a; b; c; d] ++ "-"%char :: digits2 m
                     ++ "-"%char :: digits2 dd)
                    (seqs (map directive_regex
                               [D_lit "-"; D_m; D_lit "-"; D_d]))
                    Some {| pos := 4; caps := [(3, (0, 4))] |} with
            | Some st =>
                (pos st =? 10)
                && match caps st with
                   | [(5, (8, 10)); (4, (5, 7)); (3, (0, 4))] => true
                   | _ => false
                   end
            | None => false
            end)
         (N_seq 1 31))
    (N_seq 1 12) = true.
Proof. vm_compute. reflexivity. Qed.

Lemma iso_match (y m dd : N) :
  (1 <= m <= 12)%N -> (1 <= dd <= 31)%N ->
  match_at I_ (strftime_Ymd {| year := y; month := m; day := dd |})
           (format_regex [D_Y; D_lit "-"; D_m; D_lit "-"; D_d]) 0
  = Some {| m_start := 0; m_end := 10;
            m_caps := [(5, (8, 10)); (4, (5, 7)); (3, (0, 4))] |}.
Proof.
  intros Hm Hd. unfold match_at, format_regex, strftime_Ymd, digits4.
  cbn [year month day s2l list_ascii_of_string app].
  change (seqs (map directive_regex [D_Y; D_lit "-"; D_m; D_lit "-"; D_d]))
    with (Seq (directive_regex D_Y)
              (seqs (map directive_regex [D_lit "-"; D_m; D_lit "-"; D_d]))).
  cbn [rmatch]. rewrite year_group by apply digit_in_class.
  pose proof (iso_rest (digit_char (y / 1000)) (digit_char (y / 100))
                (digit_char (y / 10)) (digit_char y)) as F.
  rewrite forallb_forall in F.
  specialize (F m (In_N_seq 12 1 m ltac:(cbn; lia))). cbv beta in F.
  rewrite forallb_forall in F.
  specialize (F dd (In_N_seq 31 1 dd ltac:(cbn; lia))). cbv beta in F.
  cbn [app] in F.
  destruct (rmatch I_ _ _ Some _) as [[p cs]|]; [|discriminate].
  cbn [pos caps] in F. apply andb_true_iff in F. destruct F as [P C].
  apply Nat.eqb_eq in P. subst p.
  destruct cs as [|[n1 [a1 b1]] [|[n2 [a2 b2]] [|[n3 [a3 b3]] [|? ?]]]];
    try discriminate;
    repeat match type of C with
           | context [match ?n with _ => _ end] =>
               is_var n; destruct n; cbn in C; try discriminate
           end.
  reflexivity.
Qed.

Lemma int_of_year :
  forallb (fun y => (int_of (digits4 y) =? y)%N) (N_seq 1000 9000) = true.
Proof. vm_compute. reflexivity. Qed.

Lemma int_of_month :
  forallb (fun m => (int_of (strip (digits2 m)) =? m)%N) (N_seq 1 31) = true.
Proof. vm_compute. reflexivity. Qed.

Lemma valid_date_bounds (d : datetime) :
  valid_date d = true ->
  (1 <= year d <= 9999 /\ 1 <= month d <= 12 /\ 1 <= day d <= 31)%N.
Proof.
  unfold valid_date. intros V.
  repeat (apply andb_true_iff in V; destruct V as [V ?]).
  repeat match goal with
         | H : (_ <=? _)%N = true |- _ => apply N.leb_le in H
         end.
  assert (days_in_month (year d) (month d) <= 31)%N.
  { unfold days_in_month.
    repeat match goal with
           | |- context [match ?x with _ => _ end] => destruct x
           end; lia. }
  lia.
Qed.

(** [strptime] reads the canonical form of a date back. *)
Lemma strptime_canonical (d : datetime) :
  valid_date d = true -> (1000 <= year d)%N ->
  strptime (strftime_Ymd d) [D_Y; D_lit "-"; D_m; D_lit "-"; D_d] = Some d.
Proof.
  intros V Hy. destruct (valid_date_bounds d V) as (By & Bm & Bd).
  destruct d as [y m dd]. cbn [year month day] in *.
  unfold strptime. rewrite (iso_match y m dd Bm Bd).
  cbn [m_end m_caps group_opt get_cap Nat.eqb].
  assert (L : length (strftime_Ymd {| year := y; month := m; day := dd |})
              = 10) by reflexivity.
  rewrite L. cbn [Nat.eqb negb]. cbv zeta.
  change (slice 0 4 (strftime_Ymd {| year := y; month := m; day := dd |}))
    with (digits4 y).
  change (slice 5 7 (strftime_Ymd {| year := y; month := m; day := dd |}))
    with (digits2 m).
  change (slice 8 10 (strftime_Ymd {| year := y; month := m; day := dd |}))
    with (digits2 dd).
  assert (Ey : int_of (digits4 y) = y).
  { pose proof int_of_year as F. rewrite forallb_forall in F.
    apply N.eqb_eq. apply (F y). apply In_N_seq.
    assert (E : N.of_nat 9000 = 9000%N) by (vm_compute; reflexivity).
    rewrite E. lia. }
  assert (Em : int_of (strip (digits2 m)) = m).
  { pose proof int_of_month as F. rewrite forallb_forall in F.
    apply N.eqb_eq. apply (F m). apply In_N_seq. cbn. lia. }
  assert (Ed : int_of (strip (digits2 dd)) = dd).
  { pose proof int_of_month as F. rewrite forallb_forall in F.
    apply N.eqb_eq. apply (F dd). apply In_N_seq. cbn. lia. }
  rewrite Ey, Em, Ed, V. reflexivity.
Qed.

(** A character of a canonical date is a digit or the hyphen. *)
Lemma canonical_chars (d : datetime) :
  forallb (fun c => negb (negb (is_digit c || eqc c "-"))) (strftime_Ymd d)
  = true.
Proof.
  unfold strftime_Ymd, digits4, digits2.
  cbn [s2l list_ascii_of_string app forallb].
  rewrite !digit_is_digit. reflexivity.
Qed.

Lemma month_name_formats_fail (d : datetime) :
  strptime (strftime_Ymd d) [D_B; D_space; D_Y] = None
  /\ strptime (strftime_Ymd d) [D_b; D_space; D_Y] = None.
Proof.
  unfold strptime. split.
  - rewrite (needs_no_match I_ (strftime_Ymd d)
               (fun c => negb (is_digit c || eqc c "-"))
               (format_regex [D_B; D_space; D_Y]) eq_refl
               (canonical_chars d)). reflexivity.
  - rewrite (needs_no_match I_ (strftime_Ymd d)
               (fun c => negb (is_digit c || eqc c "-"))
               (format_regex [D_b; D_space; D_Y]) eq_refl
               (canonical_chars d)). reflexivity.
Qed.

(** A canonical date, taken as a single date, is left as it is. *)
Lemma parse_single_date_canonical (d : datetime) :
  valid_date d = true -> (1000 <= year d)%N ->
  _parse_single_date (strftime_Ymd d) = strftime_Ymd d.
Proof.
  intros V Hy. unfold _parse_single_date, patterns.
  cbn [parse_single_loop].
  destruct (month_name_formats_fail d) as [F1 F2]. rewrite F1, F2.
  rewrite (strptime_canonical d V Hy).
  assert (L : length (strftime_Ymd d) = 10) by reflexivity.
  rewrite L. reflexivity.
Qed.

Lemma split_acc_none (sep : ascii) (cur s : str) :
  forallb (fun c => negb (eqc c sep)) s = true ->
  split_acc sep cur s = [rev cur ++ s].
Proof.
  revert cur. induction s as [|c s IH]; intros cur; cbn [forallb split_acc].
  - intros _. rewrite app_nil_r. reflexivity.
  - intros H. apply andb_true_iff in H. destruct H as [C R].
    apply negb_true_iff in C. rewrite C, (IH _ R). cbn [rev].
    rewrite <- app_assoc. reflexivity.
Qed.

(** X15: the en dash separates two dates as the hyphen does; a date
    string without hyphen, without en dash and without the word
    "Present" is a single date: the start is that date as
    [_parse_single_date] reads it, and the end is the current date in
    full, year, month and day (for a current date from the year 1000
    on). *)
Theorem single_date_ends_today (now : datetime)
  (date_str : list date_char) :
  valid_date now = true -> (1000 <= year now)%N ->
  forallb (fun d => match d with
                    | DChar c => negb (eqc c "-")
                    | EnDash => false
                    end) date_str = true ->
  contains (s2l "Present") (strip (replace_en_dash date_str)) = false ->
  parse_date_range now date_str
  = (_parse_single_date (strip (replace_en_dash date_str)),
     strftime_Ymd now)
  /\ parse_date_range now (dstr "2019 " ++ EnDash :: dstr " 2021")
     = (s2l "2019", s2l "2021").
Proof.
  intros V Hy Nh Np. split; [|vm_compute; reflexivity].
  unfold parse_date_range. rewrite Np.
  assert (Nr : forallb (fun c => negb (eqc c "-")) (replace_en_dash date_str)
               = true).
  { clear - Nh. induction date_str as [|d l IH]; [reflexivity|].
    cbn [forallb] in Nh. apply andb_true_iff in Nh. destruct Nh as [D R].
    cbn [replace_en_dash map forallb]. fold (replace_en_dash l).
    rewrite (IH R). destruct d as [c|]; [|discriminate].
    rewrite D. reflexivity. }
  assert (Ns : forallb (fun c => negb (eqc c "-"))
                       (strip (replace_en_dash date_str)) = true).
  { rewrite forallb_forall in *. intros c I. apply Nr.
    apply strip_incl. exact I. }
  unfold split. rewrite (split_acc_none "-" [] _ Ns).
  cbn [rev app nth length Nat.ltb Nat.leb].
  rewrite strip_idem, (parse_single_date_canonical now V Hy). reflexivity.
Qed.

Lemma single_date_ends_today_witness :
  parse_date_range {| year := 2026; month := 11; day := 4 |}
    (dstr " March 2021 ")
  = (s2l "2021-03-01", s2l "2026-11-04")
  /\ parse_date_range {| year := 2026; month := 11; day := 4 |}
       (dstr "2019 " ++ EnDash :: dstr " 2021")
     = (s2l "2019", s2l "2021").
Proof.
  apply (single_date_ends_today {| year := 2026; month := 11; day := 4 |}
           (dstr " March 2021 ")).
  - vm_compute. reflexivity.
  - cbn. lia.
  - vm_compute. reflexivity.
  - vm_compute. reflexivity.
Defined.

(** ** The name is in title case *)

Lemma title_char_facts (c : ascii) :
  lower_char (lower_char c) = lower_char c
  /\ is_alpha (lower_char c) = is_alpha c
  /\ is_alpha (upper_char c) = is_alpha c
  /\ ((code c =? 223)%N = true -> is_alpha c = true)
  /\ ((code c =? 223)%N = false ->
      title_chars (upper_char c) = [upper_char c]).
Proof.
  pose proof (forall_chars
    (fun c => eqc (lower_char (lower_char c)) (lower_char c)
              && Bool.eqb (is_alpha (lower_char c)) (is_alpha c)
              && Bool.eqb (is_alpha (upper_char c)) (is_alpha c)
              && implb (code c =? 223)%N (is_alpha c)
              && ((code c =? 223)%N
                  || eqs (title_chars (upper_char c)) [upper_char c]))
    eq_refl c) as F.
  cbv beta in F.
  repeat (apply andb_true_iff in F; destruct F as [F ?]).
  repeat split.
  - apply Ascii.eqb_eq. assumption.
  - apply Bool.eqb_prop. assumption.
  - apply Bool.eqb_prop. assumption.
  - intros E. rewrite E in *. assumption.
  - intros E. rewrite E in *. apply eqs_true. assumption.
Qed.

Lemma title_from_idem (s : str) (b : bool) :
  title_from b (title_from b s) = title_from b s.
Proof.
  revert b. induction s as [|c s IH]; intros b; [reflexivity|].
  cbn [title_from].
  destruct (title_char_facts c) as (L1 & L2 & U & S & T).
  destruct b.
  - cbn [app title_from]. rewrite L1, L2, IH. reflexivity.
  - unfold title_chars at 1 2. destruct (code c =? 223)%N eqn:E.
    + rewrite (S eq_refl).
      change (s2l "Ss" ++ title_from true s)
        with ("S"%char :: "s"%char :: title_from true s).
      cbn [title_from].
      change (title_chars "S") with ["S"%char].
      change (lower_char "s") with "s"%char.
      change (is_alpha "S") with true. change (is_alpha "s") with true.
      rewrite IH. reflexivity.
    + cbn [app title_from]. rewrite (T eq_refl), U, IH. reflexivity.
Qed.

Lemma title_idem (s : str) : title (title s) = title s.
Proof. apply title_from_idem. Qed.

Lemma person_name_titled (ents : list entity) :
  title (person_name ents) = person_name ents.
Proof.
  induction ents as [|e ents IH]; cbn [person_name]; [reflexivity|].
  destruct (_ && _); [apply title_idem|exact IH].
Qed.

Lemma upper_line_name_titled (lines : list str) :
  title (upper_line_name lines) = upper_line_name lines.
Proof.
  induction lines as [|l lines IH]; cbn [upper_line_name]; [reflexivity|].
  destruct (_ && _ && _ && _); [apply title_idem|exact IH].
Qed.

(** X16: for a document of 8-bit characters and a recogniser whose
    entity texts hold neither the micro sign nor y with diaeresis (the two
    8-bit characters whose upper case lies beyond the range), the name of
    the result is in title case, whichever way it was found: applying
    [str.title] to it gives it back. *)
Theorem name_is_in_title_case (nlp : str -> list entity) (text : str) :
  (forall line e, In e (nlp line) ->
                  forallb upper_in_range (ent_text e) = true) ->
  title (fst (extract_name_and_title nlp text))
  = fst (extract_name_and_title nlp text).
Proof.
  intros _. unfold extract_name_and_title. cbv zeta. cbn [fst].
  destruct (stripped_lines text) as [|first others].
  - reflexivity.
  - set (n1 := person_name (nlp first)).
    assert (T1 : title n1 = n1) by apply person_name_titled.
    destruct others as [|second rest].
    + destruct (is_empty n1); [apply upper_line_name_titled|exact T1].
    + destruct (is_empty n1) eqn:E1.
      * destruct (is_empty (person_name (nlp second)));
          [apply upper_line_name_titled|apply person_name_titled].
      * rewrite E1. exact T1.
Qed.

Lemma name_is_in_title_case_witness :
  title (s2l "Jane Roe") = s2l "Jane Roe".
Proof.
  apply (name_is_in_title_case
           (fun _ => [{| ent_text := s2l "JANE roe";
                         ent_label := s2l "PERSON" |}])
           (text_of ["JANE roe"; "Engineer"])).
  intros line e [E|[]]. subst e. vm_compute. reflexivity.
Defined.

(** ** The title ends in a job word *)

Lemma lit_at_ci (fl : flags) (w text : str) (i : nat) :
  IGNORECASE fl = true -> lit_at fl w text i = lit_at I_ w text i.
Proof.
  intros C. revert i. induction w as [|p w IH]; intros i; cbn [lit_at];
    [reflexivity|].
  destruct (char_at text i); [|reflexivity]. rewrite IH.
  unfold lit_ok. rewrite C. reflexivity.
Qed.













(** ** The phrases the entry parsers start from *)

(** A match of a pattern that starts with a literal has the literal at
    its start. *)
Lemma search_starts_with (fl : flags) (w : str) (rest : regex) (text : str)
  (m : rmatch_obj) :
  IGNORECASE fl = true -> w <> [] ->
  search fl (Seq (lits w) rest) text = Some m ->
  occurs I_ w text = true.
Proof.
  intros C N H. apply search_at_sound in H. destruct H as [_ M].
  apply match_at_sound in M. destruct M as [_ M].
  unfold matches in M. cbn [sem] in M. destruct M as (st1 & L & _).
  apply sem_lits in L. destruct L as (_ & _ & L). cbn [pos] in L.
  rewrite (lit_at_ci fl) in L by exact C.
  exact (occurs_true I_ w text _ N L).
Qed.

Lemma occurs_false (fl : flags) (w text : str) (i : nat) :
  w <> [] -> occurs fl w text = false -> lit_at fl w text i = false.
Proof.
  intros N O. destruct (lit_at fl w text i) eqn:L; [|reflexivity].
  rewrite (occurs_true fl w text i N L) in O. discriminate.
Qed.

(** A literal that is in a stripped text is in the text. *)
Lemma occurs_strip (w text : str) :
  w <> [] -> occurs I_ w (strip text) = true -> occurs I_ w text = true.
Proof.
  intros N O. unfold occurs in O. apply existsb_exists in O.
  destruct O as (i & _ & L).
  destruct (strip_decompose text) as (pre & post & D).
  apply (lit_at_inside I_ w pre _ post) in L. rewrite <- D in L.
  exact (occurs_true I_ w text _ N L).
Qed.

(** A literal that is in a text after one more character is in the text,
    unless it starts with that character. *)
Lemma occurs_cons (w text : str) (c p : ascii) :
  lit_ok I_ p c = false ->
  occurs I_ (p :: w) (c :: text) = true -> occurs I_ (p :: w) text = true.
Proof.
  intros Nc O. unfold occurs in O. apply existsb_exists in O.
  destruct O as (i & _ & L). destruct i as [|i].
  - cbn [lit_at char_at nth_error] in L. rewrite Nc in L. discriminate.
  - apply (occurs_true I_ (p :: w) text i); [discriminate|].
    clear - L. revert L. generalize (p :: w) as v. intros v. revert i.
    induction v as [|q v IH]; intros i; cbn [lit_at]; [reflexivity|].
    unfold char_at. cbn [nth_error]. fold (char_at text i).
    destruct (char_at text i); [|discriminate].
    intros H. apply andb_true_iff in H. destruct H as [O R].
    rewrite O, (IH _ R). reflexivity.
Qed.

(** Without a "Client" there is no block marker. *)
Lemma no_client_no_marker (text : str) :
  occurs I_ (s2l "Client") text = false -> finditer I_ JOB_SPLIT text = [].
Proof.
  intros O. pose proof (finditer_head I_ JOB_SPLIT text) as H.
  destruct (finditer I_ JOB_SPLIT text) as [|m ms]; [reflexivity|].
  exfalso. cbn [hd_error] in H. symmetry in H.
  apply search_at_sound in H. destruct H as [_ M].
  apply match_at_sound in M. destruct M as [_ M].
  unfold matches, JOB_SPLIT in M.
  change (seqs [newline; word "Client"; newline])
    with (Seq newline (Seq (lits (s2l "Client")) newline)) in M.
  cbn [sem] in M. fold sem in M. destruct M as (st1 & _ & st2 & L & _).
  apply sem_lits in L. destruct L as (_ & _ & L).
  assert (N : s2l "Client" <> []) by discriminate.
  rewrite (occurs_true I_ _ text _ N L) in O. discriminate.
Qed.

(** X18: the entry parsers start from fixed phrases, in any case: a text
    without "Bachelor of Technology in " and "Masters from " has no
    education entry, one without "Client" and "Responsibilities:" no
    experience entry, and a document without "E-commerce Recommendation
    System" no project, in the project parser and in the record. *)
Theorem no_phrase_no_entry (nlp : str -> list entity) (text : str) :
  (occurs I_ (s2l "Bachelor of Technology in ") text = false ->
   occurs I_ (s2l "Masters from ") text = false ->
   parse_education text = [])
  /\ (occurs I_ (s2l "Client") text = false ->
      occurs I_ (s2l "Responsibilities:") text = false ->
      parse_experience text = [])
  /\ (occurs I_ (s2l "E-commerce Recommendation System") text = false ->
      parse_projects text = []
      /\ dict_get "Projects" (parse_resume nlp text) = Some (FEntries [])).
Proof.
  split; [|split].
  - intros Ob Om. unfold parse_education. cbv zeta.
    destruct (search I_ BTECH_REGEX text) as [m|] eqn:Sb.
    { unfold BTECH_REGEX in Sb.
      match type of Sb with
      | search _ (seqs (_ :: ?tl)) _ = _ =>
          change (search I_ (Seq (lits (s2l "Bachelor of Technology in "))
                                 (seqs tl)) text = Some m) in Sb
      end.
      apply search_starts_with in Sb; [congruence|reflexivity|discriminate]. }
    destruct (search I_ MASTERS_REGEX text) as [m|] eqn:Sm; [|reflexivity].
    unfold MASTERS_REGEX in Sm.
    match type of Sm with
    | search _ (seqs (_ :: ?tl)) _ = _ =>
        change (search I_ (Seq (lits (s2l "Masters from ")) (seqs tl)) text
                = Some m) in Sm
    end.
    apply search_starts_with in Sm; [congruence|reflexivity|discriminate].
  - intros Oc Or. unfold parse_experience, re_split. cbv zeta.
    rewrite (no_client_no_marker text Oc). cbn [pieces skipn fold_left].
    unfold experience_step. cbv zeta.
    destruct (eqs (strip text) []); [reflexivity|].
    assert (Jb : job_of_block (strip text) = []).
    { unfold job_of_block. cbv zeta.
      destruct (search S_I CLIENT_REGEX (strip text)) as [m|] eqn:Sc.
      { unfold CLIENT_REGEX in Sc.
        match type of Sc with
        | search _ (seqs (_ :: ?tl)) _ = _ =>
            change (search S_I (Seq (lits (s2l "Client")) (seqs tl))
                           (strip text) = Some m) in Sc
        end.
        apply search_starts_with in Sc; [|reflexivity|discriminate].
        apply occurs_strip in Sc; [congruence|discriminate]. }
      destruct (search S_I RESPONSIBILITIES_REGEX (strip text)) as [m|] eqn:Sr;
        [|reflexivity].
      unfold RESPONSIBILITIES_REGEX in Sr.
      match type of Sr with
      | search _ (seqs (_ :: ?tl)) _ = _ =>
          change (search S_I (Seq (lits (s2l "Responsibilities:")) (seqs tl))
                         (strip text) = Some m) in Sr
      end.
      apply search_starts_with in Sr; [|reflexivity|discriminate].
      apply occurs_strip in Sr; [congruence|discriminate]. }
    rewrite Jb. reflexivity.
  - intros Op.
    assert (G : forall t, occurs I_ (s2l "E-commerce Recommendation System") t
                          = false -> parse_projects t = []).
    { intros t Ot. unfold parse_projects.
      destruct (search S_I PROJECT_REGEX t) as [m|] eqn:Sp; [|reflexivity].
      unfold PROJECT_REGEX in Sp.
      match type of Sp with
      | search _ (seqs (_ :: ?tl)) _ = _ =>
          change (search S_I
                    (Seq (lits (s2l "E-commerce Recommendation System"))
                         (seqs tl)) t = Some m) in Sp
      end.
      apply search_starts_with in Sp; [congruence|reflexivity|discriminate]. }
    split; [exact (G text Op)|].
    unfold parse_resume. destruct (extract_name_and_title nlp text).
    cbv zeta.
    assert (E : dict_get_default "projects" (section_text text) = []).
    { pose proof (proj1 (header_matches_exact text)) as F.
      pose proof (contents_names text _ F) as N.
      unfold dict_get_default, section_text. cbv zeta.
      rewrite intro_summary_other by discriminate.
      rewrite assign_sections_contents.
      rewrite (assign_all_other _ _ "projects" N);
        [reflexivity|cbn; intuition discriminate]. }
    rewrite E. cbn [app].
    rewrite (G (NL :: text)); [reflexivity|].
    destruct (occurs I_ (s2l "E-commerce Recommendation System")
                (NL :: text)) eqn:O; [|reflexivity].
    apply occurs_cons in O; [|reflexivity].
    change (occurs I_ (s2l "E-commerce Recommendation System") text = true)
      in O. congruence.
Qed.

Lemma no_phrase_no_entry_witness :
  parse_education (s2l "B.Sc. in Physics, University of Leeds, 2012") = []
  /\ parse_experience (s2l "Employer: Acme. Duties: testing.") = []
  /\ parse_projects (s2l "Project: a route planner - Python.") = [].
Proof.
  split; [|split].
  - apply (proj1 (no_phrase_no_entry (fun _ => [])
                    (s2l "B.Sc. in Physics, University of Leeds, 2012")));
      vm_compute; reflexivity.
  - apply (proj1 (proj2 (no_phrase_no_entry (fun _ => [])
                           (s2l "Employer: Acme. Duties: testing."))));
      vm_compute; reflexivity.
  - apply (proj1 (proj2 (proj2 (no_phrase_no_entry (fun _ => [])
                           (s2l "Project: a route planner - Python.")))
                        ltac:(vm_compute; reflexivity))).
Defined.

(** ** The shape of the e-mail address and of the telephone number *)

Lemma iter_takes_max (text : str) (ok : ascii -> bool) lo (hi : nat) i st st' :
  iter (takes text ok) lo (Some hi) i st st' -> i <= hi ->
  pos st' <= pos st + (hi - i).
Proof.
  intros I. induction I as [i st L|i st st1 st2 U R1 Pr I' IH]; intros B.
  - lia.
  - destruct R1 as (c & _ & _ & E). subst st1. cbn [advance pos] in *.
    cbn [under] in U. apply Nat.ltb_lt in U.
    specialize (IH ltac:(lia)). lia.
Qed.

(** A repetition of exactly [n] characters of a class. *)
Lemma sem_times (fl : flags) (text : str) (n : nat) (neg : bool)
  (items : list citem) (st st' : mstate) :
  sem fl text (times n n (Cls neg items)) st st' ->
  pos st' = pos st + n
  /\ forall j, pos st <= j < pos st' ->
       exists c, char_at text j = Some c /\ cls_ok fl neg items c = true.
Proof.
  unfold times. cbn [sem]. intros H.
  change (iter (takes text (cls_ok fl neg items)) n (Some n) 0 st st') in H.
  pose proof (iter_takes_min _ _ _ _ _ _ _ H) as Mn.
  pose proof (iter_takes_max _ _ _ _ _ _ _ H ltac:(lia)) as Mx.
  apply iter_takes in H. destruct H as (_ & _ & C).
  split; [lia|exact C].
Qed.

(** An optional character. *)
Lemma sem_opt_char (fl : flags) (text : str) (r : regex) (P : ascii -> bool)
  (st st' : mstate) :
  only P fl r = true ->
  (forall a b, sem fl text r a b -> pos b = S (pos a)) ->
  sem fl text (opt r) st st' ->
  pos st <= pos st' <= S (pos st)
  /\ forall j, pos st <= j < pos st' ->
       exists c, char_at text j = Some c /\ P c = true.
Proof.
  intros O One H. unfold opt in H. cbn [sem] in H. apply iter_opt in H.
  destruct H as [E|H].
  - subst st'. split; [lia|]. intros j J. lia.
  - pose proof (One _ _ H) as Q.
    destruct (sem_only fl text P r _ _ O H) as [_ C].
    split; [lia|exact C].
Qed.

Lemma filter_all {A : Type} (P : A -> bool) (l : list A) :
  forallb P l = true -> filter P l = l.
Proof.
  induction l as [|x l IH]; cbn [forallb filter]; [reflexivity|].
  intros H. apply andb_true_iff in H. destruct H as [X R].
  rewrite X, (IH R). reflexivity.
Qed.

Lemma filter_none {A : Type} (P : A -> bool) (l : list A) :
  forallb (fun x => negb (P x)) l = true -> filter P l = [].
Proof.
  induction l as [|x l IH]; cbn [forallb filter]; [reflexivity|].
  intros H. apply andb_true_iff in H. destruct H as [X R].
  apply negb_true_iff in X. rewrite X. exact (IH R).
Qed.

Lemma lstrip_blank_prefix (s : str) :
  exists pre, s = pre ++ lstrip s /\ forallb is_space pre = true.
Proof.
  induction s as [|c s (pre & E & B)]; cbn [lstrip].
  - exists []. split; reflexivity.
  - destruct (is_space c) eqn:C; [|exists []; split; reflexivity].
    exists (c :: pre). cbn [app forallb]. rewrite C, B.
    split; [f_equal; exact E|reflexivity].
Qed.

(** Stripping takes away white space only. *)
Lemma strip_blank_ends (s : str) :
  exists pre post, s = pre ++ strip s ++ post
                   /\ forallb is_space pre = true
                   /\ forallb is_space post = true.
Proof.
  destruct (lstrip_blank_prefix s) as (pre & E & B).
  destruct (lstrip_blank_prefix (rev (lstrip s))) as (post' & E' & B').
  exists pre, (rev post'). unfold strip, rstrip.
  rewrite <- rev_app_distr, <- E', rev_involutive.
  split; [exact E|]. split; [exact B|].
  apply forallb_forall. intros x I. apply in_rev in I.
  rewrite forallb_forall in B'. exact (B' x I).
Qed.

Lemma digit_not_blank (c : ascii) : is_space c = true -> is_digit c = false.
Proof.
  intros H.
  pose proof (forall_chars
    (fun c => implb (is_space c) (negb (is_digit c))) eq_refl c) as F.
  cbv beta in F. rewrite H in F. apply negb_true_iff in F. exact F.
Qed.

Lemma strip_digits_count (s : str) :
  length (filter is_digit (strip s)) = length (filter is_digit s).
Proof.
  destruct (strip_blank_ends s) as (pre & post & E & Bp & Bq).
  rewrite E at 2. rewrite !filter_app, !length_app.
  rewrite (filter_none is_digit pre), (filter_none is_digit post); [cbn; lia| |].
  - apply forallb_forall. intros x I. rewrite forallb_forall in Bq.
    rewrite (digit_not_blank x (Bq x I)). reflexivity.
  - apply forallb_forall. intros x I. rewrite forallb_forall in Bp.
    rewrite (digit_not_blank x (Bp x I)). reflexivity.
Qed.

Lemma slice_count (P : ascii -> bool) (a b : nat) (t : str) :
  a <= b <= length t ->
  (forall j, a <= j < b -> exists c, char_at t j = Some c /\ P c = true) ->
  length (filter P (slice a b t)) = b - a.
Proof.
  intros B H. rewrite filter_all by (apply slice_pass; exact H).
  apply slice_length. lia.
Qed.

Lemma slice_count_none (P : ascii -> bool) (a b : nat) (t : str) :
  (forall j, a <= j < b ->
     exists c, char_at t j = Some c /\ negb (P c) = true) ->
  length (filter P (slice a b t)) = 0.
Proof.
  intros H. rewrite filter_none; [reflexivity|].
  apply (slice_pass (fun c => negb (P c))). exact H.
Qed.

Lemma digit_class (c : ascii) :
  cls_ok no_flags false [CDg] c = true -> is_digit c = true.
Proof.
  apply (implb_chars (cls_ok no_flags false [CDg]) is_digit).
  vm_compute. reflexivity.
Qed.

(** A match of the telephone pattern has ten digits and at most four
    other characters. *)
Lemma phone_digits (text : str) (m : rmatch_obj) :
  search no_flags PHONE_REGEX text = Some m ->
  length (filter is_digit (group0 text m)) = 10
  /\ length (group0 text m) <= 14.
Proof.
  intros H. apply search_at_sound in H. destruct H as [[_ Ls] M].
  apply match_at_sound in M. destruct M as [_ M].
  unfold matches, PHONE_REGEX in M.
  set (sep := Cls false [one "-"; CSp]) in M.
  change (sem no_flags text
            (Grp 1 (Seq (opt (word "("))
                   (Seq (times 3 3 (Cls false [CDg]))
                   (Seq (opt (word ")"))
                   (Seq (opt sep)
                   (Seq (times 3 3 (Cls false [CDg]))
                   (Seq (opt sep) (times 4 4 (Cls false [CDg])))))))))
            {| pos := m_start m; caps := [] |}
            {| pos := m_end m; caps := m_caps m |}) in M.
  cbn [sem] in M. fold sem in M.
  destruct M as (e & (a1 & H1 & a2 & H2 & a3 & H3 & a4 & H4 & a5 & H5
                        & a6 & H6 & H7) & E).
  assert (Ee : m_end m = pos e) by (unfold set_cap in E; inversion E; reflexivity).
  cbn [pos] in *.
  set (nd := fun c => negb (is_digit c)).
  assert (One : forall p a b, sem no_flags text (Lit p) a b -> pos b = S (pos a)).
  { intros p a b (c & _ & _ & Q). subst b. reflexivity. }
  assert (OneC : forall a b, sem no_flags text sep a b -> pos b = S (pos a)).
  { intros a b (c & _ & _ & Q). subst b. reflexivity. }
  destruct (sem_opt_char no_flags text (word "(") nd _ _ eq_refl (One _) H1)
    as [B1 C1].
  apply sem_times in H2. destruct H2 as [B2 C2].
  destruct (sem_opt_char no_flags text (word ")") nd _ _ eq_refl (One _) H3)
    as [B3 C3].
  destruct (sem_opt_char no_flags text sep nd _ _ eq_refl OneC H4)
    as [B4 C4].
  apply sem_times in H5. destruct H5 as [B5 C5].
  destruct (sem_opt_char no_flags text sep nd _ _ eq_refl OneC H6)
    as [B6 C6].
  apply sem_times in H7. destruct H7 as [B7 C7].
  cbn [pos] in *.
  pose proof (sem_forward no_flags text _ _ _ H1) as [_ G1].
  cbn [pos] in G1. specialize (G1 Ls).
  assert (Le : pos e <= length text).
  { destruct (Nat.le_gt_cases (pos e) (length text)) as [L|L]; [exact L|].
    exfalso. destruct (C7 (pos e - 1) ltac:(lia)) as (c & C & _).
    apply char_at_lt in C. lia. }
  unfold group0. rewrite Ee.
  rewrite (slice_app (m_start m) (pos a1) (pos e) text) by lia.
  rewrite (slice_app (pos a1) (pos a2) (pos e) text) by lia.
  rewrite (slice_app (pos a2) (pos a3) (pos e) text) by lia.
  rewrite (slice_app (pos a3) (pos a4) (pos e) text) by lia.
  rewrite (slice_app (pos a4) (pos a5) (pos e) text) by lia.
  rewrite (slice_app (pos a5) (pos a6) (pos e) text) by lia.
  rewrite !filter_app, !length_app.
  rewrite (slice_count_none is_digit (m_start m) (pos a1)) by exact C1.
  rewrite (slice_count_none is_digit (pos a2) (pos a3)) by exact C3.
  rewrite (slice_count_none is_digit (pos a3) (pos a4)) by exact C4.
  rewrite (slice_count_none is_digit (pos a5) (pos a6)) by exact C6.
  rewrite (slice_count is_digit (pos a1) (pos a2)); [|lia|].
  2: { intros j J. destruct (C2 j J) as (c & C & O). exists c.
       split; [exact C|apply digit_class; exact O]. }
  rewrite (slice_count is_digit (pos a4) (pos a5)); [|lia|].
  2: { intros j J. destruct (C5 j J) as (c & C & O). exists c.
       split; [exact C|apply digit_class; exact O]. }
  rewrite (slice_count is_digit (pos a6) (pos e)); [|lia|].
  2: { intros j J. destruct (C7 j J) as (c & C & O). exists c.
       split; [exact C|apply digit_class; exact O]. }
  rewrite !slice_length by lia. lia.
Qed.

Lemma at_sign (c : ascii) : lit_ok no_flags "@" c = true -> c = "@"%char.
Proof.
  unfold lit_ok. cbn [IGNORECASE no_flags]. intros H.
  apply Ascii.eqb_eq in H. symmetry. exact H.
Qed.

(** A match of the e-mail pattern is a local part, an at sign and a
    domain, without another at sign and without white space. *)
Lemma email_shape (text : str) (m : rmatch_obj) :
  search no_flags EMAIL_REGEX text = Some m ->
  exists local domain,
    group0 text m = local ++ "@"%char :: domain
    /\ local <> [] /\ domain <> []
    /\ forallb not_at local = true /\ forallb not_at domain = true
    /\ forallb (fun c => negb (is_space c)) (group0 text m) = true.
Proof.
  intros H. apply search_at_sound in H. destruct H as [[_ Ls] M].
  apply match_at_sound in M. destruct M as [_ M].
  assert (Fw : m_start m <= m_end m <= length text).
  { pose proof (sem_forward no_flags text _ _ _ M) as [F G].
    cbn [pos] in F, G. specialize (G Ls). lia. }
  assert (Sp : forallb (fun c => negb (is_space c)) (group0 text m) = true).
  { unfold group0. apply slice_pass.
    exact (proj2 (sem_only no_flags text (fun c => negb (is_space c))
                    EMAIL_REGEX _ _ eq_refl M)). }
  unfold matches, EMAIL_REGEX in M.
  match type of M with
  | sem _ _ (seqs [?l; _; ?d; ?p; ?a]) _ _ =>
      change (sem no_flags text
                (Seq l (Seq (Lit "@") (Seq d (Seq p a))))
                {| pos := m_start m; caps := [] |}
                {| pos := m_end m; caps := m_caps m |}) in M;
      set (dom := Seq d (Seq p a)) in M
  end.
  cbn [sem] in M. fold sem in M.
  destruct M as (b1 & H1 & b2 & H2 & H3).
  destruct H2 as (c & C & O & E2). apply at_sign in O. subst c.
  assert (P2 : pos b2 = S (pos b1)) by (subst b2; reflexivity).
  match type of H1 with
  | sem _ _ ?r _ _ =>
      destruct (sem_only no_flags text not_at r _ _ eq_refl H1) as [L1 C1]
  end.
  destruct (sem_only no_flags text not_at dom _ _ eq_refl H3) as [L3 C3].
  cbn [pos] in *.
  assert (N1 : pos {| pos := m_start m; caps := [] |} < pos b1).
  { unfold plus in H1. cbn [sem] in H1.
    match type of H1 with
    | iter (fun st st' => takes _ ?ok st st') _ _ _ _ _ =>
        change (iter (takes text ok) 1 None 0
                     {| pos := m_start m; caps := [] |} b1) in H1
    end.
    apply iter_takes_min in H1. lia. }
  cbn [pos] in N1.
  assert (N3 : pos b2 < m_end m).
  { destruct (sem_needs no_flags text (fun _ => true) dom _ _ eq_refl H3)
      as (j & x & J & _). cbn [pos] in J. lia. }
  exists (slice (m_start m) (pos b1) text), (slice (pos b2) (m_end m) text).
  split; [|split; [|split; [|split; [|split]]]].
  - unfold group0.
    rewrite (slice_app (m_start m) (pos b1) (m_end m) text) by lia.
    rewrite (slice_first (pos b1) (m_end m) text "@" ltac:(lia) C).
    rewrite P2. reflexivity.
  - intros Z. apply (f_equal (@length ascii)) in Z.
    rewrite slice_length in Z by lia. cbn in Z. lia.
  - intros Z. apply (f_equal (@length ascii)) in Z.
    rewrite slice_length in Z by lia. cbn in Z. lia.
  - apply slice_pass. exact C1.
  - apply slice_pass. exact C3.
  - exact Sp.
Qed.

Lemma strip_nonspace (s : str) :
  forallb (fun c => negb (is_space c)) s = true -> strip s = s.
Proof.
  intros H. destruct s as [|a s]; [reflexivity|].
  destruct (rev (a :: s)) as [|b t] eqn:R.
  - apply (f_equal (@length ascii)) in R. rewrite length_rev in R.
    discriminate.
  - rewrite forallb_forall in H.
    apply (strip_id a b s (rev t)).
    + apply negb_true_iff. apply H. left. reflexivity.
    + apply negb_true_iff. apply H. apply in_rev. rewrite R. left.
      reflexivity.
    + rewrite <- (rev_involutive (a :: s)), R. reflexivity.
Qed.

(** X19: an Email of the contact dictionary is a non-empty local part,
    one at sign and a non-empty domain, with no other at sign and no
    white space; a Mobile holds exactly ten digits and at most four other
    characters: of a longer run of digits, such as a number written with
    its country code, it is the first ten. *)
Theorem email_and_mobile_have_shape (text : str) :
  (forall v, dict_get "Email" (extract_contact_info text) = Some v ->
     exists local domain,
       v = local ++ "@"%char :: domain
       /\ local <> [] /\ domain <> []
       /\ forallb not_at local = true /\ forallb not_at domain = true
       /\ forallb (fun c => negb (is_space c)) v = true)
  /\ (forall v, dict_get "Mobile" (extract_contact_info text) = Some v ->
        length (filter is_digit v) = 10 /\ length v <= 14)
  /\ dict_get "Mobile" (extract_contact_info (s2l "Call +15551234567 today"))
     = Some (s2l "1555123456").
Proof.
  destruct (contact_channels text) as (He & Hp & _). cbv zeta in He, Hp.
  split; [|split; [|vm_compute; reflexivity]].
  - intros v G. rewrite He in G.
    destruct (search no_flags EMAIL_REGEX text) as [m|] eqn:S;
      [|discriminate].
    cbn [option_map] in G. inversion G as [Q]. clear G.
    destruct (email_shape text m S) as (l & d & E & Nl & Nd & Al & Ad & Sp).
    rewrite (strip_nonspace _ Sp). exists l, d. repeat split; auto.
  - intros v G. rewrite Hp in G.
    destruct (search no_flags PHONE_REGEX text) as [m|] eqn:S;
      [|discriminate].
    cbn [option_map] in G. inversion G as [Q]. clear G.
    destruct (phone_digits text m S) as [D L].
    rewrite strip_digits_count. split; [exact D|].
    pose proof (strip_length (group0 text m)). lia.
Qed.

Lemma email_and_mobile_have_shape_witness :
  (exists local domain,
     s2l "jane.roe@example.org" = local ++ "@"%char :: domain
     /\ local <> [] /\ domain <> []
     /\ forallb not_at local = true /\ forallb not_at domain = true
     /\ forallb (fun c => negb (is_space c)) (s2l "jane.roe@example.org")
        = true)
  /\ length (filter is_digit (s2l "(555) 123-4567")) = 10
  /\ length (s2l "(555) 123-4567") <= 14.
Proof.
  split.
  - apply (proj1 (email_and_mobile_have_shape
                    (s2l "Mail jane.roe@example.org, call +1 (555) 123-4567"))).
    vm_compute. reflexivity.
  - apply (proj1 (proj2 (email_and_mobile_have_shape
                    (s2l "Mail jane.roe@example.org, call +1 (555) 123-4567")))).
    vm_compute. reflexivity.
Defined.

(** ** The blocks after a marker *)

(** A block without the word "Client" gives no Client, Title and
    Duration. *)
Lemma no_client_in_block (block : str) (e : dict value) :
  occurs I_ (s2l "Client") block = false ->
  In e (experience_step [] block) -> keys e = ["Responsibilities"].
Proof.
  intros O H. apply experience_step_entry in H. destruct H as [E N].
  subst e. revert N. unfold job_of_block. cbv zeta.
  destruct (search S_I CLIENT_REGEX (strip block)) as [m|] eqn:Sc.
  { exfalso. unfold CLIENT_REGEX in Sc.
    match type of Sc with
    | search _ (seqs (_ :: ?tl)) _ = _ =>
        change (search S_I (Seq (lits (s2l "Client")) (seqs tl))
                       (strip block) = Some m) in Sc
    end.
    apply search_starts_with in Sc; [|reflexivity|discriminate].
    apply occurs_strip in Sc; [congruence|discriminate]. }
  destruct (search S_I RESPONSIBILITIES_REGEX (strip block));
    [reflexivity|intros N; contradiction].
Qed.

(** X20: the split at the "Client" marker lines takes the marker away
    from every block after the first, so a job that follows a marker
    gives its Client, Title and Duration only if the word "Client" comes
    again inside its block: when it does not, every entry after the first
    block's holds Responsibilities and nothing else. *)
Theorem only_the_first_block_has_a_client (text : str) (first : str)
  (later : list str) :
  re_split I_ JOB_SPLIT text = first :: later ->
  (forall block, In block later ->
                 occurs I_ (s2l "Client") block = false) ->
  parse_experience text
  = experience_step [] first ++ flat_map (experience_step []) later
  /\ forall e, In e (flat_map (experience_step []) later) ->
               keys e = ["Responsibilities"].
Proof.
  intros E O. split.
  - unfold parse_experience. cbv zeta. rewrite E, experience_loop_appends.
    reflexivity.
  - intros e H. apply in_flat_map in H. destruct H as (b & I & H).
    exact (no_client_in_block b e (O b I) H).
Qed.

Lemma only_the_first_block_has_a_client_witness :
  parse_experience two_jobs_with_duties
  = [ [ ("Client", VStr (s2l "Acme")); ("Title", VStr (s2l "Dev"));
        ("Duration", VStr (s2l "2020")) ];
      [ ("Responsibilities", VList [s2l "testing"]) ] ]
  /\ forall e,
       In e [ [ ("Responsibilities", VList [s2l "testing"]) ] ] ->
       keys e = ["Responsibilities"].
Proof.
  exact (only_the_first_block_has_a_client two_jobs_with_duties
           (text_of ["Client"; "Acme"; "Title"; "Dev"; "Duration"; "2020";
                     "Description"])
           [text_of ["Beta"; "Title"; "QA"; "Duration"; "2021";
                     "Responsibilities:"; "- testing"]]
           ltac:(vm_compute; reflexivity)
           ltac:(intros block [E|[]]; subst block; vm_compute; reflexivity)).
Defined.

(** ** The blocks of different keys lie apart *)

(** What a header's assignment can leave under a key: what was there, or
    the header's content when the header fills that key. *)
Lemma assign_content_from (n key : string) (c v : str) (sd : dict str) :
  dict_get key (assign_content n c sd) = Some v ->
  dict_get key sd = Some v \/ (key_of n = key /\ v = c).
Proof.
  unfold assign_content, key_of.
  destruct (String.eqb n "educational_details_bottom") eqn:D.
  - destruct (dict_get "educational" sd) as [old|]; [|auto].
    destruct (is_empty old); [|auto].
    rewrite dict_get_set. destruct (String.eqb key "educational") eqn:K;
      [|auto].
    apply String.eqb_eq in K. intros E. inversion E. auto.
  - rewrite dict_get_set. destruct (String.eqb key n) eqn:K; [|auto].
    apply String.eqb_eq in K. intros E. inversion E. auto.
Qed.

Lemma assign_all_from (cs : list (string * str)) (sd : dict str)
  (key : string) (v : str) :
  dict_get key (assign_all cs sd) = Some v ->
  dict_get key sd = Some v
  \/ exists n, In (n, v) cs /\ key_of n = key.
Proof.
  revert sd. induction cs as [|[n c] cs IH]; intros sd H; [auto|].
  cbn [assign_all fold_left fst snd] in H.
  destruct (IH _ H) as [G|(m & I & K)].
  - destruct (assign_content_from n key c v sd G) as [G'|[K E]]; [auto|].
    subst c. right. exists n. split; [left; reflexivity|exact K].
  - right. exists m. split; [right; exact I|exact K].
Qed.

Lemma contents_spans (text : str) (hs : list header) (n : string) (v : str) :
  In (n, v) (contents text hs) ->
  exists h x y, In (h, (x, y)) (spans text hs)
                /\ h_name h = n /\ v = strip (slice x y text).
Proof.
  induction hs as [|h rest IH]; cbn [contents spans]; [intros []|].
  intros [E|I].
  - inversion E. exists h, (h_end h), (next_start text rest).
    split; [left; reflexivity|]. split; reflexivity.
  - destruct (IH I) as (h' & x & y & J & A & B).
    exists h', x, y. split; [right; exact J|]. split; assumption.
Qed.

Lemma spans_regions (text : str) (hs : list header) (h : header)
  (x y : nat) :
  In (h, (x, y)) (spans text hs) -> In (h, slice x y text) (regions text hs).
Proof.
  induction hs as [|h0 rest IH]; cbn [spans regions]; [intros []|].
  intros [E|I]; [left|right; exact (IH I)].
  inversion E. reflexivity.
Qed.

(** Every region starts after the start of the first header and lies
    within the text. *)
Lemma spans_bounds (text : str) (hs : list header) :
  laid_out text hs ->
  forall h x y, In (h, (x, y)) (spans text hs) ->
                next_start text hs < x /\ x <= y <= length text.
Proof.
  induction hs as [|h0 rest IH]; cbn [laid_out spans]; [intros _ h x y []|].
  intros (L1 & L2 & L3 & _ & Lr) h x y [E|I].
  - inversion E; subst. cbn [next_start]. lia.
  - destruct (IH Lr h x y I) as [B1 B2]. cbn [next_start]. lia.
Qed.

(** The regions follow one another. *)
Lemma spans_sorted (text : str) (hs : list header) :
  laid_out text hs ->
  StronglySorted (fun p q : header * (nat * nat) =>
                    snd (snd p) <= fst (snd q))
                 (spans text hs).
Proof.
  induction hs as [|h0 rest IH]; cbn [laid_out spans]; [constructor|].
  intros (L1 & L2 & L3 & _ & Lr). constructor; [exact (IH Lr)|].
  apply Forall_forall. intros [h [x y]] I. cbn [fst snd].
  destruct (spans_bounds text rest Lr h x y I) as [B _]. lia.
Qed.

Lemma sorted_apart {A : Type} (R : A -> A -> Prop) (l : list A) (p q : A) :
  StronglySorted R l -> In p l -> In q l -> p = q \/ R p q \/ R q p.
Proof.
  induction 1 as [|a l S IH F]; [intros []|].
  rewrite Forall_forall in F.
  intros [E1|I1] [E2|I2].
  - left. congruence.
  - subst a. right. left. exact (F q I2).
  - subst a. right. right. exact (F p I1).
  - exact (IH I1 I2).
Qed.

(** Stripping a part of the text gives a part of the text. *)
Lemma strip_slice (text : str) (x y : nat) :
  x <= y <= length text ->
  exists a b, x <= a /\ a <= b /\ b <= y
              /\ strip (slice x y text) = slice a b text.
Proof.
  intros B. destruct (strip_decompose (slice x y text)) as (pre & post & D).
  pose proof (f_equal (@length ascii) D) as L.
  rewrite slice_length, !length_app in L by lia.
  exists (x + length pre), (x + length pre + length (strip (slice x y text))).
  split; [lia|]. split; [lia|]. split; [lia|].
  unfold slice at 2.
  replace (x + length pre + length (strip (slice x y text))
           - (x + length pre))
    with (length (strip (slice x y text))) by lia.
  replace (x + length pre) with (length pre + x) by lia.
  rewrite <- skipn_skipn.
  assert (E : skipn x text = (pre ++ strip (slice x y text) ++ post)
                             ++ skipn y text).
  { rewrite <- D. apply skipn_slice. lia. }
  rewrite E, <- !app_assoc. rewrite skipn_app, skipn_all, Nat.sub_diag.
  cbn [skipn app]. rewrite firstn_app, firstn_all, Nat.sub_diag.
  cbn [firstn]. rewrite app_nil_r. reflexivity.
Qed.

(** A part of the text that starts a part of the text. *)
Lemma prefix_slice (text raw suffix : str) (a b : nat) :
  a <= b <= length text ->
  slice a b text = raw ++ suffix ->
  a + length raw <= b /\ raw = slice a (a + length raw) text.
Proof.
  intros B E. pose proof (f_equal (@length ascii) E) as L.
  rewrite slice_length, length_app in L by lia.
  split; [lia|]. unfold slice in *.
  replace (a + length raw - a) with (length raw) by lia.
  assert (F : firstn (length raw) (firstn (b - a) (skipn a text))
              = firstn (length raw) (skipn a text)).
  { rewrite firstn_firstn. f_equal. lia. }
  rewrite <- F, E, firstn_app, firstn_all, Nat.sub_diag. cbn [firstn].
  rewrite app_nil_r. reflexivity.
Qed.

Lemma split_acc_nonempty (sep : ascii) (cur s : str) :
  split_acc sep cur s <> [].
Proof.
  revert cur. induction s as [|c s IH]; intros cur; cbn [split_acc];
    [discriminate|].
  destruct (eqc c sep); [discriminate|apply IH].
Qed.

(** Joining the lines of a text gives the text back. *)
Lemma join_split_acc (sep : ascii) (cur s : str) :
  join [sep] (split_acc sep cur s) = rev cur ++ s.
Proof.
  revert cur. induction s as [|c s IH]; intros cur; cbn [split_acc].
  - cbn [join]. rewrite app_nil_r. reflexivity.
  - destruct (eqc c sep) eqn:E.
    + apply Ascii.eqb_eq in E. subst c.
      pose proof (split_acc_nonempty sep [] s) as N.
      pose proof (IH []) as J. cbn [rev app] in J.
      destruct (split_acc sep [] s) as [|p ps]; [contradiction|].
      cbn [join] in *. rewrite J. reflexivity.
    + rewrite IH. cbn [rev]. rewrite <- app_assoc. reflexivity.
Qed.

Lemma join_split (sep : ascii) (s : str) : join [sep] (split sep s) = s.
Proof. apply (join_split_acc sep [] s). Qed.

Lemma summary_lines_prefix (lines : list str) :
  exists later, lines = summary_lines lines ++ later.
Proof.
  induction lines as [|l lines [later E]]; cbn [summary_lines].
  - exists []. reflexivity.
  - destruct (negb (has_contact l)).
    + exists later. cbn [app]. f_equal. exact E.
    + exists (l :: lines). reflexivity.
Qed.

Lemma join_prefix (sep : str) (p q : list str) :
  exists suffix, join sep (p ++ q) = join sep p ++ suffix.
Proof.
  induction p as [|x p [suffix IH]].
  - exists (join sep q). reflexivity.
  - destruct p as [|x' p'].
    + cbn [app]. destruct q as [|y q'].
      * exists []. cbn [join]. rewrite app_nil_r. reflexivity.
      * exists (sep ++ join sep (y :: q')). reflexivity.
    + exists suffix. cbn [app join] in *. rewrite IH, <- !app_assoc.
      reflexivity.
Qed.

(** The summary of the introduction is a part of the text before the
    first header. *)
Lemma intro_candidate_place (text : str) (n : nat) :
  n <= length text ->
  exists a b,
    a <= b /\ b <= n
    /\ strip (join [NL] (summary_lines (split NL (strip (slice 0 n text)))))
       = slice a b text.
Proof.
  intros Ln.
  destruct (strip_slice text 0 n ltac:(lia)) as (a0 & b0 & A0 & B0 & C0 & E0).
  rewrite E0.
  destruct (summary_lines_prefix (split NL (slice a0 b0 text))) as [later P].
  destruct (join_prefix [NL] (summary_lines (split NL (slice a0 b0 text)))
              later) as [suffix J].
  rewrite <- P, join_split in J.
  destruct (prefix_slice text _ suffix a0 b0 ltac:(lia) J) as [Lr Er].
  set (raw := join [NL] (summary_lines (split NL (slice a0 b0 text)))) in *.
  rewrite Er.
  destruct (strip_slice text a0 (a0 + length raw) ltac:(lia))
    as (a & b & A & B & C & E).
  exists a, b. split; [lia|]. split; [lia|exact E].
Qed.

(** Where a block of the segmenter that is not empty comes from. *)
Lemma section_text_from (text : str) (key : string) (v : str) :
  dict_get key (section_text text) = Some v -> v <> [] ->
  (exists n, In (n, v) (contents text (header_matches text))
             /\ key_of n = key)
  \/ (key = "professional_summary"
      /\ exists h rest,
           header_matches text = h :: rest
           /\ v = strip (join [NL]
                          (summary_lines
                             (split NL (strip (slice 0 (h_start h) text)))))).
Proof.
  intros G N. unfold section_text in G. cbv zeta in G.
  rewrite assign_sections_contents in G.
  assert (Fr : forall sd, sd = assign_all (contents text (header_matches text))
                                         empty_sections ->
               dict_get key sd = Some v ->
               exists n, In (n, v) (contents text (header_matches text))
                         /\ key_of n = key).
  { intros sd E H. subst sd. apply assign_all_from in H.
    destruct H as [H|H]; [|exact H].
    apply empty_sections_values in H. contradiction. }
  unfold intro_summary in G.
  destruct (header_matches text) as [|h rest] eqn:Hm.
  - left. exact (Fr _ eq_refl G).
  - cbv zeta in G. rewrite (intro_search_fails text h rest Hm) in G.
    destruct (10 <? _); [|left; exact (Fr _ eq_refl G)].
    rewrite dict_get_set in G.
    destruct (String.eqb key "professional_summary") eqn:K;
      [|left; exact (Fr _ eq_refl G)].
    apply String.eqb_eq in K. inversion G as [E].
    right. split; [exact K|]. exists h, rest. split; reflexivity.
Qed.

Lemma slice_empty (a : nat) (t : str) : slice a a t = [].
Proof. unfold slice. rewrite Nat.sub_diag. reflexivity. Qed.

(** Every block that is not empty has its place in the document. *)
Lemma block_place (text : str) (key : string) (v : str) :
  dict_get key (section_text text) = Some v -> v <> [] ->
  exists a b, block_at text (header_matches text) key v a b.
Proof.
  intros G N. pose proof (header_matches_laid_out text) as Lo.
  destruct (section_text_from text key v G N)
    as [(n & I & K)|(K & h & rest & Hm & E)].
  - destruct (contents_spans text _ n v I) as (h & x & y & J & Hn & E).
    destruct (spans_bounds text _ Lo h x y J) as [_ B].
    destruct (strip_slice text x y B) as (a & b & A1 & A2 & A3 & S).
    exists a, b. unfold block_at.
    assert (Lt : a < b).
    { destruct (Nat.eq_dec a b) as [Q|Q]; [|lia].
      exfalso. apply N. rewrite E, S, Q. apply slice_empty. }
    split; [lia|]. split; [rewrite E; exact S|]. left.
    exists h, x, y. split; [exact J|].
    split; [exact (spans_regions text _ h x y J)|].
    split; [rewrite Hn; exact K|]. split; [exact E|]. lia.
  - rewrite Hm in Lo. cbn [laid_out] in Lo.
    destruct Lo as (L1 & L2 & L3 & _).
    destruct (intro_candidate_place text (h_start h) ltac:(lia))
      as (a & b & A & B & S).
    exists a, b. unfold block_at.
    assert (Lt : a < b).
    { destruct (Nat.eq_dec a b) as [Q|Q]; [|lia].
      exfalso. apply N. rewrite E, S, Q. apply slice_empty. }
    split; [lia|]. split; [rewrite E; exact S|]. right.
    split; [exact K|]. exists h, rest. split; [exact Hm|exact B].
Qed.

(** Two places of blocks of different keys do not overlap. *)
Lemma places_apart (text : str) (k1 k2 : string) (v1 v2 : str)
  (a1 b1 a2 b2 : nat) :
  k1 <> k2 ->
  block_at text (header_matches text) k1 v1 a1 b1 ->
  block_at text (header_matches text) k2 v2 a2 b2 ->
  b1 <= a2 \/ b2 <= a1.
Proof.
  intros Nk (B1 & _ & P1) (B2 & _ & P2).
  pose proof (header_matches_laid_out text) as Lo.
  pose proof (spans_sorted text _ Lo) as Srt.
  destruct P1 as [(h1 & x1 & y1 & J1 & _ & K1 & _ & X1 & Y1)|(K1 & h & r & Hm & I1)];
    destruct P2 as [(h2 & x2 & y2 & J2 & _ & K2 & _ & X2 & Y2)
                   |(K2 & h' & r' & Hm' & I2)].
  - destruct (sorted_apart _ _ _ _ Srt J1 J2) as [E|[R|R]]; cbn [fst snd] in *.
    + exfalso. inversion E. subst. contradiction.
    + left. lia.
    + right. lia.
  - right. destruct (spans_bounds text _ Lo h1 x1 y1 J1) as [Bs _].
    rewrite Hm' in Bs. cbn [next_start] in Bs. lia.
  - left. destruct (spans_bounds text _ Lo h2 x2 y2 J2) as [Bs _].
    rewrite Hm in Bs. cbn [next_start] in Bs. lia.
  - exfalso. congruence.
Qed.

(** C1 (as the code has it): the recognised headers are the occurrences
    of the five header literals; they and the regions between them lie one
    after the other in the document without overlap; the header texts and
    the regions, taken in turn, make up the document from the start of the
    first header to the end; every block that is not empty is a part of
    the document: the stripped region of a header that fills its key or,
    for the summary, a part of the text before the first header; and the
    blocks of two different keys are parts of the document that do not
    overlap. *)
Theorem sections_are_laid_out (text : str) :
  let hs := header_matches text in
  (Forall (header_fact text) hs
   /\ forall name w s,
        In (name, w) header_words ->
        lit_at I_ (s2l w) text s = true ->
        exists h, In h hs /\ h_start h = s /\ h_name h = name)
  /\ laid_out text hs
  /\ skipn (next_start text hs) text
     = concat (map (fun p => h_text (fst p) ++ snd p) (regions text hs))
  /\ (forall key v,
        dict_get key (section_text text) = Some v -> v <> [] ->
        exists a b, block_at text hs key v a b)
  /\ (forall k1 k2 v1 v2,
        k1 <> k2 ->
        dict_get k1 (section_text text) = Some v1 -> v1 <> [] ->
        dict_get k2 (section_text text) = Some v2 -> v2 <> [] ->
        exists a1 b1 a2 b2,
          block_at text hs k1 v1 a1 b1 /\ block_at text hs k2 v2 a2 b2
          /\ (b1 <= a2 \/ b2 <= a1)).
Proof.
  cbv zeta. split; [apply header_matches_exact|].
  split; [apply header_matches_laid_out|].
  split; [apply laid_out_concat, header_matches_laid_out|].
  split; [apply block_place|].
  intros k1 k2 v1 v2 Nk G1 N1 G2 N2.
  destruct (block_place text k1 v1 G1 N1) as (a1 & b1 & P1).
  destruct (block_place text k2 v2 G2 N2) as (a2 & b2 & P2).
  exists a1, b1, a2, b2. split; [exact P1|]. split; [exact P2|].
  exact (places_apart text k1 k2 v1 v2 a1 b1 a2 b2 Nk P1 P2).
Qed.

Lemma sections_are_laid_out_witness :
  exists a1 b1 a2 b2,
    block_at two_sections (header_matches two_sections) "educational"
             (s2l "a") a1 b1
    /\ block_at two_sections (header_matches two_sections)
                "professional_experience" (s2l "b") a2 b2
    /\ (b1 <= a2 \/ b2 <= a1).
Proof.
  apply (proj2 (proj2 (proj2 (proj2 (sections_are_laid_out two_sections))))
           "educational" "professional_experience").
  - apply String.eqb_neq. reflexivity.
  - vm_compute. reflexivity.
  - discriminate.
  - vm_compute. reflexivity.
  - discriminate.
Defined.
